(** * aiproxy: a credential-brokering proxy in front of Amazon Bedrock

    A shallow embedding of the Python sources

      - [auth/gcp_credentials.py]     (module [GCP])
      - [auth/aws_credentials.py]     (module [AWS])
      - [services/gcp_gateway.py]     (module [Gateway])
      - [services/bedrock_client.py]  (module [Bedrock])
      - [main.py]                     (module [Main])
      - [proxyapp.py]                 (module [ProxyApp])

    Objects become records, methods become functions from the object's
    state and the answers of the outside world (clock readings, replies of
    the identity provider, of STS, of the gateway and of Bedrock) to a
    result, the new state and the list of outside calls that were made.
    Exceptions are values of [Py.exn]; a [try]/[except] is a [match] on a
    [Py.result].

    Conventions of the model:
      - a [datetime] is its number of microseconds on the time line, a [Z];
        [timedelta(seconds=n)] is [Py.seconds n]. The bounds of Python's
        [datetime] (years 1 to 9999) are not modelled;
      - a [str] is a Rocq [string] holding its UTF-8 bytes. [lower],
        [isupper] and friends act on the ASCII letters only: operation names
        are ASCII identifiers;
      - a [dict] with string keys is a [gmap string _]. *)

From stdpp Require Import base gmap strings list fin_maps.
From Stdlib Require Import ZArith Lia Ascii String.

Set Warnings "-register-all".

(** ** Python values, exceptions and the trace of outside calls *)

Module Py.

(** The exception classes the sources raise or catch. An f-string that
    interpolates [str(e)] keeps the exception itself, as [Fmt prefix e]. *)
Inductive exn :=
| HTTPException (status_code : Z) (detail : message) (* fastapi.HTTPException *)
| HTTPError (why : message)               (* httpx.HTTPError and subclasses *)
| AttributeError (name : string)
| KeyError (key : string)
| TypeError (what : string)
| ValueError (what : string)
| RuntimeError (what : string)
| UnicodeDecodeError
| Exception_ (msg : message)         (* any other subclass of Exception *)
with message :=
| Text (s : string)
| Fmt (prefix : string) (cause : exn).

Inductive result (A : Type) :=
| Ok (a : A)
| Raise (e : exn).
Arguments Ok {A} a.
Arguments Raise {A} e.

(** JSON-like values, plus [bytes] and [bytearray]. *)
Inductive pyval :=
| PNone
| PBool (b : bool)
| PInt (z : Z)
| PStr (s : string)
| PDatetime (t : Z)
| PBytes (b : list Byte.byte)
| PByteArray (b : list Byte.byte)
| PList (l : list pyval)
| PDict (d : gmap string pyval).

(** Calls that leave the process, in the order they are made.
    [EvClientConstruct] is a [boto3.client(...)] construction. *)
Inductive event :=
| EvIdentityRefresh (audience token_url : string)
| EvAssumeRole (role_arn : string) (session_stamp : Z)
               (web_identity_token : option string) (duration : Z)
| EvGatewayPost (url : string) (payload : pyval) (headers : gmap string string)
| EvClientConstruct (service region : string)
                    (credentials : option (gmap string string))
| EvBackendCall (service method : string) (kwargs : gmap string pyval).

Definition is_backend_call (e : event) : bool :=
  match e with
  | EvBackendCall _ _ _ => true
  | _ => false
  end.

(** [timedelta(seconds=n)], in microseconds. *)
Definition seconds (n : Z) : Z := (n * 1000000)%Z.

(** Truthiness of an [Optional[str]]: [None] and the empty string are falsy. *)
Definition str_truthy (s : string) : bool := negb (String.eqb s "").

Definition opt_str_truthy (o : option string) : bool :=
  match o with
  | Some s => str_truthy s
  | None => false
  end.

(** Truthiness of an [Optional[Dict]]: [None] and the empty dict are falsy. *)
Definition opt_dict_truthy {V} (o : option (gmap string V)) : bool :=
  match o with
  | Some d => negb (bool_decide (d = ∅))
  | None => false
  end.

(** *** Strings: [str.lower], [str.isupper], [str.startswith], [str.lstrip] *)

Definition isupper (c : ascii) : bool :=
  let n := N_of_ascii c in (65 <=? n)%N && (n <=? 90)%N.

Definition lower_char (c : ascii) : ascii :=
  if isupper c then ascii_of_N (N_of_ascii c + 32) else c.

Fixpoint lower (s : string) : string :=
  match s with
  | EmptyString => EmptyString
  | String c r => String (lower_char c) (lower r)
  end.

Definition startswith (s p : string) : bool := String.prefix p s.

(** [s.lstrip('_')] *)
Fixpoint lstrip_underscore (s : string) : string :=
  match s with
  | String "_" r => lstrip_underscore r
  | _ => s
  end.

(** *** [bytes.decode('utf-8')]

    Strict decoding: the well-formed byte sequences of the Unicode
    standard (no overlong forms, no surrogates, nothing above U+10FFFF).
    A decoded [str] is held as the same bytes. *)

Definition in_range (lo hi : N) (b : Byte.byte) : bool :=
  let n := Byte.to_N b in (lo <=? n)%N && (n <=? hi)%N.

Definition continuation : Byte.byte → bool := in_range 0x80 0xBF.

Definition second_of_three (b0 b1 : Byte.byte) : bool :=
  if in_range 0xE0 0xE0 b0 then in_range 0xA0 0xBF b1
  else if in_range 0xED 0xED b0 then in_range 0x80 0x9F b1
  else continuation b1.

Definition second_of_four (b0 b1 : Byte.byte) : bool :=
  if in_range 0xF0 0xF0 b0 then in_range 0x90 0xBF b1
  else if in_range 0xF4 0xF4 b0 then in_range 0x80 0x8F b1
  else continuation b1.

Fixpoint utf8_valid (bs : list Byte.byte) : bool :=
  match bs with
  | [] => true
  | b0 :: r0 =>
      if in_range 0x00 0x7F b0 then utf8_valid r0
      else
        match r0 with
        | [] => false
        | b1 :: r1 =>
            if in_range 0xC2 0xDF b0 then continuation b1 && utf8_valid r1
            else
              match r1 with
              | [] => false
              | b2 :: r2 =>
                  if in_range 0xE0 0xEF b0 then
                    second_of_three b0 b1 && continuation b2 && utf8_valid r2
                  else
                    match r2 with
                    | [] => false
                    | b3 :: r3 =>
                        in_range 0xF0 0xF4 b0 && second_of_four b0 b1
                        && continuation b2 && continuation b3 && utf8_valid r3
                    end
              end
        end
  end.

Definition decode_utf8 (bs : list Byte.byte) : result string :=
  if utf8_valid bs then Ok (string_of_list_byte bs) else Raise UnicodeDecodeError.

(** *** Dictionaries and attribute access on values *)

(** [v.get(key)]: only a dict has a [get]. *)
Definition py_get (v : pyval) (key : string) : result (option pyval) :=
  match v with
  | PDict d => Ok (d !! key)
  | _ => Raise (AttributeError "get")
  end.

(** [x == "approved"] for the result of a [get]. *)
Definition is_approved (o : option pyval) : bool :=
  match o with
  | Some (PStr s) => String.eqb s "approved"
  | _ => false
  end.

(** [d[key]] on an [Optional[Dict[str, str]]]. *)
Definition py_getitem (d : option (gmap string string)) (key : string)
  : result string :=
  match d with
  | None => Raise (TypeError "'NoneType' object is not subscriptable")
  | Some m =>
      match m !! key with
      | Some v => Ok v
      | None => Raise (KeyError key)
      end
  end.

End Py.

Import Py.

(** ** auth/gcp_credentials.py *)

Module GCP.

(** The [identity_pool.Credentials] object: its configuration and the token
    that its last successful [refresh] left in [.token]. *)
Record handle := {
  audience : string;
  token_url : string;
  token : option string
}.

(** The attributes of a [GCPTokenManager]. *)
Record state := {
  workload_identity_pool : string;
  provider_id : string;
  token_cache : option string;
  token_expiry : option Z;
  _credentials : option handle;
  refresh_buffer : Z
}.

(** What the outside world answers during one [get_token]:
    the clock at line 55, whether building the handle raises, what
    [refresh] does (the token it leaves, or the exception), and the clock
    at line 40. *)
Record env := {
  now_check : Z;
  construct : option exn;
  refresh : result string;
  now_set : Z
}.

Definition __init__ (pool pid : option string) : result state :=
  if opt_str_truthy pool && opt_str_truthy pid then
    match pool, pid with
    | Some p, Some i =>
        Ok {| workload_identity_pool := p; provider_id := i;
              token_cache := None; token_expiry := None;
              _credentials := None; refresh_buffer := 300 |}
    | _, _ => Raise (ValueError "Missing required GCP configuration")
    end
  else Raise (ValueError "Missing required GCP configuration").

Definition _is_token_valid (self : state) (now : Z) : bool :=
  if negb (opt_str_truthy (token_cache self)) then false
  else
    match token_expiry self with
    | None => false
    | Some expiry => (now <? expiry - seconds (refresh_buffer self))%Z
    end.

Definition clear_cache (self : state) : state :=
  {| workload_identity_pool := workload_identity_pool self;
     provider_id := provider_id self;
     token_cache := None;
     token_expiry := None;
     _credentials := None;
     refresh_buffer := refresh_buffer self |}.

Definition with_handle (self : state) (h : handle) : state :=
  {| workload_identity_pool := workload_identity_pool self;
     provider_id := provider_id self;
     token_cache := token_cache self;
     token_expiry := token_expiry self;
     _credentials := Some h;
     refresh_buffer := refresh_buffer self |}.

Definition with_token (self : state) (tok : option string) (expiry : Z) : state :=
  {| workload_identity_pool := workload_identity_pool self;
     provider_id := provider_id self;
     token_cache := tok;
     token_expiry := Some expiry;
     _credentials := _credentials self;
     refresh_buffer := refresh_buffer self |}.

(** Lines 28-35: the handle is built once and kept. *)
Definition ensure_handle (self : state) (w : env) : result handle :=
  match _credentials self with
  | Some h => Ok h
  | None =>
      match construct w with
      | Some e => Raise e
      | None => Ok {| audience := provider_id self;
                      token_url := workload_identity_pool self;
                      token := None |}
      end
  end.

Definition refreshed (h : handle) (tok : string) : handle :=
  {| audience := audience h; token_url := token_url h; token := Some tok |}.

Definition auth_error (e : exn) : exn :=
  HTTPException 500 (Fmt "Failed to get Google Cloud token: " e).

(** Lines 27-48: the [try] block of [get_token] and its handler. *)
Definition refresh_token (self : state) (w : env)
  : result (option string) * state * list event :=
  match ensure_handle self w with
  | Raise e => (Raise (auth_error e), clear_cache self, [])
  | Ok h =>
      let self1 := with_handle self h in
      let call := EvIdentityRefresh (audience h) (token_url h) in
      match refresh w with
      | Raise e => (Raise (auth_error e), clear_cache self1, [call])
      | Ok tok =>
          let self2 := with_handle self1 (refreshed h tok) in
          let self3 := with_token self2 (token (refreshed h tok))
                                  (now_set w + seconds 3600) in
          (Ok (token_cache self3), self3, [call])
      end
  end.

Definition get_token (self : state) (w : env)
  : result (option string) * state * list event :=
  if _is_token_valid self (now_check w) then (Ok (token_cache self), self, [])
  else refresh_token self w.

(** [f'Bearer {token}'] *)
Definition bearer (token : option string) : string :=
  "Bearer " +:+ match token with Some t => t | None => "None" end.

Definition get_authorization_headers (self : state) (w : env)
  : result (gmap string string) * state * list event :=
  match get_token self w with
  | (Ok token, self', tr) =>
      (Ok (<["Content-Type" := "application/json"]>
             (<["Authorization" := bearer token]> ∅)), self', tr)
  | (Raise e, self', tr) => (Raise e, self', tr)
  end.

End GCP.

(** ** auth/aws_credentials.py *)

Module AWS.

(** [response['Credentials']] of [assume_role_with_web_identity]. The
    expiration is the timezone-aware UTC [datetime] boto3 parses. *)
Record sts_credentials := {
  AccessKeyId : string;
  SecretAccessKey : string;
  SessionToken : string;
  Expiration : Z
}.

(** The attributes of an [AWSCredentialsManager]. *)
Record state := {
  aws_role_arn : string;
  workload_identity_pool : string;
  provider_id : string;
  region : string;
  _credentials_cache : option (gmap string string);
  _credentials_expiry : option Z;
  _google_credentials : option GCP.handle;
  session_duration : Z;
  refresh_buffer : Z
}.

(** What the outside world answers during one [get_credentials]: the clock
    at line 48, whether building the Google handle raises, what its
    [refresh] does, whether [boto3.client('sts')] raises, the clock at
    line 68 and the reply of STS (an exception also stands for a reply
    that lacks one of the fields read at lines 75-84). *)
Record env := {
  utcnow_check : Z;
  construct : option exn;
  google_refresh : result string;
  sts_client : option exn;
  utcnow_session : Z;
  assume_role : result sts_credentials
}.

Definition __init__ (role pool pid region_ : option string) : result state :=
  match role, pool, pid with
  | Some r, Some p, Some i =>
      if str_truthy r && str_truthy p && str_truthy i then
        Ok {| aws_role_arn := r; workload_identity_pool := p; provider_id := i;
              region := default "us-east-1" region_;
              _credentials_cache := None; _credentials_expiry := None;
              _google_credentials := None;
              session_duration := 3600; refresh_buffer := 300 |}
      else Raise (ValueError "Missing required AWS configuration")
  | _, _, _ => Raise (ValueError "Missing required AWS configuration")
  end.

Definition _should_refresh_credentials (self : state) (utcnow : Z) : bool :=
  if negb (opt_dict_truthy (_credentials_cache self)) then true
  else
    match _credentials_expiry self with
    | None => true
    | Some expiry => (utcnow >=? expiry - seconds (refresh_buffer self))%Z
    end.

Definition clear_cache (self : state) : state :=
  {| aws_role_arn := aws_role_arn self;
     workload_identity_pool := workload_identity_pool self;
     provider_id := provider_id self;
     region := region self;
     _credentials_cache := None;
     _credentials_expiry := None;
     _google_credentials := None;
     session_duration := session_duration self;
     refresh_buffer := refresh_buffer self |}.

Definition with_handle (self : state) (h : GCP.handle) : state :=
  {| aws_role_arn := aws_role_arn self;
     workload_identity_pool := workload_identity_pool self;
     provider_id := provider_id self;
     region := region self;
     _credentials_cache := _credentials_cache self;
     _credentials_expiry := _credentials_expiry self;
     _google_credentials := Some h;
     session_duration := session_duration self;
     refresh_buffer := refresh_buffer self |}.

Definition with_cache (self : state) (c : gmap string string) : state :=
  {| aws_role_arn := aws_role_arn self;
     workload_identity_pool := workload_identity_pool self;
     provider_id := provider_id self;
     region := region self;
     _credentials_cache := Some c;
     _credentials_expiry := _credentials_expiry self;
     _google_credentials := _google_credentials self;
     session_duration := session_duration self;
     refresh_buffer := refresh_buffer self |}.

Definition with_expiry (self : state) (e : Z) : state :=
  {| aws_role_arn := aws_role_arn self;
     workload_identity_pool := workload_identity_pool self;
     provider_id := provider_id self;
     region := region self;
     _credentials_cache := _credentials_cache self;
     _credentials_expiry := Some e;
     _google_credentials := _google_credentials self;
     session_duration := session_duration self;
     refresh_buffer := refresh_buffer self |}.

(** Lines 54-60. *)
Definition ensure_handle (self : state) (w : env) : result GCP.handle :=
  match _google_credentials self with
  | Some h => Ok h
  | None =>
      match construct w with
      | Some e => Raise e
      | None => Ok {| GCP.audience := provider_id self;
                      GCP.token_url := workload_identity_pool self;
                      GCP.token := None |}
      end
  end.

(** Lines 74-78. *)
Definition credentials_dict (c : sts_credentials) : gmap string string :=
  <["aws_session_token" := SessionToken c]>
    (<["aws_secret_access_key" := SecretAccessKey c]>
       (<["aws_access_key_id" := AccessKeyId c]> ∅)).

(** Lines 81-84: printing with [%Y-%m-%d %H:%M:%S] and parsing back drops
    the microseconds and the timezone. *)
Definition parse_expiration (t : Z) : Z := (t / 1000000 * 1000000)%Z.

Definition refresh_error (e : exn) : exn :=
  Exception_ (Fmt "Failed to refresh AWS credentials: " e).

Definition auth_error (e : exn) : exn :=
  HTTPException 500 (Fmt "Failed to get AWS credentials: " e).

Definition _refresh_credentials (self : state) (w : env)
  : result unit * state * list event :=
  match ensure_handle self w with
  | Raise e => (Raise (refresh_error e), clear_cache self, [])
  | Ok h =>
      let self1 := with_handle self h in
      let call1 := EvIdentityRefresh (GCP.audience h) (GCP.token_url h) in
      match google_refresh w with
      | Raise e => (Raise (refresh_error e), clear_cache self1, [call1])
      | Ok tok =>
          let h' := GCP.refreshed h tok in
          let self2 := with_handle self1 h' in
          match sts_client w with
          | Some e => (Raise (refresh_error e), clear_cache self2, [call1])
          | None =>
              let call2 := EvAssumeRole (aws_role_arn self2) (utcnow_session w)
                             (GCP.token h') (session_duration self2) in
              match assume_role w with
              | Raise e =>
                  (Raise (refresh_error e), clear_cache self2, [call1; call2])
              | Ok c =>
                  let self3 := with_cache self2 (credentials_dict c) in
                  let self4 := with_expiry self3 (parse_expiration (Expiration c)) in
                  (Ok tt, self4, [call1; call2])
              end
          end
      end
  end.

Definition get_credentials (self : state) (w : env)
  : result (option (gmap string string)) * state * list event :=
  if _should_refresh_credentials self (utcnow_check w) then
    match _refresh_credentials self w with
    | (Ok _, self', tr) => (Ok (_credentials_cache self'), self', tr)
    | (Raise e, self', tr) => (Raise (auth_error e), clear_cache self', tr)
    end
  else (Ok (_credentials_cache self), self, []).

End AWS.

(** ** services/gcp_gateway.py *)

Module Gateway.

(** The attributes of a [GCPGatewayClient]. *)
Record state := {
  token_manager : GCP.state;
  gateway_url : string;
  timeout : Z
}.

(** An [httpx.Response]: its status code and what [.json()] gives. *)
Record response := {
  status_code : Z;
  json : result pyval
}.

(** What the outside world answers during one [validate_request]: the
    answers to the token manager, and the outcome of [client.post]. *)
Record env := {
  token_env : GCP.env;
  post : result response
}.

Definition with_token_manager (self : state) (tm : GCP.state) : state :=
  {| token_manager := tm; gateway_url := gateway_url self; timeout := timeout self |}.

(** [response.raise_for_status()]: an [httpx.HTTPStatusError], a subclass
    of [httpx.HTTPError], for every status outside 2xx. *)
Definition raise_for_status (r : response) : result unit :=
  if (200 <=? status_code r)%Z && (status_code r <=? 299)%Z then Ok tt
  else Raise (HTTPError (Text "HTTPStatusError")).

(** Lines 22-39: the body of the [try]. *)
Definition validate_body (self : state) (payload : pyval) (w : env)
  : result pyval * state * list event :=
  match GCP.get_authorization_headers (token_manager self) (token_env w) with
  | (Raise e, tm, tr) => (Raise e, with_token_manager self tm, tr)
  | (Ok headers, tm, tr) =>
      let self' := with_token_manager self tm in
      let tr' := tr ++ [EvGatewayPost (gateway_url self) payload headers] in
      match post w with
      | Raise e => (Raise e, self', tr')
      | Ok response =>
          match raise_for_status response with
          | Raise e => (Raise e, self', tr')
          | Ok _ =>
              match json response with
              | Raise e => (Raise e, self', tr')
              | Ok validation_response =>
                  match py_get validation_response "status" with
                  | Raise e => (Raise e, self', tr')
                  | Ok status =>
                      if negb (is_approved status) then
                        (Raise (HTTPException 403
                                  (Text "Request not approved by GCP Gateway")),
                         self', tr')
                      else (Ok validation_response, self', tr')
                  end
              end
          end
      end
  end.

(** Lines 41-50: the two handlers. The second one catches every
    [Exception], the [HTTPException] of line 34 included. *)
Definition handle (e : exn) : exn :=
  match e with
  | HTTPError _ => HTTPException 500 (Fmt "GCP Gateway request failed: " e)
  | _ => HTTPException 500 (Fmt "Validation error: " e)
  end.

Definition validate_request (self : state) (payload : pyval) (w : env)
  : result pyval * state * list event :=
  match validate_body self payload w with
  | (Ok v, self', tr) => (Ok v, self', tr)
  | (Raise e, self', tr) => (Raise (handle e), self', tr)
  end.

End Gateway.

(** ** The request and client objects shared by both applications *)

Module Model.

(** [RequestMetadata], [BedrockAPI] and [ProxyRequest] of proxyapp.py
    (main.py imports classes of the same names). *)
Record RequestMetadata := {
  requestId : option string;
  timestamp : option Z;
  sourceIp : option string;
  userAgent : option string
}.

Record BedrockAPI := {
  operation : string;
  request_payload : gmap string pyval;
  metadata : option RequestMetadata
}.

Record ProxyRequest := {
  bedrock_api : BedrockAPI
}.

Definition opt_pystr (o : option string) : pyval :=
  match o with Some s => PStr s | None => PNone end.

(** [metadata.dict()] *)
Definition metadata_dict (m : RequestMetadata) : gmap string pyval :=
  <["userAgent" := opt_pystr (userAgent m)]>
    (<["sourceIp" := opt_pystr (sourceIp m)]>
       (<["timestamp" := match timestamp m with
                         | Some t => PDatetime t
                         | None => PNone
                         end]>
          (<["requestId" := opt_pystr (requestId m)]> ∅))).

(** [request.dict()] *)
Definition request_dict (r : ProxyRequest) : pyval :=
  let api := bedrock_api r in
  PDict (<["bedrock_api" :=
             PDict (<["metadata" := match metadata api with
                                    | Some m => PDict (metadata_dict m)
                                    | None => PNone
                                    end]>
                      (<["request_payload" := PDict (request_payload api)]>
                         (<["operation" := PStr (operation api)]> ∅)))]> ∅).

(** A boto3 client: the service it talks to and how it was configured. *)
Record client := {
  service : string;
  client_region : string;
  client_credentials : option (gmap string string)
}.

(** What [getattr(client, name)] finds. *)
Inductive attribute :=
| NoAttribute
| Method
| NotCallable.

(** The keys of [bedrock_services] and of [Config.BEDROCK_SERVICES]: the
    runtime, agent and default services of section 4.5. *)
Inductive service_key :=
| runtime
| agent
| default_service.

End Model.

Import Model.

(** ** services/bedrock_client.py *)

Module Bedrock.

(** The attributes of a [BedrockClientManager]; [_instances] is the class
    attribute. The methods are modelled on a manager that exists: the
    constructor reads [os.getenv] in a module that does not import [os]. *)
Record state := {
  credentials_manager : AWS.state;
  aws_region : string;
  _instances : gmap string client
}.

(** The answers to the credentials manager, and whether [boto3.client]
    raises. *)
Record env := {
  credentials_env : AWS.env;
  boto3_client : option exn
}.

Definition bedrock_services (key : service_key) : string :=
  match key with
  | runtime => "bedrock-runtime"
  | agent => "bedrock-agent"
  | default_service => "bedrock"
  end.

Definition _determine_service (operation : string) : string :=
  let operation_lower := lower operation in
  if startswith operation_lower "invoke" || startswith operation_lower "stream"
  then bedrock_services runtime
  else if startswith operation_lower "agent" then bedrock_services agent
  else bedrock_services default_service.

Definition with_credentials_manager (self : state) (cm : AWS.state) : state :=
  {| credentials_manager := cm; aws_region := aws_region self;
     _instances := _instances self |}.

Definition with_instance (self : state) (key : string) (c : client) : state :=
  {| credentials_manager := credentials_manager self;
     aws_region := aws_region self;
     _instances := <[key := c]> (_instances self) |}.

(** Lines 25-29: the dict handed to [Config]. *)
Definition config_credentials (credentials : option (gmap string string))
  : result (gmap string string) :=
  match py_getitem credentials "AccessKeyId" with
  | Raise e => Raise e
  | Ok access_key =>
      match py_getitem credentials "SecretAccessKey" with
      | Raise e => Raise e
      | Ok secret_key =>
          match py_getitem credentials "SessionToken" with
          | Raise e => Raise e
          | Ok session_token =>
              Ok (<["aws_session_token" := session_token]>
                    (<["aws_secret_access_key" := secret_key]>
                       (<["aws_access_key_id" := access_key]> ∅)))
          end
      end
  end.

Definition get_client (self : state) (operation : string) (w : env)
  : result client * state * list event :=
  let service := _determine_service operation in
  match AWS.get_credentials (credentials_manager self) (credentials_env w) with
  | (Raise e, cm, tr) => (Raise e, with_credentials_manager self cm, tr)
  | (Ok credentials, cm, tr) =>
      let self' := with_credentials_manager self cm in
      match config_credentials credentials with
      | Raise e => (Raise e, self', tr)
      | Ok creds =>
          match boto3_client w with
          | Some e => (Raise e, self', tr)
          | None =>
              let c := {| service := service; client_region := aws_region self;
                          client_credentials := Some creds |} in
              (Ok c, with_instance self' service c,
               tr ++ [EvClientConstruct service (aws_region self) (Some creds)])
          end
      end
  end.

End Bedrock.

(** ** main.py *)

Module Main.

(** Modelled from the spec: models/response_models.py is not among the
    sources; a [ProxyResponse] has the three fields of the success reply
    [{status, operation, response}] of the inbound interface. *)
Record ProxyResponse := {
  status : string;
  response_operation : string;
  response : pyval
}.

(** The module-level objects. [credentials_manager] is the object held by
    [bedrock_client_manager]. *)
Record state := {
  bedrock_client_manager : Bedrock.state;
  gcp_gateway : Gateway.state
}.

(** What the outside world answers during one [predict]. *)
Record env := {
  gateway_env : Gateway.env;
  client_env : Bedrock.env;
  getattr_client : client → string → attribute;
  call : result pyval
}.

Definition with_gateway (self : state) (g : Gateway.state) : state :=
  {| bedrock_client_manager := bedrock_client_manager self; gcp_gateway := g |}.

Definition with_manager (self : state) (m : Bedrock.state) : state :=
  {| bedrock_client_manager := m; gcp_gateway := gcp_gateway self |}.

(** Lines 29-30: look the method up, then call it. *)
Definition call_method (w : env) (c : client) (name : string)
                       (kwargs : gmap string pyval)
  : result pyval * list event :=
  match getattr_client w c name with
  | NoAttribute => (Raise (AttributeError name), [])
  | NotCallable => (Raise (TypeError "object is not callable"), [])
  | Method => (call w, [EvBackendCall (service c) name kwargs])
  end.

(** Lines 18-36: the body of the [try]. *)
Definition predict_body (self : state) (request : ProxyRequest) (w : env)
  : result ProxyResponse * state * list event :=
  let api := bedrock_api request in
  match Gateway.validate_request (gcp_gateway self) (request_dict request)
                                 (gateway_env w) with
  | (Raise e, g, tr) => (Raise e, with_gateway self g, tr)
  | (Ok gateway_response, g, tr) =>
      let self1 := with_gateway self g in
      match py_get gateway_response "status" with
      | Raise e => (Raise e, self1, tr)
      | Ok verdict =>
          if negb (is_approved verdict) then
            (Raise (HTTPException 403 (Text "Request not approved by GCP Gateway")),
             self1, tr)
          else
            match Bedrock.get_client (bedrock_client_manager self1)
                                     (operation api) (client_env w) with
            | (Raise e, m, tr2) => (Raise e, with_manager self1 m, tr ++ tr2)
            | (Ok c, m, tr2) =>
                let self2 := with_manager self1 m in
                match call_method w c (lower (operation api))
                                  (request_payload api) with
                | (Raise e, tr3) => (Raise e, self2, tr ++ tr2 ++ tr3)
                | (Ok r, tr3) =>
                    (Ok {| status := "success";
                           response_operation := operation api;
                           response := r |},
                     self2, tr ++ tr2 ++ tr3)
                end
            end
      end
  end.

(** Lines 37-41: every [Exception] of the body, the [HTTPException] of
    line 22 included, leaves as a 500. *)
Definition predict (self : state) (request : ProxyRequest) (w : env)
  : result ProxyResponse * state * list event :=
  match predict_body self request w with
  | (Ok r, self', tr) => (Ok r, self', tr)
  | (Raise e, self', tr) =>
      (Raise (HTTPException 500 (Fmt "Error processing request: " e)), self', tr)
  end.

End Main.

(** ** proxyapp.py *)

Module ProxyApp.

(** [Config] and the class attribute [BedrockClientManager._instances]. *)
Record state := {
  GCP_GATEWAY_URL : string;
  AWS_REGION : string;
  _instances : gmap string client
}.

(** What the outside world answers during one [predict]: whether entering
    the shared [http_client] raises, the outcome of the [post], whether
    [boto3.client] raises, what [getattr] finds on a client and what the
    called method does. *)
Record env := {
  enter_client : option exn;
  post : result Gateway.response;
  boto3_client : option exn;
  getattr_client : client → string → attribute;
  call : result pyval
}.

Definition BEDROCK_SERVICES (key : service_key) : string :=
  match key with
  | runtime => "bedrock-runtime"
  | agent => "bedrock-agent"
  | default_service => "bedrock"
  end.

Definition _determine_service (operation : string) : string :=
  let operation_lower := lower operation in
  if startswith operation_lower "invoke" || startswith operation_lower "stream"
  then BEDROCK_SERVICES runtime
  else if startswith operation_lower "agent" then BEDROCK_SERVICES agent
  else BEDROCK_SERVICES default_service.

Definition with_instance (self : state) (key : string) (c : client) : state :=
  {| GCP_GATEWAY_URL := GCP_GATEWAY_URL self; AWS_REGION := AWS_REGION self;
     _instances := <[key := c]> (_instances self) |}.

Definition get_client (self : state) (operation : string) (w : env)
  : result client * state * list event :=
  let service := _determine_service operation in
  match _instances self !! service with
  | Some c => (Ok c, self, [])
  | None =>
      match boto3_client w with
      | Some e => (Raise e, self, [])
      | None =>
          let c := {| service := service; client_region := AWS_REGION self;
                      client_credentials := None |} in
          (Ok c, with_instance self service c,
           [EvClientConstruct service (AWS_REGION self) None])
      end
  end.

Definition prepare_gcp_request (request : ProxyRequest) : pyval :=
  let api := bedrock_api request in
  PDict (<["metadata" := match metadata api with
                         | Some m => PDict (metadata_dict m)
                         | None => PDict ∅
                         end]>
           (<["payload" := PDict (request_payload api)]>
              (<["operation" := PStr (operation api)]> ∅))).

(** Lines 130-137: the body of the [try] of [forward_to_gcp]. *)
Definition forward_body (self : state) (payload : pyval) (w : env)
  : result pyval * list event :=
  match enter_client w with
  | Some e => (Raise e, [])
  | None =>
      let tr := [EvGatewayPost (GCP_GATEWAY_URL self) payload
                   (<["Content-Type" := "application/json"]> ∅)] in
      match post w with
      | Raise e => (Raise e, tr)
      | Ok response =>
          match Gateway.raise_for_status response with
          | Raise e => (Raise e, tr)
          | Ok _ => (Gateway.json response, tr)
          end
      end
  end.

Definition forward_to_gcp (self : state) (payload : pyval) (w : env)
  : result pyval * list event :=
  match forward_body self payload w with
  | (Raise (HTTPError why), tr) =>
      (Raise (HTTPException 502
                (Fmt "Error communicating with GCP Gateway: " (HTTPError why))),
       tr)
  | other => other
  end.

(** Lines 151-152. [c.isupper()] and [c.lower()] are Python's on the
    ASCII characters; a character outside ASCII is kept as it is, where
    Python follows Unicode (['É'] gives [_é]). What is proved of the
    shape of the derived name is stated for ASCII operation names
    ([Names.is_ascii]). *)
Fixpoint snake_pieces (s : string) : string :=
  match s with
  | EmptyString => EmptyString
  | String c r =>
      if isupper c then String "_" (String (lower_char c) (snake_pieces r))
      else String (lower_char c) (snake_pieces r)
  end.

Definition snake_case (operation : string) : string :=
  lstrip_underscore (snake_pieces operation).

(** Lines 187-190: one value of a mapping. *)
Definition clean_value (value : pyval) : result pyval :=
  match value with
  | PBytes b | PByteArray b =>
      match decode_utf8 b with
      | Ok s => Ok (PStr s)
      | Raise e => Raise e
      end
  | _ => Ok value
  end.

(** Lines 185-190: one turn of the loop. *)
Definition clean_entry (key : string) (value : pyval)
                       (acc : result (gmap string pyval))
  : result (gmap string pyval) :=
  match acc with
  | Raise e => Raise e
  | Ok response_dict =>
      match clean_value value with
      | Ok v => Ok (<[key := v]> response_dict)
      | Raise e => Raise e
      end
  end.

Definition clean_response (response : pyval) : result pyval :=
  match response with
  | PBytes b | PByteArray b =>
      match decode_utf8 b with
      | Ok s => Ok (PDict (<["body" := PStr s]> ∅))
      | Raise e => Raise e
      end
  | PDict d =>
      match map_fold clean_entry (Ok ∅) d with
      | Ok response_dict => Ok (PDict response_dict)
      | Raise e => Raise e
      end
  | _ => Ok response
  end.

(** Lines 147-165: the body of the [try] of [call_bedrock_service]. *)
Definition call_body (self : state) (api : BedrockAPI) (w : env)
  : result pyval * state * list event :=
  match get_client self (operation api) w with
  | (Raise e, self', tr) => (Raise e, self', tr)
  | (Ok c, self', tr) =>
      let operation_name := snake_case (operation api) in
      match getattr_client w c operation_name with
      | NoAttribute => (Raise (AttributeError operation_name), self', tr)
      | NotCallable => (Raise (TypeError "object is not callable"), self', tr)
      | Method =>
          let tr' := tr ++ [EvBackendCall (service c) operation_name
                              (request_payload api)] in
          match call w with
          | Raise e => (Raise e, self', tr')
          | Ok r =>
              match clean_response r with
              | Raise e => (Raise e, self', tr')
              | Ok cleaned =>
                  (Ok (PDict (<["response" := cleaned]>
                                (<["operation" := PStr (operation api)]>
                                   (<["status" := PStr "success"]> ∅)))),
                   self', tr')
              end
          end
      end
  end.

(** Lines 166-175: the two handlers. *)
Definition call_bedrock_service (self : state) (api : BedrockAPI) (w : env)
  : result pyval * state * list event :=
  match call_body self api w with
  | (Ok r, self', tr) => (Ok r, self', tr)
  | (Raise (AttributeError _), self', tr) =>
      (Raise (HTTPException 400
                (Text ("Invalid Bedrock operation: " +:+ operation api))),
       self', tr)
  | (Raise e, self', tr) =>
      (Raise (HTTPException 500 (Fmt "Error calling Bedrock service: " e)),
       self', tr)
  end.

(** Lines 97-111: the body of the [try] of [predict]. *)
Definition predict_body (self : state) (request : ProxyRequest) (w : env)
  : result pyval * state * list event :=
  let gcp_payload := prepare_gcp_request request in
  match forward_to_gcp self gcp_payload w with
  | (Raise e, tr) => (Raise e, self, tr)
  | (Ok gateway_response, tr) =>
      match py_get gateway_response "status" with
      | Raise e => (Raise e, self, tr)
      | Ok verdict =>
          if is_approved verdict then
            match call_bedrock_service self (bedrock_api request) w with
            | (r, self', tr2) => (r, self', tr ++ tr2)
            end
          else
            (Raise (HTTPException 403 (Text "Request not approved by GCP Gateway")),
             self, tr)
      end
  end.

(** Lines 113-117: every [Exception] of the body, the [HTTPException]s of
    lines 108 and 167 included, leaves as a 500. *)
Definition predict (self : state) (request : ProxyRequest) (w : env)
  : result pyval * state * list event :=
  match predict_body self request w with
  | (Ok r, self', tr) => (Ok r, self', tr)
  | (Raise e, self', tr) =>
      (Raise (HTTPException 500 (Fmt "Error processing request: " e)), self', tr)
  end.

End ProxyApp.

(** ** The specification's own wording, and runs of several operations *)

Module Spec.

(** *** Section 4.5: the ordered rules of [resolveService] *)

Definition rules : list (list string * service_key) :=
  [ (["invoke"; "stream"], runtime);
    (["agent"], agent) ].

(** Case-insensitive prefix match. *)
Definition prefix_ci (p operationName : string) : bool :=
  startswith (lower operationName) (lower p).

(** First match wins; no match gives the default service. *)
Fixpoint first_match (rs : list (list string * service_key))
                     (operationName : string) : service_key :=
  match rs with
  | [] => default_service
  | (prefixes, key) :: rest =>
      if existsb (λ p, prefix_ci p operationName) prefixes then key
      else first_match rest operationName
  end.

Definition resolveService (operationName : string) : service_key :=
  first_match rules operationName.

Definition islower (c : ascii) : bool :=
  let n := N_of_ascii c in (97 <=? n)%N && (n <=? 122)%N.

Definition upper_char (c : ascii) : ascii :=
  if islower c then ascii_of_N (N_of_ascii c - 32) else c.

Fixpoint upper (s : string) : string :=
  match s with
  | EmptyString => EmptyString
  | String c r => String (upper_char c) (upper r)
  end.

(** *** Section 4.1: the validity check of the credential-set cache *)

Definition credentials_valid (self : AWS.state) (utcnow : Z) : bool :=
  negb (AWS._should_refresh_credentials self utcnow).

(** *** Runs: several calls in a row on one manager *)

Fixpoint get_token_seq (self : GCP.state) (ws : list GCP.env)
  : list (result (option string)) * GCP.state * list event :=
  match ws with
  | [] => ([], self, [])
  | w :: ws' =>
      match GCP.get_token self w with
      | (r, self1, tr1) =>
          match get_token_seq self1 ws' with
          | (rs, self2, tr2) => (r :: rs, self2, tr1 ++ tr2)
          end
      end
  end.

Fixpoint get_credentials_seq (self : AWS.state) (ws : list AWS.env)
  : list (result (option (gmap string string))) * AWS.state * list event :=
  match ws with
  | [] => ([], self, [])
  | w :: ws' =>
      match AWS.get_credentials self w with
      | (r, self1, tr1) =>
          match get_credentials_seq self1 ws' with
          | (rs, self2, tr2) => (r :: rs, self2, tr1 ++ tr2)
          end
      end
  end.

(** The public operations of a token manager, and of a credentials
    manager, that touch the cache. *)
Inductive gcp_op :=
| GetToken (w : GCP.env)
| GetAuthorizationHeaders (w : GCP.env)
| ClearToken.

Definition gcp_step (self : GCP.state) (op : gcp_op) : GCP.state :=
  match op with
  | GetToken w => (GCP.get_token self w).1.2
  | GetAuthorizationHeaders w => (GCP.get_authorization_headers self w).1.2
  | ClearToken => GCP.clear_cache self
  end.

Definition gcp_run (self : GCP.state) (ops : list gcp_op) : GCP.state :=
  foldl gcp_step self ops.

Inductive aws_op :=
| GetCredentials (w : AWS.env)
| RefreshCredentials (w : AWS.env)
| ClearCredentials.

Definition aws_step (self : AWS.state) (op : aws_op) : AWS.state :=
  match op with
  | GetCredentials w => (AWS.get_credentials self w).1.2
  | RefreshCredentials w => (AWS._refresh_credentials self w).1.2
  | ClearCredentials => AWS.clear_cache self
  end.

Definition aws_run (self : AWS.state) (ops : list aws_op) : AWS.state :=
  foldl aws_step self ops.

(** The identity provider and STS hand out non-empty strings. *)
Definition gcp_nonempty (op : gcp_op) : Prop :=
  match op with
  | GetToken w | GetAuthorizationHeaders w =>
      ∀ tok, GCP.refresh w = Ok tok → tok ≠ ""
  | ClearToken => True
  end.

Definition sts_nonempty (c : AWS.sts_credentials) : Prop :=
  AWS.AccessKeyId c ≠ "" ∧ AWS.SecretAccessKey c ≠ "" ∧ AWS.SessionToken c ≠ "".

Definition aws_nonempty (op : aws_op) : Prop :=
  match op with
  | GetCredentials w | RefreshCredentials w =>
      ∀ c, AWS.assume_role w = Ok c → sts_nonempty c
  | ClearCredentials => True
  end.

(** The two caches as the data model of section 3 sees them. *)
Definition token_nonempty (self : GCP.state) : Prop :=
  ∃ tok, GCP.token_cache self = Some tok ∧ tok ≠ "".

Definition triple_nonempty (self : AWS.state) : Prop :=
  ∃ c, AWS._credentials_cache self = Some (AWS.credentials_dict c)
       ∧ sts_nonempty c.

(** The value and its expiry move together: one operation leaves both as
    they were, clears both, or installs both from one reply. *)
Definition gcp_together (op : gcp_op) (before after : GCP.state) : Prop :=
  (GCP.token_cache after = GCP.token_cache before
   ∧ GCP.token_expiry after = GCP.token_expiry before)
  ∨ (GCP.token_cache after = None ∧ GCP.token_expiry after = None)
  ∨ (∃ w tok, (op = GetToken w ∨ op = GetAuthorizationHeaders w)
       ∧ GCP.refresh w = Ok tok
       ∧ GCP.token_cache after = Some tok
       ∧ GCP.token_expiry after = Some (GCP.now_set w + seconds 3600)%Z).

Definition aws_together (op : aws_op) (before after : AWS.state) : Prop :=
  (AWS._credentials_cache after = AWS._credentials_cache before
   ∧ AWS._credentials_expiry after = AWS._credentials_expiry before)
  ∨ (AWS._credentials_cache after = None ∧ AWS._credentials_expiry after = None)
  ∨ (∃ w c, (op = GetCredentials w ∨ op = RefreshCredentials w)
       ∧ AWS.assume_role w = Ok c
       ∧ AWS._credentials_cache after = Some (AWS.credentials_dict c)
       ∧ AWS._credentials_expiry after
         = Some (AWS.parse_expiration (AWS.Expiration c))).

(** What makes a refresh fail: the first exception on the refresh path. *)
Definition gcp_refresh_failure (self : GCP.state) (w : GCP.env) : option exn :=
  match GCP.ensure_handle self w with
  | Raise e => Some e
  | Ok _ => match GCP.refresh w with Raise e => Some e | Ok _ => None end
  end.

Definition aws_refresh_failure (self : AWS.state) (w : AWS.env) : option exn :=
  match AWS.ensure_handle self w with
  | Raise e => Some e
  | Ok _ =>
      match AWS.google_refresh w with
      | Raise e => Some e
      | Ok _ =>
          match AWS.sts_client w with
          | Some e => Some e
          | None =>
              match AWS.assume_role w with Raise e => Some e | Ok _ => None end
          end
      end
  end.

(** *** Section 4.5: [getClient]

    The claim at one call that finds no client cached: the call hands out
    a client configured with credentials. *)
Definition client_built_with_credentials
    (self : ProxyApp.state) (operationName : string) (w : ProxyApp.env) : Prop :=
  ∃ c self' tr,
    ProxyApp.get_client self operationName w = (Ok c, self', tr)
    ∧ ∃ credentials, client_credentials c = Some credentials.

(** A [BedrockClientManager] of services/bedrock_client.py with another
    content of [_instances]. *)
Definition with_instances (self : Bedrock.state) (instances : gmap string client)
  : Bedrock.state :=
  {| Bedrock.credentials_manager := Bedrock.credentials_manager self;
     Bedrock.aws_region := Bedrock.aws_region self;
     Bedrock._instances := instances |}.

(** [clean_response(clean_response(r))] *)
Definition clean_twice (r : pyval) : result pyval :=
  match ProxyApp.clean_response r with
  | Ok r' => ProxyApp.clean_response r'
  | Raise e => Raise e
  end.

End Spec.

Import Spec.

(** ** Traces, method names and runs of requests *)

Module Trace.

(** The construction of a Bedrock client: [boto3.client(service, ...)] of
    services/bedrock_client.py line 32 and of proxyapp.py line 63. The
    STS client of auth/aws_credentials.py line 65 is no event of the
    trace: it is built on every refresh that passes the identity
    refresh, and its failure is the answer [AWS.sts_client]. *)
Definition is_client_construct (e : event) : bool :=
  match e with
  | EvClientConstruct _ _ _ => true
  | _ => false
  end.

Definition is_gateway_post (e : event) : bool :=
  match e with
  | EvGatewayPost _ _ _ => true
  | _ => false
  end.

Definition is_assume_role (e : event) : bool :=
  match e with
  | EvAssumeRole _ _ _ _ => true
  | _ => false
  end.

End Trace.

Import Trace.

Module Names.

(** An operation name is any [str]; line 151 of proxyapp.py applies
    [str.isupper] and [str.lower], which follow Unicode, to each of its
    characters. On a name of ASCII characters (every byte below 128)
    they are [Py.isupper] and [Py.lower_char]; the statements about the
    shape of the derived method name are made for such names. *)
Definition is_ascii_char (c : ascii) : bool := (N_of_ascii c <? 128)%N.

Fixpoint is_ascii (s : string) : bool :=
  match s with
  | EmptyString => true
  | String c r => is_ascii_char c && is_ascii r
  end.

(** The words of a method name: [invoke_model] is [["invoke"; "model"]].
    A word starts with a lower-case letter and holds no upper-case one. *)
Fixpoint no_upper (s : string) : bool :=
  match s with
  | EmptyString => true
  | String c r => negb (isupper c) && no_upper r
  end.

Definition is_word (w : string) : bool :=
  match w with
  | EmptyString => false
  | String c r => islower c && no_upper r
  end.

Definition is_ascii_word (w : string) : bool := is_word w && is_ascii w.

Definition capitalize (w : string) : string :=
  match w with
  | EmptyString => EmptyString
  | String c r => String (upper_char c) r
  end.

(** [InvokeModel] *)
Fixpoint pascal (ws : list string) : string :=
  match ws with
  | [] => EmptyString
  | w :: r => capitalize w +:+ pascal r
  end.

(** [invoke_model] *)
Fixpoint snake (ws : list string) : string :=
  match ws with
  | [] => EmptyString
  | [w] => w
  | w :: r => w +:+ String "_" (snake r)
  end.

(** [_invoke_model]: what the comprehension of proxyapp.py builds before
    the leading underscore is stripped. *)
Fixpoint prefixed (ws : list string) : string :=
  match ws with
  | [] => EmptyString
  | w :: r => String "_" (w +:+ prefixed r)
  end.

(** The name does not start with an underscore. *)
Definition no_leading_underscore (s : string) : bool :=
  match s with
  | String "_" _ => false
  | _ => true
  end.

End Names.

Module Serve.

(** Requests served one after the other by the application of
    proxyapp.py, each with the answers of the outside world it meets. *)
Fixpoint proxyapp (self : ProxyApp.state)
                  (rs : list (ProxyRequest * ProxyApp.env))
  : list (result pyval) * ProxyApp.state * list event :=
  match rs with
  | [] => ([], self, [])
  | (request, w) :: rs' =>
      match ProxyApp.predict self request w with
      | (r, self1, tr1) =>
          match proxyapp self1 rs' with
          | (out, self2, tr2) => (r :: out, self2, tr1 ++ tr2)
          end
      end
  end.

(** The same for the application of main.py. *)
Fixpoint main (self : Main.state) (rs : list (ProxyRequest * Main.env))
  : list (result Main.ProxyResponse) * Main.state * list event :=
  match rs with
  | [] => ([], self, [])
  | (request, w) :: rs' =>
      match Main.predict self request w with
      | (r, self1, tr1) =>
          match main self1 rs' with
          | (out, self2, tr2) => (r :: out, self2, tr1 ++ tr2)
          end
      end
  end.

(** The gateway of one request approved it: it answered 2xx with a JSON
    object whose [status] is the string "approved". *)
Definition approved (post : result Gateway.response) : Prop :=
  ∃ resp d,
    post = Ok resp
    ∧ Gateway.raise_for_status resp = Ok tt
    ∧ Gateway.json resp = Ok (PDict d)
    ∧ d !! "status" = Some (PStr "approved").

(** The credential dicts that [_refresh_credentials] writes. *)
Definition cache_from_refresh (self : AWS.state) : Prop :=
  ∀ d, AWS._credentials_cache self = Some d →
       ∃ c, d = AWS.credentials_dict c.

End Serve.

Module Inv.

(** What one operation of a token manager keeps: the settings, and a
    handle that belongs to the cached token. *)
Definition gcp_handle_inv (self0 self : GCP.state) : Prop :=
  GCP.workload_identity_pool self = GCP.workload_identity_pool self0
  ∧ GCP.provider_id self = GCP.provider_id self0
  ∧ GCP.refresh_buffer self = GCP.refresh_buffer self0
  ∧ match GCP._credentials self with
    | Some h =>
        GCP.audience h = GCP.provider_id self0
        ∧ GCP.token_url h = GCP.workload_identity_pool self0
        ∧ is_Some (GCP.token h)
        ∧ GCP.token h = GCP.token_cache self
    | None => GCP.token_cache self = None
    end.

Definition aws_handle_inv (self0 self : AWS.state) : Prop :=
  AWS.aws_role_arn self = AWS.aws_role_arn self0
  ∧ AWS.workload_identity_pool self = AWS.workload_identity_pool self0
  ∧ AWS.provider_id self = AWS.provider_id self0
  ∧ AWS.region self = AWS.region self0
  ∧ AWS.session_duration self = AWS.session_duration self0
  ∧ AWS.refresh_buffer self = AWS.refresh_buffer self0
  ∧ match AWS._google_credentials self with
    | Some h =>
        GCP.audience h = AWS.provider_id self0
        ∧ GCP.token_url h = AWS.workload_identity_pool self0
        ∧ is_Some (GCP.token h)
        ∧ is_Some (AWS._credentials_cache self)
    | None => AWS._credentials_cache self = None
    end.

End Inv.

Module Gate.

(** The POST that proxyapp.py sends to the gateway for a request. *)
Definition post_event (self : ProxyApp.state) (request : ProxyRequest) : event :=
  EvGatewayPost (ProxyApp.GCP_GATEWAY_URL self)
    (ProxyApp.prepare_gcp_request request)
    (<["Content-Type" := "application/json"]> ∅).

(** The gateway let the request of proxyapp.py through: the shared client
    could be entered and the gateway approved. *)
Definition open (w : ProxyApp.env) : Prop :=
  ProxyApp.enter_client w = None ∧ Serve.approved (ProxyApp.post w).

(** The three service names. *)
Definition service_names : gset string :=
  {[ "bedrock-runtime"; "bedrock-agent"; "bedrock" ]}.

(** A client cache as [get_client] of proxyapp.py fills it: under each
    key the client of that service, for the configured region, without
    credentials. *)
Definition cache_wf (self : ProxyApp.state) : Prop :=
  ∀ key c, ProxyApp._instances self !! key = Some c →
    key ∈ service_names
    ∧ c = {| service := key; client_region := ProxyApp.AWS_REGION self;
             client_credentials := None |}.

End Gate.

(** ** Concrete managers, requests and worlds *)

Module Scenario.

Definition token_manager0 : GCP.state :=
  {| GCP.workload_identity_pool := "https://sts.googleapis.com/v1/token";
     GCP.provider_id := "//iam.googleapis.com/projects/1/providers/aws";
     GCP.token_cache := None;
     GCP.token_expiry := None;
     GCP._credentials := None;
     GCP.refresh_buffer := 300 |}.

(** The identity provider answers with the token [ya29.a0]; the clock reads
    0 at the check and 1 second when the token is stored. *)
Definition refresh_ok : GCP.env :=
  {| GCP.now_check := 0;
     GCP.construct := None;
     GCP.refresh := Ok "ya29.a0";
     GCP.now_set := seconds 1 |}.

(** A later call, at clock reading [t]. *)
Definition at_time (t : Z) : GCP.env :=
  {| GCP.now_check := t;
     GCP.construct := None;
     GCP.refresh := Ok "ya29.a1";
     GCP.now_set := t |}.

(** A later call, at clock reading [t], that the identity provider
    rejects. *)
Definition failing_at (t : Z) : GCP.env :=
  {| GCP.now_check := t;
     GCP.construct := None;
     GCP.refresh := Raise (Exception_ (Text "invalid_grant"));
     GCP.now_set := t |}.

(** The token manager after one successful refresh. *)
Definition token_manager1 : GCP.state := (GCP.get_token token_manager0 refresh_ok).1.2.

Definition credentials_manager0 : AWS.state :=
  {| AWS.aws_role_arn := "arn:aws:iam::123456789012:role/bedrock-proxy";
     AWS.workload_identity_pool := "https://sts.googleapis.com/v1/token";
     AWS.provider_id := "//iam.googleapis.com/projects/1/providers/aws";
     AWS.region := "us-east-1";
     AWS._credentials_cache := None;
     AWS._credentials_expiry := None;
     AWS._google_credentials := None;
     AWS.session_duration := 3600;
     AWS.refresh_buffer := 300 |}.

Definition triple : AWS.sts_credentials :=
  {| AWS.AccessKeyId := "ASIAEXAMPLE";
     AWS.SecretAccessKey := "wJalrXUtnFEMI";
     AWS.SessionToken := "FwoGZXIvYXdzEXAMPLE";
     AWS.Expiration := seconds 3601 + 250 |}.

Definition exchange_ok : AWS.env :=
  {| AWS.utcnow_check := 0;
     AWS.construct := None;
     AWS.google_refresh := Ok "ya29.a0";
     AWS.sts_client := None;
     AWS.utcnow_session := seconds 1;
     AWS.assume_role := Ok triple |}.

Definition exchange_fails : AWS.env :=
  {| AWS.utcnow_check := 0;
     AWS.construct := None;
     AWS.google_refresh := Ok "ya29.a0";
     AWS.sts_client := None;
     AWS.utcnow_session := seconds 1;
     AWS.assume_role := Raise (Exception_ (Text "AccessDenied")) |}.

Definition exchange_at (t : Z) : AWS.env :=
  {| AWS.utcnow_check := t;
     AWS.construct := None;
     AWS.google_refresh := Ok "ya29.a1";
     AWS.sts_client := None;
     AWS.utcnow_session := t;
     AWS.assume_role := Ok triple |}.

Definition credentials_manager1 : AWS.state :=
  (AWS.get_credentials credentials_manager0 exchange_ok).1.2.

(** The standalone application of proxyapp.py, before its first request. *)
Definition app0 : ProxyApp.state :=
  {| ProxyApp.GCP_GATEWAY_URL := "https://gateway.example/validate";
     ProxyApp.AWS_REGION := "us-east-1";
     ProxyApp._instances := ∅ |}.

Definition request (op : string) : ProxyRequest :=
  {| bedrock_api := {| operation := op;
                       request_payload := {["modelId" := PStr "titan"]};
                       metadata := None |} |}.

(** The gateway answers 200 with the verdict [{"status": s}]. *)
Definition verdict (s : string) : Gateway.response :=
  {| Gateway.status_code := 200;
     Gateway.json := Ok (PDict {["status" := PStr s]}) |}.

(** Of the methods of the clients only [invoke_model] of the runtime
    client is needed. *)
Definition boto3_methods (c : client) (name : string) : attribute :=
  if String.eqb (service c) "bedrock-runtime" && String.eqb name "invoke_model"
  then Method else NoAttribute.

Definition world (s : string) : ProxyApp.env :=
  {| ProxyApp.enter_client := None;
     ProxyApp.post := Ok (verdict s);
     ProxyApp.boto3_client := None;
     ProxyApp.getattr_client := boto3_methods;
     ProxyApp.call := Ok (PDict {["body" := PBytes [Byte.x6f; Byte.x6b]]}) |}.

(** The modular application of main.py, before its first request. *)
Definition gateway0 : Gateway.state :=
  {| Gateway.token_manager := token_manager0;
     Gateway.gateway_url := "https://gateway.example/validate";
     Gateway.timeout := 30 |}.

Definition manager0 : Bedrock.state :=
  {| Bedrock.credentials_manager := credentials_manager0;
     Bedrock.aws_region := "us-east-1";
     Bedrock._instances := ∅ |}.

Definition main0 : Main.state :=
  {| Main.bedrock_client_manager := manager0; Main.gcp_gateway := gateway0 |}.

Definition gateway_world (s : string) : Gateway.env :=
  {| Gateway.token_env := refresh_ok; Gateway.post := Ok (verdict s) |}.

Definition client_world : Bedrock.env :=
  {| Bedrock.credentials_env := exchange_ok; Bedrock.boto3_client := None |}.

Definition main_world (s : string) : Main.env :=
  {| Main.gateway_env := gateway_world s;
     Main.client_env := client_world;
     Main.getattr_client := boto3_methods;
     Main.call := Ok (PDict {["body" := PBytes [Byte.x6f; Byte.x6b]]}) |}.

End Scenario.

(** ** More worlds *)

Module Examples.

(** The identity provider rejects the refresh; the gateway would approve. *)
Definition gateway_down (t : Z) : Gateway.env :=
  {| Gateway.token_env := Scenario.failing_at t;
     Gateway.post := Ok (Scenario.verdict "approved") |}.

(** The gateway answers 503. *)
Definition bad_gateway : ProxyApp.env :=
  {| ProxyApp.enter_client := None;
     ProxyApp.post := Ok {| Gateway.status_code := 503; Gateway.json := Ok PNone |};
     ProxyApp.boto3_client := None;
     ProxyApp.getattr_client := Scenario.boto3_methods;
     ProxyApp.call := Ok PNone |}.

(** The gateway approves and [invoke_model] itself raises an
    [AttributeError]. *)
Definition backend_breaks : ProxyApp.env :=
  {| ProxyApp.enter_client := None;
     ProxyApp.post := Ok (Scenario.verdict "approved");
     ProxyApp.boto3_client := None;
     ProxyApp.getattr_client := Scenario.boto3_methods;
     ProxyApp.call := Raise (AttributeError "read") |}.

(** The identity provider answers with an empty token. *)
Definition empty_token : GCP.env :=
  {| GCP.now_check := 0;
     GCP.construct := None;
     GCP.refresh := Ok "";
     GCP.now_set := seconds 1 |}.

(** STS answers with a credential set whose session token is empty. *)
Definition empty_session_token : AWS.env :=
  {| AWS.utcnow_check := 0;
     AWS.construct := None;
     AWS.google_refresh := Ok "ya29.a0";
     AWS.sts_client := None;
     AWS.utcnow_session := seconds 1;
     AWS.assume_role :=
       Ok {| AWS.AccessKeyId := "ASIAEXAMPLE";
             AWS.SecretAccessKey := "wJalrXUtnFEMI";
             AWS.SessionToken := "";
             AWS.Expiration := seconds 3601 |} |}.

End Examples.

(** * Properties *)

(** ** Strings and truthiness *)

Lemma str_truthy_true (s : string) : str_truthy s = true ↔ s ≠ "".
Proof.
  unfold str_truthy. destruct (String.eqb_spec s ""); simpl; split; congruence.
Qed.

Lemma opt_str_truthy_true (o : option string) :
  opt_str_truthy o = true ↔ ∃ s, o = Some s ∧ s ≠ "".
Proof.
  destruct o as [s|]; simpl.
  - rewrite str_truthy_true. split; [eauto | intros (s' & [= <-] & H); done].
  - split; [done | intros (s & H & _); done].
Qed.

Lemma opt_dict_truthy_true {V} (o : option (gmap string V)) :
  opt_dict_truthy o = true ↔ ∃ d, o = Some d ∧ d ≠ ∅.
Proof.
  destruct o as [d|]; simpl.
  - rewrite negb_true_iff, bool_decide_eq_false.
    split; [eauto | intros (d' & [= <-] & H); done].
  - split; [done | intros (d & H & _); done].
Qed.

Lemma lower_char_upper_char (c : ascii) : lower_char (upper_char c) = lower_char c.
Proof. destruct c as [[] [] [] [] [] [] [] []]; reflexivity. Qed.

Lemma lower_char_idem (c : ascii) : lower_char (lower_char c) = lower_char c.
Proof. destruct c as [[] [] [] [] [] [] [] []]; reflexivity. Qed.

Lemma lower_upper (s : string) : lower (upper s) = lower s.
Proof. induction s as [|c s IH]; simpl; [done|]. by rewrite lower_char_upper_char, IH. Qed.

Lemma lower_idem (s : string) : lower (lower s) = lower s.
Proof. induction s as [|c s IH]; simpl; [done|]. by rewrite lower_char_idem, IH. Qed.

(** ** Service resolution *)

Lemma resolveService_unfold (op : string) :
  resolveService op =
    if startswith (lower op) "invoke" || startswith (lower op) "stream" then runtime
    else if startswith (lower op) "agent" then agent
    else default_service.
Proof.
  unfold resolveService, rules, first_match, existsb, prefix_ci.
  change (lower "invoke") with "invoke".
  change (lower "stream") with "stream".
  change (lower "agent") with "agent".
  by rewrite !orb_false_r.
Qed.

Lemma proxyapp_determine_service_spec (op : string) :
  ProxyApp._determine_service op = ProxyApp.BEDROCK_SERVICES (resolveService op).
Proof.
  rewrite resolveService_unfold. unfold ProxyApp._determine_service.
  by repeat case_match.
Qed.

Lemma bedrock_determine_service_spec (op : string) :
  Bedrock._determine_service op = Bedrock.bedrock_services (resolveService op).
Proof.
  rewrite resolveService_unfold. unfold Bedrock._determine_service.
  by repeat case_match.
Qed.

Lemma resolveService_case (op op' : string) :
  lower op = lower op' → resolveService op = resolveService op'.
Proof. intros H. by rewrite !resolveService_unfold, H. Qed.

(** C5. [_determine_service], in proxyapp.py and in
    services/bedrock_client.py alike, is the case-insensitive,
    first-match-wins prefix match over the ordered rules
    [{invoke, stream} -> runtime], [{agent} -> agent], otherwise default:
    it returns the service name of the key that the rules of section 4.5
    select; a name that starts with "invoke" or "stream" (in any case)
    goes to the runtime service whatever else it matches, one that does
    not but starts with "agent" goes to the agent service, every other
    name to the default service; names that differ only in the case of
    their letters resolve alike; and ["InvokeAgentSomething"] resolves to
    the runtime service, not to the agent service. *)
Theorem determine_service_first_match :
  (∀ op, ProxyApp._determine_service op
         = ProxyApp.BEDROCK_SERVICES (resolveService op))
  ∧ (∀ op, Bedrock._determine_service op
           = Bedrock.bedrock_services (resolveService op))
  ∧ (∀ op, prefix_ci "invoke" op = true ∨ prefix_ci "stream" op = true →
           ProxyApp._determine_service op = "bedrock-runtime"
           ∧ Bedrock._determine_service op = "bedrock-runtime")
  ∧ (∀ op, prefix_ci "invoke" op = false → prefix_ci "stream" op = false →
           prefix_ci "agent" op = true →
           ProxyApp._determine_service op = "bedrock-agent"
           ∧ Bedrock._determine_service op = "bedrock-agent")
  ∧ (∀ op, prefix_ci "invoke" op = false → prefix_ci "stream" op = false →
           prefix_ci "agent" op = false →
           ProxyApp._determine_service op = "bedrock"
           ∧ Bedrock._determine_service op = "bedrock")
  ∧ (∀ op op', lower op = lower op' →
               ProxyApp._determine_service op = ProxyApp._determine_service op'
               ∧ Bedrock._determine_service op = Bedrock._determine_service op')
  ∧ (∀ op, ProxyApp._determine_service (upper op) = ProxyApp._determine_service op
           ∧ Bedrock._determine_service (upper op) = Bedrock._determine_service op)
  ∧ resolveService "InvokeAgentSomething" = runtime
  ∧ ProxyApp._determine_service "InvokeAgentSomething" = "bedrock-runtime"
  ∧ Bedrock._determine_service "InvokeAgentSomething" = "bedrock-runtime"
  ∧ ProxyApp._determine_service "InvokeAgentSomething"
    ≠ ProxyApp.BEDROCK_SERVICES agent.
Proof.
  assert (∀ op op', lower op = lower op' →
            ProxyApp._determine_service op = ProxyApp._determine_service op'
            ∧ Bedrock._determine_service op = Bedrock._determine_service op')
    as Hcase.
  { intros op op' H. split.
    - by rewrite !proxyapp_determine_service_spec, (resolveService_case op op' H).
    - by rewrite !bedrock_determine_service_spec, (resolveService_case op op' H). }
  split_and!.
  - apply proxyapp_determine_service_spec.
  - apply bedrock_determine_service_spec.
  - intros op H.
    assert (resolveService op = runtime) as Hr.
    { rewrite resolveService_unfold. unfold prefix_ci in H.
      change (lower "invoke") with "invoke" in H.
      change (lower "stream") with "stream" in H.
      by destruct H as [-> | ->]; rewrite ?orb_true_r. }
    split.
    + by rewrite proxyapp_determine_service_spec, Hr.
    + by rewrite bedrock_determine_service_spec, Hr.
  - intros op H1 H2 H3.
    assert (resolveService op = agent) as Hr.
    { rewrite resolveService_unfold. unfold prefix_ci in *.
      change (lower "invoke") with "invoke" in H1.
      change (lower "stream") with "stream" in H2.
      change (lower "agent") with "agent" in H3.
      by rewrite H1, H2, H3. }
    split.
    + by rewrite proxyapp_determine_service_spec, Hr.
    + by rewrite bedrock_determine_service_spec, Hr.
  - intros op H1 H2 H3.
    assert (resolveService op = default_service) as Hr.
    { rewrite resolveService_unfold. unfold prefix_ci in *.
      change (lower "invoke") with "invoke" in H1.
      change (lower "stream") with "stream" in H2.
      change (lower "agent") with "agent" in H3.
      by rewrite H1, H2, H3. }
    split.
    + by rewrite proxyapp_determine_service_spec, Hr.
    + by rewrite bedrock_determine_service_spec, Hr.
  - exact Hcase.
  - intros op. apply Hcase, lower_upper.
  - reflexivity.
  - reflexivity.
  - reflexivity.
  - discriminate.
Qed.

Lemma determine_service_first_match_witness :
  (prefix_ci "invoke" "InvokeAgentSomething" = true
   ∨ prefix_ci "stream" "InvokeAgentSomething" = true)
  ∧ ProxyApp._determine_service "InvokeAgentSomething" = "bedrock-runtime"
  ∧ prefix_ci "agent" "AgentAlias" = true
  ∧ Bedrock._determine_service "AgentAlias" = "bedrock-agent"
  ∧ prefix_ci "agent" "ListFoundationModels" = false
  ∧ ProxyApp._determine_service "ListFoundationModels" = "bedrock"
  ∧ lower "InvokeModel" = lower "INVOKEMODEL"
  ∧ ProxyApp._determine_service "InvokeModel"
    = ProxyApp._determine_service "INVOKEMODEL".
Proof.
  destruct determine_service_first_match
    as (_ & _ & Hruntime & Hagent & Hdefault & Hcase & _).
  split_and!.
  - by left.
  - apply (Hruntime "InvokeAgentSomething"). by left.
  - reflexivity.
  - apply (Hagent "AgentAlias"); reflexivity.
  - reflexivity.
  - apply (Hdefault "ListFoundationModels"); reflexivity.
  - reflexivity.
  - apply (Hcase "InvokeModel" "INVOKEMODEL"). reflexivity.
Defined.

(** ** Response normalization *)

(** A cleaned value is text or was not binary to begin with: cleaning it
    again changes nothing. *)
Lemma clean_value_fixed (v v' : pyval) :
  ProxyApp.clean_value v = Ok v' → ProxyApp.clean_value v' = Ok v'.
Proof.
  destruct v; simpl; try (intros [= <-]; reflexivity);
    destruct (decode_utf8 _); intros [= <-]; reflexivity.
Qed.

(** What the loop leaves in [response_dict] holds cleaned values only. *)
Lemma clean_dict_values (d : gmap string pyval) :
  match map_fold ProxyApp.clean_entry (Ok ∅) d with
  | Ok d' => ∀ k v, d' !! k = Some v → ProxyApp.clean_value v = Ok v
  | Raise _ => True
  end.
Proof.
  apply (map_fold_weak_ind (λ r (_ : gmap string pyval),
    match r with
    | Ok d' => ∀ k v, d' !! k = Some v → ProxyApp.clean_value v = Ok v
    | Raise _ => True
    end)).
  - intros k v. by rewrite lookup_empty.
  - intros i x m [d'|e] _ IH; simpl; [|done].
    destruct (ProxyApp.clean_value x) as [x'|e] eqn:Hx; [|done].
    intros k v. rewrite lookup_insert. case_decide.
    + intros [= <-]. by eapply clean_value_fixed.
    + apply IH.
Qed.

(** On a mapping of cleaned values the loop rebuilds the mapping. *)
Lemma clean_dict_fixed (d : gmap string pyval) :
  (∀ k v, d !! k = Some v → ProxyApp.clean_value v = Ok v) →
  map_fold ProxyApp.clean_entry (Ok ∅) d = Ok d.
Proof.
  apply (map_fold_weak_ind (λ r (m : gmap string pyval),
    (∀ k v, m !! k = Some v → ProxyApp.clean_value v = Ok v) → r = Ok m)).
  - done.
  - intros i x m r Hi IH Hall.
    rewrite IH; simpl.
    + by rewrite (Hall i x) by apply lookup_insert_eq.
    + intros k v Hk. apply (Hall k v).
      rewrite lookup_insert_ne; [done|]. intros ->. congruence.
Qed.

(** The loop fails exactly when some binary value is not UTF-8, and
    otherwise decodes every binary value and keeps the others. *)
Lemma clean_dict_lookup (d d' : gmap string pyval) :
  map_fold ProxyApp.clean_entry (Ok ∅) d = Ok d' →
  ∀ k, d' !! k = match d !! k with
                 | Some v => match ProxyApp.clean_value v with
                             | Ok v' => Some v'
                             | Raise _ => None
                             end
                 | None => None
                 end.
Proof.
  revert d'.
  apply (map_fold_weak_ind (λ r (m : gmap string pyval),
    ∀ d', r = Ok d' →
    ∀ k, d' !! k = match m !! k with
                   | Some v => match ProxyApp.clean_value v with
                               | Ok v' => Some v'
                               | Raise _ => None
                               end
                   | None => None
                   end)).
  - intros d' [= <-] k. by rewrite !lookup_empty.
  - intros i x m [r|e] Hi IH d'; simpl; [|done].
    destruct (ProxyApp.clean_value x) as [x'|e] eqn:Hx; [|done].
    intros [= <-] k. rewrite !lookup_insert. case_decide.
    + by rewrite Hx.
    + by apply IH.
Qed.

Lemma clean_dict_body (s : string) :
  map_fold ProxyApp.clean_entry (Ok ∅) (<["body" := PStr s]> ∅) = Ok (<["body" := PStr s]> ∅).
Proof.
  apply clean_dict_fixed. intros k v.
  rewrite lookup_insert. case_decide; [by intros [= <-]|].
  by rewrite lookup_empty.
Qed.

Lemma clean_response_fixed (r r' : pyval) :
  ProxyApp.clean_response r = Ok r' → ProxyApp.clean_response r' = Ok r'.
Proof.
  destruct r; simpl; try (intros [= <-]; reflexivity).
  - destruct (decode_utf8 _); intros [= <-]; simpl.
    by rewrite clean_dict_body.
  - destruct (decode_utf8 _); intros [= <-]; simpl.
    by rewrite clean_dict_body.
  - pose proof (clean_dict_values d) as Hv.
    destruct (map_fold ProxyApp.clean_entry (Ok ∅) d) as [d'|e]; intros [= <-]; simpl.
    by rewrite clean_dict_fixed.
Qed.

(** C10. Response normalization is idempotent: cleaning a cleaned response
    gives the cleaned response again (and a response whose binary content
    is not UTF-8 raises both times). A binary payload becomes
    [{"body": text}], a fixed point; a mapping comes back with its binary
    entries decoded and the others kept, a fixed point; every other shape
    passes through unchanged. *)
Theorem clean_response_idempotent :
  (∀ r, clean_twice r = ProxyApp.clean_response r)
  ∧ (∀ r r', ProxyApp.clean_response r = Ok r' →
             ProxyApp.clean_response r' = Ok r')
  ∧ (∀ b s, decode_utf8 b = Ok s →
       ProxyApp.clean_response (PBytes b) = Ok (PDict {["body" := PStr s]})
       ∧ ProxyApp.clean_response (PByteArray b) = Ok (PDict {["body" := PStr s]})
       ∧ ProxyApp.clean_response (PDict {["body" := PStr s]})
         = Ok (PDict {["body" := PStr s]}))
  ∧ (∀ d d', ProxyApp.clean_response (PDict d) = Ok (PDict d') →
       (∀ k, d' !! k = (d !! k) ≫= λ v,
                match ProxyApp.clean_value v with
                | Ok v' => Some v'
                | Raise _ => None
                end)
       ∧ ProxyApp.clean_response (PDict d') = Ok (PDict d'))
  ∧ (∀ r, match r with
          | PBytes _ | PByteArray _ | PDict _ => True
          | _ => ProxyApp.clean_response r = Ok r
          end).
Proof.
  split_and!.
  - intros r. unfold clean_twice.
    destruct (ProxyApp.clean_response r) as [r'|e] eqn:Hr; [|done].
    by apply clean_response_fixed in Hr.
  - apply clean_response_fixed.
  - intros b s Hb. split_and!.
    + simpl. by rewrite Hb.
    + simpl. by rewrite Hb.
    + apply (clean_response_fixed (PBytes b)). simpl. by rewrite Hb.
  - intros d d' H. split.
    + intros k. simpl in H.
      destruct (map_fold _ _ d) as [d''|e] eqn:Hd; [|done].
      injection H as <-. rewrite (clean_dict_lookup d d'' Hd k).
      by destruct (d !! k).
    + by apply (clean_response_fixed (PDict d)).
  - by intros [].
Qed.

Lemma clean_response_idempotent_witness :
  decode_utf8 [Byte.x6f; Byte.x6b] = Ok "ok"
  ∧ ProxyApp.clean_response (PBytes [Byte.x6f; Byte.x6b])
    = Ok (PDict {["body" := PStr "ok"]})
  ∧ ProxyApp.clean_response (PDict {["body" := PStr "ok"]})
    = Ok (PDict {["body" := PStr "ok"]}).
Proof.
  destruct clean_response_idempotent as (_ & _ & Hbytes & _).
  split; [reflexivity|].
  destruct (Hbytes [Byte.x6f; Byte.x6b] "ok" eq_refl) as (H1 & _ & H3).
  exact (conj H1 H3).
Defined.

(** ** The identity-token cache *)

Lemma gcp_valid_iff (self : GCP.state) (now : Z) :
  GCP._is_token_valid self now = true ↔
  ∃ tok expiresAt,
    GCP.token_cache self = Some tok ∧ tok ≠ ""
    ∧ GCP.token_expiry self = Some expiresAt
    ∧ (now < expiresAt - seconds (GCP.refresh_buffer self))%Z.
Proof.
  unfold GCP._is_token_valid.
  destruct (opt_str_truthy (GCP.token_cache self)) eqn:Ht; simpl.
  - apply opt_str_truthy_true in Ht as (tok & Htok & Hne).
    destruct (GCP.token_expiry self) as [e|].
    + rewrite Z.ltb_lt. split.
      * intros H. by exists tok, e.
      * by intros (? & ? & _ & _ & [= <-] & H).
    + split; [done | by intros (? & ? & _ & _ & ? & _)].
  - split; [done|]. intros (tok & e & Htok & Hne & _).
    assert (opt_str_truthy (GCP.token_cache self) = true) as Ht'
      by (apply opt_str_truthy_true; eauto).
    congruence.
Qed.

Lemma gcp_get_token_valid (self : GCP.state) (w : GCP.env) :
  GCP._is_token_valid self (GCP.now_check w) = true →
  GCP.get_token self w = (Ok (GCP.token_cache self), self, []).
Proof. unfold GCP.get_token. by intros ->. Qed.

Lemma gcp_get_token_stale (self : GCP.state) (w : GCP.env) :
  GCP._is_token_valid self (GCP.now_check w) = false →
  GCP.get_token self w = GCP.refresh_token self w.
Proof. unfold GCP.get_token. by intros ->. Qed.

(** A refresh that succeeds installs the token, its expiry one hour after
    the clock reading of line 40, and keeps the handle. *)
Lemma gcp_refresh_ok (self self' : GCP.state) (w : GCP.env) o tr :
  GCP.refresh_token self w = (Ok o, self', tr) →
  ∃ h tok,
    GCP.ensure_handle self w = Ok h ∧ GCP.refresh w = Ok tok ∧ o = Some tok
    ∧ GCP.token_cache self' = Some tok
    ∧ GCP.token_expiry self' = Some (GCP.now_set w + seconds 3600)%Z
    ∧ GCP._credentials self' = Some (GCP.refreshed h tok)
    ∧ GCP.refresh_buffer self' = GCP.refresh_buffer self
    ∧ tr = [EvIdentityRefresh (GCP.audience h) (GCP.token_url h)].
Proof.
  unfold GCP.refresh_token.
  destruct (GCP.ensure_handle self w) as [h|e]; [|done].
  destruct (GCP.refresh w) as [tok|e]; [|done].
  intros [= <- <- <-]. by exists h, tok.
Qed.

(** A refresh that fails clears the three fields and raises a 500. *)
Lemma gcp_refresh_raise (self self' : GCP.state) (w : GCP.env) e' tr :
  GCP.refresh_token self w = (Raise e', self', tr) →
  ∃ e, gcp_refresh_failure self w = Some e
       ∧ e' = HTTPException 500 (Fmt "Failed to get Google Cloud token: " e)
       ∧ self' = GCP.clear_cache self.
Proof.
  unfold GCP.refresh_token, gcp_refresh_failure.
  destruct (GCP.ensure_handle self w) as [h|e].
  - destruct (GCP.refresh w) as [tok|e]; [done|].
    intros [= <- <- <-]. by exists e.
  - intros [= <- <- <-]. by exists e.
Qed.

Lemma gcp_refresh_failure_raise (self : GCP.state) (w : GCP.env) e :
  gcp_refresh_failure self w = Some e →
  ∃ tr, GCP.refresh_token self w
        = (Raise (HTTPException 500 (Fmt "Failed to get Google Cloud token: " e)),
           GCP.clear_cache self, tr)
        ∧ (tr = [] ∨ ∃ a u, tr = [EvIdentityRefresh a u]).
Proof.
  unfold GCP.refresh_token, gcp_refresh_failure.
  destruct (GCP.ensure_handle self w) as [h|e0].
  - destruct (GCP.refresh w) as [tok|e0]; [done|].
    intros [= <-]. eexists. split; [done|]. right. eauto.
  - intros [= <-]. eexists. split; [done|]. by left.
Qed.

(** A stale cache that still holds its handle: the next [get_token] goes
    to the identity provider. *)
Lemma gcp_stale_calls_provider (self : GCP.state) (w : GCP.env) h :
  GCP._credentials self = Some h →
  GCP._is_token_valid self (GCP.now_check w) = false →
  ∃ r self',
    GCP.get_token self w
    = (r, self', [EvIdentityRefresh (GCP.audience h) (GCP.token_url h)]).
Proof.
  intros Hh Hstale. rewrite gcp_get_token_stale by done.
  unfold GCP.refresh_token, GCP.ensure_handle. rewrite Hh.
  destruct (GCP.refresh w); eauto.
Qed.

(** ** The credential-set cache *)

Lemma credentials_dict_nonempty (c : AWS.sts_credentials) :
  AWS.credentials_dict c ≠ ∅.
Proof. unfold AWS.credentials_dict. apply insert_non_empty. Qed.

Lemma aws_valid_iff (self : AWS.state) (utcnow : Z) :
  credentials_valid self utcnow = true ↔
  ∃ d expiresAt,
    AWS._credentials_cache self = Some d ∧ d ≠ ∅
    ∧ AWS._credentials_expiry self = Some expiresAt
    ∧ (utcnow < expiresAt - seconds (AWS.refresh_buffer self))%Z.
Proof.
  unfold credentials_valid, AWS._should_refresh_credentials.
  destruct (opt_dict_truthy (AWS._credentials_cache self)) eqn:Ht; simpl.
  - apply opt_dict_truthy_true in Ht as (d & Hd & Hne).
    destruct (AWS._credentials_expiry self) as [e|]; simpl.
    + rewrite negb_true_iff, Z.geb_leb, Z.leb_gt. split.
      * intros H. by exists d, e.
      * by intros (? & ? & _ & _ & [= <-] & H).
    + split; [done | by intros (? & ? & _ & _ & ? & _)].
  - split; [done|]. intros (d & e & Hd & Hne & _).
    assert (opt_dict_truthy (AWS._credentials_cache self) = true) as Ht'
      by (apply opt_dict_truthy_true; eauto).
    congruence.
Qed.

Lemma aws_get_credentials_valid (self : AWS.state) (w : AWS.env) :
  AWS._should_refresh_credentials self (AWS.utcnow_check w) = false →
  AWS.get_credentials self w = (Ok (AWS._credentials_cache self), self, []).
Proof. unfold AWS.get_credentials. by intros ->. Qed.

Lemma aws_refresh_ok (self self' : AWS.state) (w : AWS.env) u tr :
  AWS._refresh_credentials self w = (Ok u, self', tr) →
  ∃ h tok c,
    AWS.ensure_handle self w = Ok h ∧ AWS.google_refresh w = Ok tok
    ∧ AWS.sts_client w = None ∧ AWS.assume_role w = Ok c
    ∧ AWS._credentials_cache self' = Some (AWS.credentials_dict c)
    ∧ AWS._credentials_expiry self'
      = Some (AWS.parse_expiration (AWS.Expiration c))
    ∧ AWS._google_credentials self' = Some (GCP.refreshed h tok)
    ∧ AWS.refresh_buffer self' = AWS.refresh_buffer self
    ∧ tr = [EvIdentityRefresh (GCP.audience h) (GCP.token_url h);
            EvAssumeRole (AWS.aws_role_arn self) (AWS.utcnow_session w)
                         (Some tok) (AWS.session_duration self)].
Proof.
  unfold AWS._refresh_credentials.
  destruct (AWS.ensure_handle self w) as [h|e]; [|done].
  destruct (AWS.google_refresh w) as [tok|e]; [|done].
  destruct (AWS.sts_client w) as [e|]; [done|].
  destruct (AWS.assume_role w) as [c|e]; [|done].
  intros [= <- <- <-]. by exists h, tok, c.
Qed.

Lemma aws_refresh_raise (self self' : AWS.state) (w : AWS.env) e' tr :
  AWS._refresh_credentials self w = (Raise e', self', tr) →
  ∃ e, aws_refresh_failure self w = Some e
       ∧ e' = Exception_ (Fmt "Failed to refresh AWS credentials: " e)
       ∧ self' = AWS.clear_cache self.
Proof.
  unfold AWS._refresh_credentials, aws_refresh_failure.
  destruct (AWS.ensure_handle self w) as [h|e].
  - destruct (AWS.google_refresh w) as [tok|e].
    + destruct (AWS.sts_client w) as [e|].
      * intros [= <- <- <-]. by exists e.
      * destruct (AWS.assume_role w) as [c|e]; [done|].
        intros [= <- <- <-]. by exists e.
    + intros [= <- <- <-]. by exists e.
  - intros [= <- <- <-]. by exists e.
Qed.

Lemma aws_refresh_failure_raise (self : AWS.state) (w : AWS.env) e :
  aws_refresh_failure self w = Some e →
  ∃ tr, AWS._refresh_credentials self w
        = (Raise (Exception_ (Fmt "Failed to refresh AWS credentials: " e)),
           AWS.clear_cache self, tr).
Proof.
  unfold AWS._refresh_credentials, aws_refresh_failure.
  destruct (AWS.ensure_handle self w) as [h|e0].
  - destruct (AWS.google_refresh w) as [tok|e0].
    + destruct (AWS.sts_client w) as [e0|].
      * intros [= <-]. by eexists.
      * destruct (AWS.assume_role w) as [c|e0]; [done|].
        intros [= <-]. by eexists.
    + intros [= <-]. by eexists.
  - intros [= <-]. by eexists.
Qed.

Lemma aws_stale_calls_provider (self : AWS.state) (w : AWS.env) h :
  AWS._google_credentials self = Some h →
  AWS._should_refresh_credentials self (AWS.utcnow_check w) = true →
  ∃ r self' tr,
    AWS.get_credentials self w
    = (r, self', EvIdentityRefresh (GCP.audience h) (GCP.token_url h) :: tr).
Proof.
  intros Hh Hstale. unfold AWS.get_credentials. rewrite Hstale.
  unfold AWS._refresh_credentials, AWS.ensure_handle. rewrite Hh.
  destruct (AWS.google_refresh w); [|eauto].
  destruct (AWS.sts_client w); [eauto|].
  destruct (AWS.assume_role w); eauto.
Qed.

(** ** Validity of a cached entry *)

(** C1. For both caches the validity check is true exactly when a value is
    cached and [now < expiresAt - refreshBuffer]. After a successful
    refresh with the buffer at 300 seconds (the identity token lives 3600
    seconds from the clock reading at which it is stored; the credential
    set until the expiration STS reports) the cache is valid at every
    instant before [expiresAt - 300s], invalid from that instant on, and
    the next get then goes to the identity provider. For the identity
    token the refresh must have cached a value, that is a non-empty
    token. *)
Theorem validity_window :
  (∀ (self : GCP.state) (now : Z),
     GCP._is_token_valid self now = true ↔
     ∃ tok expiresAt,
       GCP.token_cache self = Some tok ∧ tok ≠ ""
       ∧ GCP.token_expiry self = Some expiresAt
       ∧ (now < expiresAt - seconds (GCP.refresh_buffer self))%Z)
  ∧ (∀ (self : AWS.state) (utcnow : Z),
       credentials_valid self utcnow = true ↔
       ∃ d expiresAt,
         AWS._credentials_cache self = Some d ∧ d ≠ ∅
         ∧ AWS._credentials_expiry self = Some expiresAt
         ∧ (utcnow < expiresAt - seconds (AWS.refresh_buffer self))%Z)
  ∧ (∀ (self self' : GCP.state) (w : GCP.env) (tok : string) tr,
       GCP.refresh_buffer self = 300%Z →
       GCP._is_token_valid self (GCP.now_check w) = false →
       GCP.get_token self w = (Ok (Some tok), self', tr) →
       tok ≠ "" →
       ∃ expiresAt,
         expiresAt = (GCP.now_set w + seconds 3600)%Z
         ∧ GCP.token_expiry self' = Some expiresAt
         ∧ (∀ now, (now < expiresAt - seconds 300)%Z →
                   GCP._is_token_valid self' now = true)
         ∧ (∀ now, (expiresAt - seconds 300 ≤ now)%Z →
                   GCP._is_token_valid self' now = false)
         ∧ (∀ w', (expiresAt - seconds 300 ≤ GCP.now_check w')%Z →
                  ∃ r self'' a u,
                    GCP.get_token self' w' = (r, self'', [EvIdentityRefresh a u])))
  ∧ (∀ (self self' : AWS.state) (w : AWS.env) creds tr,
       AWS.refresh_buffer self = 300%Z →
       AWS._should_refresh_credentials self (AWS.utcnow_check w) = true →
       AWS.get_credentials self w = (Ok creds, self', tr) →
       ∃ c expiresAt,
         AWS.assume_role w = Ok c
         ∧ expiresAt = AWS.parse_expiration (AWS.Expiration c)
         ∧ AWS._credentials_expiry self' = Some expiresAt
         ∧ (∀ now, (now < expiresAt - seconds 300)%Z →
                   credentials_valid self' now = true)
         ∧ (∀ now, (expiresAt - seconds 300 ≤ now)%Z →
                   credentials_valid self' now = false)
         ∧ (∀ w', (expiresAt - seconds 300 ≤ AWS.utcnow_check w')%Z →
                  ∃ r self'' a u tr',
                    AWS.get_credentials self' w'
                    = (r, self'', EvIdentityRefresh a u :: tr'))).
Proof.
  split_and!.
  - apply gcp_valid_iff.
  - apply aws_valid_iff.
  - intros self self' w tok tr Hbuf Hstale Hget Hne.
    rewrite gcp_get_token_stale in Hget by done.
    apply gcp_refresh_ok in Hget
      as (h & tok' & _ & _ & [= <-] & Hc & He & Hh & Hb & _).
    rewrite Hbuf in Hb.
    assert (∀ now, GCP._is_token_valid self' now = true
                   ↔ (now < GCP.now_set w + seconds 3600 - seconds 300)%Z) as Hiff.
    { intros now. rewrite gcp_valid_iff, Hc, He, Hb. split.
      - by intros (? & ? & _ & _ & [= <-] & H).
      - intros H. by exists tok, (GCP.now_set w + seconds 3600)%Z. }
    eexists. split_and!; [done | done | | |].
    + intros now H. by apply Hiff.
    + intros now H. apply not_true_is_false. rewrite Hiff. lia.
    + intros w' H.
      destruct (gcp_stale_calls_provider self' w' _ Hh) as (r & s & Hr); [|eauto].
      apply not_true_is_false. rewrite Hiff. lia.
  - intros self self' w creds tr Hbuf Hstale Hget.
    unfold AWS.get_credentials in Hget. rewrite Hstale in Hget.
    destruct (AWS._refresh_credentials self w) as [[[u|e] s] t] eqn:Hr; [|done].
    injection Hget as <- <- <-.
    apply aws_refresh_ok in Hr
      as (h & tok & c & _ & _ & _ & Hc & Hd & He & Hh & Hb & _).
    rewrite Hbuf in Hb.
    assert (∀ now, credentials_valid s now = true
                   ↔ (now < AWS.parse_expiration (AWS.Expiration c)
                            - seconds 300)%Z) as Hiff.
    { intros now. rewrite aws_valid_iff, Hd, He, Hb. split.
      - by intros (? & ? & _ & _ & [= <-] & H).
      - intros H. eexists _, _. split_and!; [done | | done | done].
        apply credentials_dict_nonempty. }
    exists c. eexists. split_and!; [done | done | done | | |].
    + intros now H. by apply Hiff.
    + intros now H. apply not_true_is_false. rewrite Hiff. lia.
    + intros w' H.
      destruct (aws_stale_calls_provider s w' _ Hh) as (r & s' & t' & Hr');
        [|eauto 6].
      apply negb_false_iff. fold (credentials_valid s (AWS.utcnow_check w')).
      apply not_true_is_false. rewrite Hiff. lia.
Qed.

Lemma validity_window_witness :
  GCP.refresh_buffer Scenario.token_manager0 = 300%Z
  ∧ GCP._is_token_valid Scenario.token_manager0
      (GCP.now_check Scenario.refresh_ok) = false
  ∧ GCP._is_token_valid Scenario.token_manager1 (seconds 3300) = true
  ∧ GCP._is_token_valid Scenario.token_manager1 (seconds 3301) = false
  ∧ credentials_valid Scenario.credentials_manager1 (seconds 3300) = true
  ∧ credentials_valid Scenario.credentials_manager1 (seconds 3301) = false.
Proof.
  destruct validity_window as (_ & _ & Hgcp & Haws).
  destruct (Hgcp Scenario.token_manager0 Scenario.token_manager1
              Scenario.refresh_ok "ya29.a0" _ eq_refl eq_refl eq_refl)
    as (e & -> & _ & Hbefore & Hafter & _); [done|].
  destruct (Haws Scenario.credentials_manager0 Scenario.credentials_manager1
              Scenario.exchange_ok _ _ eq_refl eq_refl eq_refl)
    as (c & e & [= <-] & -> & _ & Hbefore' & Hafter' & _).
  split_and!; [reflexivity | reflexivity | | | |].
  - apply Hbefore. by vm_compute.
  - apply Hafter. by vm_compute.
  - apply Hbefore'. by vm_compute.
  - apply Hafter'. by vm_compute.
Defined.

(** ** Failed refreshes *)

(** C2. When the refresh of either cache fails, [get_token] /
    [get_credentials] raises an [HTTPException] with status 500 that wraps
    the upstream error, and leaves the manager with the cached value, the
    expiry and the lazily built credential handle all unset. No call of
    either operation raises in any other way. *)
Theorem failed_refresh_clears_cache :
  (∀ (self : GCP.state) (w : GCP.env) (e : exn),
     GCP._is_token_valid self (GCP.now_check w) = false →
     gcp_refresh_failure self w = Some e →
     ∃ self' tr,
       GCP.get_token self w
       = (Raise (HTTPException 500 (Fmt "Failed to get Google Cloud token: " e)),
          self', tr)
       ∧ GCP.token_cache self' = None
       ∧ GCP.token_expiry self' = None
       ∧ GCP._credentials self' = None)
  ∧ (∀ (self : AWS.state) (w : AWS.env) (e : exn),
       AWS._should_refresh_credentials self (AWS.utcnow_check w) = true →
       aws_refresh_failure self w = Some e →
       ∃ self' tr,
         AWS.get_credentials self w
         = (Raise (HTTPException 500
                     (Fmt "Failed to get AWS credentials: "
                        (Exception_ (Fmt "Failed to refresh AWS credentials: " e)))),
            self', tr)
         ∧ AWS._credentials_cache self' = None
         ∧ AWS._credentials_expiry self' = None
         ∧ AWS._google_credentials self' = None)
  ∧ (∀ (self self' : GCP.state) (w : GCP.env) e' tr,
       GCP.get_token self w = (Raise e', self', tr) →
       (∃ detail, e' = HTTPException 500 detail)
       ∧ GCP.token_cache self' = None
       ∧ GCP.token_expiry self' = None
       ∧ GCP._credentials self' = None)
  ∧ (∀ (self self' : AWS.state) (w : AWS.env) e' tr,
       AWS.get_credentials self w = (Raise e', self', tr) →
       (∃ detail, e' = HTTPException 500 detail)
       ∧ AWS._credentials_cache self' = None
       ∧ AWS._credentials_expiry self' = None
       ∧ AWS._google_credentials self' = None).
Proof.
  split_and!.
  - intros self w e Hstale Hfail.
    rewrite gcp_get_token_stale by done.
    destruct (gcp_refresh_failure_raise self w e Hfail) as (tr & -> & _).
    by eexists _, _.
  - intros self w e Hstale Hfail.
    unfold AWS.get_credentials. rewrite Hstale.
    destruct (aws_refresh_failure_raise self w e Hfail) as (tr & ->).
    by eexists _, _.
  - intros self self' w e' tr. unfold GCP.get_token.
    destruct (GCP._is_token_valid self (GCP.now_check w)); [done|].
    intros (e & _ & -> & ->)%gcp_refresh_raise. eauto.
  - intros self self' w e' tr. unfold AWS.get_credentials.
    destruct (AWS._should_refresh_credentials self (AWS.utcnow_check w)); [|done].
    destruct (AWS._refresh_credentials self w) as [[[u|e] s] t] eqn:Hr; [done|].
    intros [= <- <- <-]. eauto.
Qed.

Lemma failed_refresh_clears_cache_witness :
  GCP._is_token_valid Scenario.token_manager1 (seconds 3301) = false
  ∧ gcp_refresh_failure Scenario.token_manager1
      (Scenario.failing_at (seconds 3301))
    = Some (Exception_ (Text "invalid_grant"))
  ∧ (∃ self' tr,
       GCP.get_token Scenario.token_manager1
         (Scenario.failing_at (seconds 3301))
       = (Raise (HTTPException 500
                   (Fmt "Failed to get Google Cloud token: "
                      (Exception_ (Text "invalid_grant")))), self', tr)
       ∧ GCP.token_cache self' = None
       ∧ GCP.token_expiry self' = None
       ∧ GCP._credentials self' = None)
  ∧ AWS._should_refresh_credentials Scenario.credentials_manager0 0 = true
  ∧ aws_refresh_failure Scenario.credentials_manager0 Scenario.exchange_fails
    = Some (Exception_ (Text "AccessDenied"))
  ∧ (∃ self' tr,
       AWS.get_credentials Scenario.credentials_manager0 Scenario.exchange_fails
       = (Raise (HTTPException 500
                   (Fmt "Failed to get AWS credentials: "
                      (Exception_ (Fmt "Failed to refresh AWS credentials: "
                                     (Exception_ (Text "AccessDenied")))))),
          self', tr)
       ∧ AWS._credentials_cache self' = None
       ∧ AWS._credentials_expiry self' = None
       ∧ AWS._google_credentials self' = None).
Proof.
  destruct failed_refresh_clears_cache as (Hgcp & Haws & _).
  split_and!; [reflexivity | reflexivity | | reflexivity | reflexivity |].
  - apply (Hgcp Scenario.token_manager1 (Scenario.failing_at (seconds 3301)));
      reflexivity.
  - apply (Haws Scenario.credentials_manager0 Scenario.exchange_fails);
      reflexivity.
Defined.

(** ** Repeated gets on a valid cache *)

Lemma get_token_seq_valid (self : GCP.state) (ws : list GCP.env) :
  Forall (λ w, GCP._is_token_valid self (GCP.now_check w) = true) ws →
  get_token_seq self ws
  = (replicate (List.length ws) (Ok (GCP.token_cache self)), self, []).
Proof.
  induction 1 as [|w ws Hw _ IH]; simpl; [done|].
  by rewrite (gcp_get_token_valid self w Hw), IH.
Qed.

Lemma get_credentials_seq_valid (self : AWS.state) (ws : list AWS.env) :
  Forall (λ w, credentials_valid self (AWS.utcnow_check w) = true) ws →
  get_credentials_seq self ws
  = (replicate (List.length ws) (Ok (AWS._credentials_cache self)), self, []).
Proof.
  induction 1 as [|w ws Hw _ IH]; simpl; [done|].
  apply negb_true_iff in Hw.
  by rewrite (aws_get_credentials_valid self w Hw), IH.
Qed.

(** C3. While the cached entry is valid, any number of [get_token] (or
    [get_credentials]) calls in a row make no outside call at all, leave
    the manager as it was, and each returns the cached value. *)
Theorem valid_cache_no_network :
  (∀ (self : GCP.state) (ws : list GCP.env),
     Forall (λ w, GCP._is_token_valid self (GCP.now_check w) = true) ws →
     get_token_seq self ws
     = (replicate (List.length ws) (Ok (GCP.token_cache self)), self, []))
  ∧ (∀ (self : AWS.state) (ws : list AWS.env),
       Forall (λ w, credentials_valid self (AWS.utcnow_check w) = true) ws →
       get_credentials_seq self ws
       = (replicate (List.length ws) (Ok (AWS._credentials_cache self)), self, [])).
Proof. split; [apply get_token_seq_valid | apply get_credentials_seq_valid]. Qed.

Lemma valid_cache_no_network_witness :
  get_token_seq Scenario.token_manager1
    [Scenario.at_time (seconds 2); Scenario.at_time (seconds 1800);
     Scenario.at_time (seconds 3300)]
  = ([Ok (Some "ya29.a0"); Ok (Some "ya29.a0"); Ok (Some "ya29.a0")],
     Scenario.token_manager1, [])
  ∧ get_credentials_seq Scenario.credentials_manager1
      [Scenario.exchange_at (seconds 2); Scenario.exchange_at (seconds 3300)]
    = (replicate 2 (Ok (AWS._credentials_cache Scenario.credentials_manager1)),
       Scenario.credentials_manager1, []).
Proof.
  destruct valid_cache_no_network as (Hgcp & Haws).
  split.
  - apply (Hgcp Scenario.token_manager1
             [Scenario.at_time (seconds 2); Scenario.at_time (seconds 1800);
              Scenario.at_time (seconds 3300)]).
    repeat constructor.
  - apply (Haws Scenario.credentials_manager1
             [Scenario.exchange_at (seconds 2); Scenario.exchange_at (seconds 3300)]).
    repeat constructor.
Defined.

(** Two calls that run one after the other on a stale cache: when the
    refresh of the first succeeds and the second comes within the validity
    window, the identity provider is called once and both calls return the
    same token. *)
Lemma get_token_twice_refreshes_once (self : GCP.state) (w1 w2 : GCP.env) tok :
  GCP._is_token_valid self (GCP.now_check w1) = false →
  gcp_refresh_failure self w1 = None →
  GCP.refresh w1 = Ok tok → tok ≠ "" →
  (GCP.now_check w2
   < GCP.now_set w1 + seconds 3600 - seconds (GCP.refresh_buffer self))%Z →
  ∃ self' a u,
    get_token_seq self [w1; w2]
    = ([Ok (Some tok); Ok (Some tok)], self', [EvIdentityRefresh a u]).
Proof.
  intros Hstale Hfail Hr Hne Hlt. simpl.
  rewrite gcp_get_token_stale by done.
  destruct (GCP.refresh_token self w1) as [[[o|e] s] t] eqn:Hrt.
  - apply gcp_refresh_ok in Hrt
      as (h & tok' & _ & Hr' & -> & Hc & He & _ & Hb & ->).
    assert (tok' = tok) as -> by congruence.
    rewrite gcp_get_token_valid.
    + rewrite Hc. simpl. eauto.
    + apply gcp_valid_iff. exists tok, (GCP.now_set w1 + seconds 3600)%Z.
      by rewrite Hb.
  - apply gcp_refresh_raise in Hrt as (e0 & He0 & _). congruence.
Qed.

Lemma get_credentials_twice_refreshes_once
      (self : AWS.state) (w1 w2 : AWS.env) c :
  AWS._should_refresh_credentials self (AWS.utcnow_check w1) = true →
  aws_refresh_failure self w1 = None →
  AWS.assume_role w1 = Ok c →
  (AWS.utcnow_check w2
   < AWS.parse_expiration (AWS.Expiration c)
     - seconds (AWS.refresh_buffer self))%Z →
  ∃ self' a u ev,
    get_credentials_seq self [w1; w2]
    = ([Ok (Some (AWS.credentials_dict c)); Ok (Some (AWS.credentials_dict c))],
       self', [EvIdentityRefresh a u; ev]).
Proof.
  intros Hstale Hfail Hr Hlt. simpl.
  unfold AWS.get_credentials at 1. rewrite Hstale.
  destruct (AWS._refresh_credentials self w1) as [[[o|e] s] t] eqn:Hrt.
  - apply aws_refresh_ok in Hrt
      as (h & tok & c' & _ & _ & _ & Hr' & Hc & He & _ & Hb & ->).
    assert (c' = c) as -> by congruence.
    rewrite aws_get_credentials_valid.
    + rewrite Hc. simpl. eauto 6.
    + apply negb_true_iff. fold (credentials_valid s (AWS.utcnow_check w2)).
      apply aws_valid_iff. eexists _, _. rewrite Hb.
      split_and!; [done | apply credentials_dict_nonempty | done | done].
  - apply aws_refresh_raise in Hrt as (e0 & He0 & _). congruence.
Qed.

(** ** The pairing invariant *)

Lemma gcp_step_cases (self : GCP.state) (op : gcp_op) :
  gcp_step self op = self
  ∨ gcp_step self op = GCP.clear_cache self
  ∨ ∃ w h tok,
      (op = GetToken w ∨ op = GetAuthorizationHeaders w)
      ∧ GCP.refresh w = Ok tok
      ∧ GCP._credentials (gcp_step self op) = Some h
      ∧ GCP.token_cache (gcp_step self op) = Some tok
      ∧ GCP.token_expiry (gcp_step self op)
        = Some (GCP.now_set w + seconds 3600)%Z.
Proof.
  assert (∀ w, (GCP.get_token self w).1.2 = self
               ∨ (GCP.get_token self w).1.2 = GCP.clear_cache self
               ∨ ∃ h tok, GCP.refresh w = Ok tok
                   ∧ GCP._credentials (GCP.get_token self w).1.2 = Some h
                   ∧ GCP.token_cache (GCP.get_token self w).1.2 = Some tok
                   ∧ GCP.token_expiry (GCP.get_token self w).1.2
                     = Some (GCP.now_set w + seconds 3600)%Z) as Hget.
  { intros w. unfold GCP.get_token.
    destruct (GCP._is_token_valid self (GCP.now_check w)); [by left|].
    destruct (GCP.refresh_token self w) as [[[o|e] s] t] eqn:Hr; simpl.
    - apply gcp_refresh_ok in Hr as (h & tok & _ & ? & _ & ? & ? & ? & _).
      right; right. eauto 6.
    - apply gcp_refresh_raise in Hr as (? & _ & _ & ->). by right; left. }
  destruct op as [w|w|]; simpl.
  - destruct (Hget w) as [?|[?|(h & tok & ? & ? & ? & ?)]];
      [by left | by right; left |].
    right; right. exists w, h, tok. auto.
  - unfold GCP.get_authorization_headers.
    destruct (Hget w) as [H|[H|(h & tok & ? & ? & ? & ?)]];
      destruct (GCP.get_token self w) as [[[o|e] s] t]; simpl in *;
      [by left | by left | by right; left | by right; left | |];
      right; right; exists w, h, tok; auto.
  - by right; left.
Qed.

Lemma aws_refresh_cases (self : AWS.state) (w : AWS.env) :
  (AWS._refresh_credentials self w).1.2 = AWS.clear_cache self
  ∨ ∃ c, AWS.assume_role w = Ok c
      ∧ AWS._credentials_cache (AWS._refresh_credentials self w).1.2
        = Some (AWS.credentials_dict c)
      ∧ AWS._credentials_expiry (AWS._refresh_credentials self w).1.2
        = Some (AWS.parse_expiration (AWS.Expiration c)).
Proof.
  destruct (AWS._refresh_credentials self w) as [[[u|e] s] t] eqn:Hr; simpl.
  - apply aws_refresh_ok in Hr as (h & tok & c & _ & _ & _ & ? & ? & ? & _).
    right. eauto.
  - apply aws_refresh_raise in Hr as (? & _ & _ & ->). by left.
Qed.

Lemma aws_step_cases (self : AWS.state) (op : aws_op) :
  aws_step self op = self
  ∨ aws_step self op = AWS.clear_cache self
  ∨ ∃ w c,
      (op = GetCredentials w ∨ op = RefreshCredentials w)
      ∧ AWS.assume_role w = Ok c
      ∧ AWS._credentials_cache (aws_step self op)
        = Some (AWS.credentials_dict c)
      ∧ AWS._credentials_expiry (aws_step self op)
        = Some (AWS.parse_expiration (AWS.Expiration c)).
Proof.
  destruct op as [w|w|]; simpl.
  - unfold AWS.get_credentials.
    destruct (AWS._should_refresh_credentials self (AWS.utcnow_check w));
      [|by left].
    destruct (AWS._refresh_credentials self w) as [[[u|e] s] t] eqn:Hr; simpl.
    + apply aws_refresh_ok in Hr as (h & tok & c & _ & _ & _ & ? & ? & ? & _).
      right; right. exists w, c. auto.
    + apply aws_refresh_raise in Hr as (? & _ & _ & ->). by right; left.
  - destruct (aws_refresh_cases self w) as [H|(c & ? & ? & ?)].
    + by right; left.
    + right; right. exists w, c. auto.
  - by right; left.
Qed.

Lemma gcp_init_empty pool pid (self : GCP.state) :
  GCP.__init__ pool pid = Ok self →
  GCP.token_cache self = None ∧ GCP.token_expiry self = None
  ∧ GCP._credentials self = None ∧ GCP.refresh_buffer self = 300%Z.
Proof.
  unfold GCP.__init__.
  destruct (opt_str_truthy pool && opt_str_truthy pid); [|done].
  destruct pool, pid; try done. by intros [= <-].
Qed.

Lemma aws_init_empty role pool pid region_ (self : AWS.state) :
  AWS.__init__ role pool pid region_ = Ok self →
  AWS._credentials_cache self = None ∧ AWS._credentials_expiry self = None
  ∧ AWS._google_credentials self = None ∧ AWS.refresh_buffer self = 300%Z.
Proof.
  unfold AWS.__init__. destruct role, pool, pid; try done.
  destruct (_ && _); [|done]. by intros [= <-].
Qed.

Lemma gcp_step_together (self : GCP.state) (op : gcp_op) :
  gcp_together op self (gcp_step self op).
Proof.
  destruct (gcp_step_cases self op) as [->|[->|(w & h & tok & ? & ? & _ & ? & ?)]].
  - by left.
  - by right; left.
  - right; right. by exists w, tok.
Qed.

Lemma aws_step_together (self : AWS.state) (op : aws_op) :
  aws_together op self (aws_step self op).
Proof.
  destruct (aws_step_cases self op) as [->|[->|(w & c & ? & ? & ? & ?)]].
  - by left.
  - by right; left.
  - right; right. by exists w, c.
Qed.

(** Both fields are unset, or both are set. *)
Lemma gcp_run_paired (ops : list gcp_op) (self : GCP.state) :
  (GCP.token_cache self = None ↔ GCP.token_expiry self = None) →
  GCP.token_cache (gcp_run self ops) = None
  ↔ GCP.token_expiry (gcp_run self ops) = None.
Proof.
  revert self. induction ops as [|op ops IH]; intros self Hinv; [done|].
  apply IH.
  destruct (gcp_step_cases self op) as [->|[->|(w & h & tok & _ & _ & _ & -> & ->)]];
    done.
Qed.

(** With an identity provider that hands out non-empty tokens, the cached
    value is non-empty exactly when the expiry is set. *)
Lemma gcp_run_nonempty (ops : list gcp_op) (self : GCP.state) :
  Forall gcp_nonempty ops →
  (token_nonempty self ↔ is_Some (GCP.token_expiry self)) →
  token_nonempty (gcp_run self ops)
  ↔ is_Some (GCP.token_expiry (gcp_run self ops)).
Proof.
  intros Hops. revert self.
  induction Hops as [|op ops Hop _ IH]; intros self Hinv; [done|].
  apply IH. unfold token_nonempty.
  destruct (gcp_step_cases self op)
    as [->|[->|(w & h & tok & Hw & Hr & _ & -> & ->)]]; [done | |].
  - simpl. split; [by intros (? & ? & _) | by intros [? ?]].
  - split; [eauto|]. intros _. exists tok. split; [done|].
    destruct Hw as [-> | ->]; by apply Hop.
Qed.

Lemma aws_run_paired (ops : list aws_op) (self : AWS.state) :
  (AWS._credentials_cache self = None ↔ AWS._credentials_expiry self = None) →
  AWS._credentials_cache (aws_run self ops) = None
  ↔ AWS._credentials_expiry (aws_run self ops) = None.
Proof.
  revert self. induction ops as [|op ops IH]; intros self Hinv; [done|].
  apply IH.
  destruct (aws_step_cases self op) as [->|[->|(w & c & _ & _ & -> & ->)]];
    done.
Qed.

Lemma aws_run_nonempty (ops : list aws_op) (self : AWS.state) :
  Forall aws_nonempty ops →
  (triple_nonempty self ↔ is_Some (AWS._credentials_expiry self)) →
  triple_nonempty (aws_run self ops)
  ↔ is_Some (AWS._credentials_expiry (aws_run self ops)).
Proof.
  intros Hops. revert self.
  induction Hops as [|op ops Hop _ IH]; intros self Hinv; [done|].
  apply IH. unfold triple_nonempty.
  destruct (aws_step_cases self op)
    as [->|[->|(w & c & Hw & Hr & -> & ->)]]; [done | |].
  - simpl. split; [by intros (? & ? & _) | by intros [? ?]].
  - split; [eauto|]. intros _. exists c. split; [done|].
    destruct Hw as [-> | ->]; by apply Hop.
Qed.

(** C9. Every state a manager reaches from its constructor by its
    operations (gets whose refresh succeeds or fails, and clears, in any
    order and with any answers of the outside world) has its cached value
    and its expiry both unset or both set; every single operation leaves
    the two as they were, clears both, or installs both from one upstream
    reply; and when the identity provider (for the token) and STS (for the
    triple) hand out non-empty strings, the cached token is non-empty, and
    the three credential strings are all non-empty, exactly when the
    expiry is set. *)
Theorem cache_pairing_invariant :
  (∀ pool pid (self0 : GCP.state) (ops : list gcp_op),
     GCP.__init__ pool pid = Ok self0 →
     (GCP.token_cache (gcp_run self0 ops) = None
      ↔ GCP.token_expiry (gcp_run self0 ops) = None)
     ∧ (∀ op, gcp_together op (gcp_run self0 ops)
                (gcp_step (gcp_run self0 ops) op))
     ∧ (Forall gcp_nonempty ops →
        token_nonempty (gcp_run self0 ops)
        ↔ is_Some (GCP.token_expiry (gcp_run self0 ops))))
  ∧ (∀ role pool pid region_ (self0 : AWS.state) (ops : list aws_op),
       AWS.__init__ role pool pid region_ = Ok self0 →
       (AWS._credentials_cache (aws_run self0 ops) = None
        ↔ AWS._credentials_expiry (aws_run self0 ops) = None)
       ∧ (∀ op, aws_together op (aws_run self0 ops)
                  (aws_step (aws_run self0 ops) op))
       ∧ (Forall aws_nonempty ops →
          triple_nonempty (aws_run self0 ops)
          ↔ is_Some (AWS._credentials_expiry (aws_run self0 ops)))).
Proof.
  split.
  - intros pool pid self0 ops (Hc & He & _)%gcp_init_empty. split_and!.
    + apply gcp_run_paired. by rewrite Hc, He.
    + intros op. apply gcp_step_together.
    + intros Hops. apply gcp_run_nonempty; [done|].
      unfold token_nonempty. rewrite Hc, He.
      split; [by intros (? & ? & _) | by intros [? ?]].
  - intros role pool pid region_ self0 ops (Hc & He & _)%aws_init_empty.
    split_and!.
    + apply aws_run_paired. by rewrite Hc, He.
    + intros op. apply aws_step_together.
    + intros Hops. apply aws_run_nonempty; [done|].
      unfold triple_nonempty. rewrite Hc, He.
      split; [by intros (? & ? & _) | by intros [? ?]].
Qed.

Lemma cache_pairing_invariant_witness :
  GCP.__init__ (Some "https://sts.googleapis.com/v1/token")
               (Some "//iam.googleapis.com/projects/1/providers/aws")
  = Ok Scenario.token_manager0
  ∧ Forall gcp_nonempty
      [GetToken Scenario.refresh_ok;
       GetAuthorizationHeaders (Scenario.failing_at (seconds 3301));
       GetToken (Scenario.at_time (seconds 4000))]
  ∧ (token_nonempty
       (gcp_run Scenario.token_manager0
          [GetToken Scenario.refresh_ok;
           GetAuthorizationHeaders (Scenario.failing_at (seconds 3301));
           GetToken (Scenario.at_time (seconds 4000))])
     ↔ is_Some (GCP.token_expiry
         (gcp_run Scenario.token_manager0
            [GetToken Scenario.refresh_ok;
             GetAuthorizationHeaders (Scenario.failing_at (seconds 3301));
             GetToken (Scenario.at_time (seconds 4000))])))
  ∧ AWS.__init__ (Some "arn:aws:iam::123456789012:role/bedrock-proxy")
                 (Some "https://sts.googleapis.com/v1/token")
                 (Some "//iam.googleapis.com/projects/1/providers/aws") None
    = Ok Scenario.credentials_manager0
  ∧ Forall aws_nonempty
      [GetCredentials Scenario.exchange_ok; GetCredentials Scenario.exchange_fails]
  ∧ (triple_nonempty
       (aws_run Scenario.credentials_manager0
          [GetCredentials Scenario.exchange_ok;
           GetCredentials Scenario.exchange_fails])
     ↔ is_Some (AWS._credentials_expiry
         (aws_run Scenario.credentials_manager0
            [GetCredentials Scenario.exchange_ok;
             GetCredentials Scenario.exchange_fails]))).
Proof.
  destruct cache_pairing_invariant as (Hgcp & Haws).
  assert (Forall gcp_nonempty
            [GetToken Scenario.refresh_ok;
             GetAuthorizationHeaders (Scenario.failing_at (seconds 3301));
             GetToken (Scenario.at_time (seconds 4000))]) as Hg.
  { constructor; [|constructor; [|constructor; [|constructor]]].
    - intros tok [= <-]; discriminate.
    - intros tok [=].
    - intros tok [= <-]; discriminate. }
  assert (Forall aws_nonempty
            [GetCredentials Scenario.exchange_ok;
             GetCredentials Scenario.exchange_fails]) as Ha.
  { constructor; [|constructor; [|constructor]].
    - intros c [= <-]. repeat split; discriminate.
    - intros c [=]. }
  split_and!; [reflexivity | exact Hg | | reflexivity | exact Ha |].
  - apply (Hgcp (Some "https://sts.googleapis.com/v1/token")
                (Some "//iam.googleapis.com/projects/1/providers/aws")
                Scenario.token_manager0 _ eq_refl).
    exact Hg.
  - apply (Haws (Some "arn:aws:iam::123456789012:role/bedrock-proxy")
                (Some "https://sts.googleapis.com/v1/token")
                (Some "//iam.googleapis.com/projects/1/providers/aws") None
                Scenario.credentials_manager0 _ eq_refl).
    exact Ha.
Defined.

(** C9 as the specification words it fails: the managers store what the
    identity provider and STS hand out. After one [get_token] answered
    with an empty token the cached value is the empty string and the
    expiry is set; after one [get_credentials] answered with an empty
    session token the dict is stored with that empty string and the
    expiry is set. In both states "non-empty iff the expiry is set" is
    false. *)
Lemma cache_pairing_empty_value :
  (GCP.__init__ (Some "https://sts.googleapis.com/v1/token")
                (Some "//iam.googleapis.com/projects/1/providers/aws")
   = Ok Scenario.token_manager0
   ∧ GCP.token_cache
       (gcp_run Scenario.token_manager0 [GetToken Examples.empty_token])
     = Some ""
   ∧ GCP.token_expiry
       (gcp_run Scenario.token_manager0 [GetToken Examples.empty_token])
     = Some (seconds 3601)
   ∧ ¬ (token_nonempty
          (gcp_run Scenario.token_manager0 [GetToken Examples.empty_token])
        ↔ is_Some (GCP.token_expiry
            (gcp_run Scenario.token_manager0 [GetToken Examples.empty_token]))))
  ∧ (AWS.__init__ (Some "arn:aws:iam::123456789012:role/bedrock-proxy")
                  (Some "https://sts.googleapis.com/v1/token")
                  (Some "//iam.googleapis.com/projects/1/providers/aws") None
     = Ok Scenario.credentials_manager0
     ∧ (∃ d, AWS._credentials_cache
               (aws_run Scenario.credentials_manager0
                  [GetCredentials Examples.empty_session_token])
             = Some d
             ∧ d !! "aws_session_token" = Some "")
     ∧ AWS._credentials_expiry
         (aws_run Scenario.credentials_manager0
            [GetCredentials Examples.empty_session_token])
       = Some (seconds 3601)
     ∧ ¬ (triple_nonempty
            (aws_run Scenario.credentials_manager0
               [GetCredentials Examples.empty_session_token])
          ↔ is_Some (AWS._credentials_expiry
              (aws_run Scenario.credentials_manager0
                 [GetCredentials Examples.empty_session_token])))).
Proof.
  split.
  - split_and!; [reflexivity | reflexivity | reflexivity |].
    intros [_ H]. destruct H as (tok & Htok & Hne); [by eexists|].
    apply Hne. by injection Htok as <-.
  - split_and!; [reflexivity | | reflexivity |].
    + eexists. split; reflexivity.
    + intros [_ H]. destruct H as (c & Hc & _ & _ & Hne); [by eexists|].
      apply Hne.
      assert (∀ o, AWS._credentials_cache
                     (aws_run Scenario.credentials_manager0
                        [GetCredentials Examples.empty_session_token]) = o →
                   o ≫= (λ d, d !! "aws_session_token") = Some "") as Hl
        by (intros ? <-; reflexivity).
      specialize (Hl _ Hc).
      change (AWS.credentials_dict c !! "aws_session_token" = Some "") in Hl.
      unfold AWS.credentials_dict in Hl. rewrite lookup_insert_eq in Hl.
      by injection Hl.
Qed.

(** ** The request boundary *)

(** Whatever goes wrong inside [predict] leaves as a 500: the handler at
    the end of the function catches every [Exception], the
    [HTTPException]s raised inside the [try] included. *)
Lemma proxyapp_predict_raises_500 (self self' : ProxyApp.state) req w e tr :
  ProxyApp.predict self req w = (Raise e, self', tr) →
  ∃ cause, e = HTTPException 500 (Fmt "Error processing request: " cause).
Proof.
  unfold ProxyApp.predict.
  destruct (ProxyApp.predict_body self req w) as [[[r|e0] s] t]; [done|].
  intros [= <- _ _]. eauto.
Qed.

Lemma main_predict_raises_500 (self self' : Main.state) req w e tr :
  Main.predict self req w = (Raise e, self', tr) →
  ∃ cause, e = HTTPException 500 (Fmt "Error processing request: " cause).
Proof.
  unfold Main.predict.
  destruct (Main.predict_body self req w) as [[[r|e0] s] t]; [done|].
  intros [= <- _ _]. eauto.
Qed.

Lemma validate_request_raises_500 (self self' : Gateway.state) payload w e tr :
  Gateway.validate_request self payload w = (Raise e, self', tr) →
  ∃ detail, e = HTTPException 500 detail.
Proof.
  unfold Gateway.validate_request.
  destruct (Gateway.validate_body self payload w) as [[[r|e0] s] t]; [done|].
  intros [= <- _ _]. destruct e0; simpl; eauto.
Qed.

(** A verdict other than "approved": the validator raises the 403 of line
    34 inside its own [try], and its last handler turns it into a 500. *)
Lemma validate_request_denied (self : Gateway.state) payload w
      headers tm tr resp d :
  GCP.get_authorization_headers (Gateway.token_manager self) (Gateway.token_env w)
  = (Ok headers, tm, tr) →
  Gateway.post w = Ok resp →
  Gateway.raise_for_status resp = Ok tt →
  Gateway.json resp = Ok (PDict d) →
  is_approved (d !! "status") = false →
  Gateway.validate_request self payload w
  = (Raise (HTTPException 500
              (Fmt "Validation error: "
                 (HTTPException 403 (Text "Request not approved by GCP Gateway")))),
     Gateway.with_token_manager self tm,
     tr ++ [EvGatewayPost (Gateway.gateway_url self) payload headers]).
Proof.
  intros Hh Hp Hs Hj Ha.
  unfold Gateway.validate_request, Gateway.validate_body.
  rewrite Hh, Hp, Hs, Hj. simpl. by rewrite Ha.
Qed.

Lemma main_predict_denied (self : Main.state) req w headers tm tr resp d :
  GCP.get_authorization_headers
    (Gateway.token_manager (Main.gcp_gateway self))
    (Gateway.token_env (Main.gateway_env w))
  = (Ok headers, tm, tr) →
  Gateway.post (Main.gateway_env w) = Ok resp →
  Gateway.raise_for_status resp = Ok tt →
  Gateway.json resp = Ok (PDict d) →
  is_approved (d !! "status") = false →
  Main.predict self req w
  = (Raise (HTTPException 500
              (Fmt "Error processing request: "
                 (HTTPException 500
                    (Fmt "Validation error: "
                       (HTTPException 403
                          (Text "Request not approved by GCP Gateway")))))),
     Main.with_gateway self
       (Gateway.with_token_manager (Main.gcp_gateway self) tm),
     tr ++ [EvGatewayPost (Gateway.gateway_url (Main.gcp_gateway self))
              (request_dict req) headers]).
Proof.
  intros Hh Hp Hs Hj Ha. unfold Main.predict, Main.predict_body.
  by rewrite (validate_request_denied _ _ _ _ _ _ _ _ Hh Hp Hs Hj Ha).
Qed.

Lemma proxyapp_predict_denied (self : ProxyApp.state) req w resp d :
  ProxyApp.enter_client w = None →
  ProxyApp.post w = Ok resp →
  Gateway.raise_for_status resp = Ok tt →
  Gateway.json resp = Ok (PDict d) →
  is_approved (d !! "status") = false →
  ProxyApp.predict self req w
  = (Raise (HTTPException 500
              (Fmt "Error processing request: "
                 (HTTPException 403 (Text "Request not approved by GCP Gateway")))),
     self,
     [EvGatewayPost (ProxyApp.GCP_GATEWAY_URL self)
        (ProxyApp.prepare_gcp_request req)
        (<["Content-Type" := "application/json"]> ∅)]).
Proof.
  intros He Hp Hs Hj Ha.
  unfold ProxyApp.predict, ProxyApp.predict_body, ProxyApp.forward_to_gcp,
    ProxyApp.forward_body.
  rewrite He, Hp, Hs, Hj. simpl. by rewrite Ha.
Qed.

(** C6 (as the code runs). The gateway answers 200 with the verdict
    [{"status": "denied"}]. The validator of services/gcp_gateway.py raises
    a 500 that wraps its own 403, and the [/predict] endpoint, in main.py
    and in proxyapp.py alike, answers 500, not 403. No Bedrock call is
    made. *)
Theorem denied_request_is_answered_500 :
  (Gateway.validate_request Scenario.gateway0
     (request_dict (Scenario.request "InvokeModel"))
     (Scenario.gateway_world "denied")).1.1
  = Raise (HTTPException 500
             (Fmt "Validation error: "
                (HTTPException 403 (Text "Request not approved by GCP Gateway"))))
  ∧ (Main.predict Scenario.main0 (Scenario.request "InvokeModel")
       (Scenario.main_world "denied")).1.1
    = Raise (HTTPException 500
               (Fmt "Error processing request: "
                  (HTTPException 500
                     (Fmt "Validation error: "
                        (HTTPException 403
                           (Text "Request not approved by GCP Gateway"))))))
  ∧ (ProxyApp.predict Scenario.app0 (Scenario.request "InvokeModel")
       (Scenario.world "denied")).1.1
    = Raise (HTTPException 500
               (Fmt "Error processing request: "
                  (HTTPException 403
                     (Text "Request not approved by GCP Gateway"))))
  ∧ filter is_backend_call
      (Main.predict Scenario.main0 (Scenario.request "InvokeModel")
         (Scenario.main_world "denied")).2 = []
  ∧ filter is_backend_call
      (ProxyApp.predict Scenario.app0 (Scenario.request "InvokeModel")
         (Scenario.world "denied")).2 = [].
Proof.
  rewrite (validate_request_denied Scenario.gateway0 _
             (Scenario.gateway_world "denied") _ _ _ (Scenario.verdict "denied")
             {["status" := PStr "denied"]} eq_refl eq_refl eq_refl eq_refl eq_refl).
  rewrite (main_predict_denied Scenario.main0 _ (Scenario.main_world "denied")
             _ _ _ (Scenario.verdict "denied") {["status" := PStr "denied"]}
             eq_refl eq_refl eq_refl eq_refl eq_refl).
  rewrite (proxyapp_predict_denied Scenario.app0 _ (Scenario.world "denied")
             (Scenario.verdict "denied") {["status" := PStr "denied"]}
             eq_refl eq_refl eq_refl eq_refl eq_refl).
  by split_and!.
Qed.

(** ** Invoking a backend operation *)

(** [call_bedrock_service] looks the method up under the snake_case form
    of the operation name, and a client without that attribute makes it
    raise a 400. *)
Lemma call_bedrock_service_missing (self self' : ProxyApp.state) api w c tr :
  ProxyApp.get_client self (operation api) w = (Ok c, self', tr) →
  ProxyApp.getattr_client w c (ProxyApp.snake_case (operation api)) = NoAttribute →
  ProxyApp.call_bedrock_service self api w
  = (Raise (HTTPException 400
              (Text ("Invalid Bedrock operation: " +:+ operation api))),
     self', tr).
Proof.
  intros Hc Ha. unfold ProxyApp.call_bedrock_service, ProxyApp.call_body.
  by rewrite Hc, Ha.
Qed.

(** The method that gets called is the one named by the snake_case form. *)
Lemma call_bedrock_service_calls (self self' : ProxyApp.state) api w c tr r :
  ProxyApp.get_client self (operation api) w = (Ok c, self', tr) →
  ProxyApp.getattr_client w c (ProxyApp.snake_case (operation api)) = Method →
  ProxyApp.call w = Ok r →
  ∃ res,
    ProxyApp.call_bedrock_service self api w
    = (res, self',
       tr ++ [EvBackendCall (service c) (ProxyApp.snake_case (operation api))
                (request_payload api)]).
Proof.
  intros Hc Ha Hr. unfold ProxyApp.call_bedrock_service, ProxyApp.call_body.
  rewrite Hc, Ha, Hr. destruct (ProxyApp.clean_response r) as [v|[]]; eauto.
Qed.

(** At the endpoint the 400 is caught by the last handler of [predict]. *)
Lemma proxyapp_predict_missing (self self' : ProxyApp.state) req w resp d c tr :
  ProxyApp.enter_client w = None →
  ProxyApp.post w = Ok resp →
  Gateway.raise_for_status resp = Ok tt →
  Gateway.json resp = Ok (PDict d) →
  is_approved (d !! "status") = true →
  ProxyApp.get_client self (operation (bedrock_api req)) w = (Ok c, self', tr) →
  ProxyApp.getattr_client w c
    (ProxyApp.snake_case (operation (bedrock_api req))) = NoAttribute →
  (ProxyApp.predict self req w).1.1
  = Raise (HTTPException 500
             (Fmt "Error processing request: "
                (HTTPException 400
                   (Text ("Invalid Bedrock operation: "
                          +:+ operation (bedrock_api req)))))).
Proof.
  intros He Hp Hs Hj Ha Hc Hm.
  unfold ProxyApp.predict, ProxyApp.predict_body, ProxyApp.forward_to_gcp,
    ProxyApp.forward_body.
  rewrite He, Hp, Hs, Hj. simpl. rewrite Ha.
  by rewrite (call_bedrock_service_missing _ _ _ _ _ _ Hc Hm).
Qed.

(** C7 (as the code runs). The gateway approves a request for the
    operation "InvalidOp". In proxyapp.py the name is translated to
    [invalid_op], the client of the default service has no such method and
    [call_bedrock_service] raises a 400; the [/predict] endpoint answers
    500, not 400. In main.py the endpoint answers 500 as well, and does so
    before it looks any method up. No Bedrock call is made. *)
Theorem invalid_operation_is_answered_500 :
  ProxyApp.snake_case "InvalidOp" = "invalid_op"
  ∧ ProxyApp.snake_case "InvokeModel" = "invoke_model"
  ∧ (ProxyApp.call_bedrock_service Scenario.app0
       (bedrock_api (Scenario.request "InvalidOp"))
       (Scenario.world "approved")).1.1
    = Raise (HTTPException 400 (Text "Invalid Bedrock operation: InvalidOp"))
  ∧ (ProxyApp.predict Scenario.app0 (Scenario.request "InvalidOp")
       (Scenario.world "approved")).1.1
    = Raise (HTTPException 500
               (Fmt "Error processing request: "
                  (HTTPException 400
                     (Text "Invalid Bedrock operation: InvalidOp"))))
  ∧ (Main.predict Scenario.main0 (Scenario.request "InvalidOp")
       (Scenario.main_world "approved")).1.1
    = Raise (HTTPException 500
               (Fmt "Error processing request: " (KeyError "AccessKeyId")))
  ∧ filter is_backend_call
      (ProxyApp.predict Scenario.app0 (Scenario.request "InvalidOp")
         (Scenario.world "approved")).2 = [].
Proof.
  split_and!; reflexivity.
Qed.

(** ** The client factory *)

Lemma proxyapp_get_client_cached (self : ProxyApp.state) op w c :
  ProxyApp._instances self !! ProxyApp._determine_service op = Some c →
  ProxyApp.get_client self op w = (Ok c, self, []).
Proof. unfold ProxyApp.get_client. by intros ->. Qed.

Lemma proxyapp_get_client_fresh (self : ProxyApp.state) op w :
  ProxyApp._instances self !! ProxyApp._determine_service op = None →
  ProxyApp.boto3_client w = None →
  let c := {| service := ProxyApp._determine_service op;
              client_region := ProxyApp.AWS_REGION self;
              client_credentials := None |} in
  ProxyApp.get_client self op w
  = (Ok c, ProxyApp.with_instance self (ProxyApp._determine_service op) c,
     [EvClientConstruct (ProxyApp._determine_service op)
        (ProxyApp.AWS_REGION self) None]).
Proof. unfold ProxyApp.get_client. by intros -> ->. Qed.

(** A client that [get_client] handed out is in the cache afterwards. *)
Lemma proxyapp_get_client_caches (self self' : ProxyApp.state) op w c tr :
  ProxyApp.get_client self op w = (Ok c, self', tr) →
  ProxyApp._instances self' !! ProxyApp._determine_service op = Some c.
Proof.
  unfold ProxyApp.get_client.
  destruct (ProxyApp._instances self !! _) as [c'|] eqn:Hc.
  - by intros [= <- <- _].
  - destruct (ProxyApp.boto3_client w); [done|].
    intros [= <- <- _]. apply lookup_insert_eq.
Qed.

(** The credentials manager is asked on every call, whatever
    [_instances] holds. *)
Lemma bedrock_get_client_fetches (self : Bedrock.state) op w :
  ∃ r self' tr',
    Bedrock.get_client self op w
    = (r, self',
       (AWS.get_credentials (Bedrock.credentials_manager self)
          (Bedrock.credentials_env w)).2 ++ tr')
    ∧ Bedrock.credentials_manager self'
      = (AWS.get_credentials (Bedrock.credentials_manager self)
           (Bedrock.credentials_env w)).1.2
    ∧ ∀ e, (AWS.get_credentials (Bedrock.credentials_manager self)
              (Bedrock.credentials_env w)).1.1 = Raise e →
           r = Raise e.
Proof.
  unfold Bedrock.get_client.
  destruct (AWS.get_credentials _ _) as [[[creds|e] cm] tr]; simpl.
  - destruct (Bedrock.config_credentials creds) as [d|e].
    + destruct (Bedrock.boto3_client w) as [e|].
      * eexists _, _, []. by rewrite app_nil_r.
      * eexists _, _, [_]. done.
    + eexists _, _, []. by rewrite app_nil_r.
  - eexists _, _, []. rewrite app_nil_r. split_and!; [done..|].
    by intros ? [= <-].
Qed.

Lemma bedrock_get_client_ignores_cache (self : Bedrock.state) instances op w :
  (Bedrock.get_client (with_instances self instances) op w).1.1
  = (Bedrock.get_client self op w).1.1
  ∧ (Bedrock.get_client (with_instances self instances) op w).2
    = (Bedrock.get_client self op w).2.
Proof.
  unfold Bedrock.get_client, with_instances; simpl.
  destruct (AWS.get_credentials _ _) as [[[creds|e] cm] tr]; simpl; [|done].
  destruct (Bedrock.config_credentials creds) as [d|e]; simpl; [|done].
  by destruct (Bedrock.boto3_client w).
Qed.

(** The dict that [get_credentials] returns is keyed [aws_access_key_id],
    [aws_secret_access_key], [aws_session_token]; line 26 of
    services/bedrock_client.py reads the key [AccessKeyId]. *)
Lemma config_credentials_key_error (c : AWS.sts_credentials) :
  Bedrock.config_credentials (Some (AWS.credentials_dict c))
  = Raise (KeyError "AccessKeyId").
Proof. reflexivity. Qed.

Lemma bedrock_get_client_after_refresh (self : Bedrock.state) op w :
  AWS._should_refresh_credentials (Bedrock.credentials_manager self)
    (AWS.utcnow_check (Bedrock.credentials_env w)) = true →
  (Bedrock.get_client self op w).1.1 = Raise (KeyError "AccessKeyId")
  ∨ ∃ detail,
      (Bedrock.get_client self op w).1.1 = Raise (HTTPException 500 detail).
Proof.
  intros Hstale. unfold Bedrock.get_client, AWS.get_credentials.
  rewrite Hstale.
  destruct (AWS._refresh_credentials _ _) as [[[u|e] s] t] eqn:Hr; simpl.
  - apply aws_refresh_ok in Hr as (h & tok & c & _ & _ & _ & _ & -> & _).
    rewrite config_credentials_key_error. by left.
  - right. eauto.
Qed.




(** * Further properties of the code *)

(** ** What a get returns *)

Lemma gcp_get_token_returns_cache (self self' : GCP.state) (w : GCP.env) o tr :
  GCP.get_token self w = (Ok o, self', tr) →
  ∃ tok, o = Some tok ∧ GCP.token_cache self' = Some tok.
Proof.
  unfold GCP.get_token.
  destruct (GCP._is_token_valid self (GCP.now_check w)) eqn:Hv.
  - intros [= <- <- _].
    apply gcp_valid_iff in Hv as (tok & e & Hc & _). eauto.
  - intros (h & tok & _ & _ & -> & Hc & _)%gcp_refresh_ok. eauto.
Qed.

Lemma gcp_headers_as_get_token (self : GCP.state) (w : GCP.env) :
  (GCP.get_authorization_headers self w).1.2 = (GCP.get_token self w).1.2
  ∧ (GCP.get_authorization_headers self w).2 = (GCP.get_token self w).2.
Proof.
  unfold GCP.get_authorization_headers.
  by destruct (GCP.get_token self w) as [[[o|e] s] t].
Qed.

Lemma gcp_get_token_trace (self : GCP.state) (w : GCP.env) :
  (GCP.get_token self w).2 = []
  ∨ ∃ a u, (GCP.get_token self w).2 = [EvIdentityRefresh a u].
Proof.
  unfold GCP.get_token.
  destruct (GCP._is_token_valid self (GCP.now_check w)); [by left|].
  unfold GCP.refresh_token.
  destruct (GCP.ensure_handle self w) as [h|e]; simpl; [|by left].
  destruct (GCP.refresh w) as [tok|e]; simpl; right; eauto.
Qed.

(** X1. [get_authorization_headers] is [get_token] with the token wrapped:
    it fails as [get_token] fails, leaves the manager and makes the outside
    calls as [get_token] does, and whenever it returns headers these are
    exactly [Authorization: Bearer <token>] and
    [Content-Type: application/json], where the token is the one the cache
    holds after the call. It never sends [Bearer None]. *)
Theorem authorization_headers_carry_cached_token :
  ∀ (self : GCP.state) (w : GCP.env),
    (GCP.get_authorization_headers self w).1.2 = (GCP.get_token self w).1.2
    ∧ (GCP.get_authorization_headers self w).2 = (GCP.get_token self w).2
    ∧ (∀ e, (GCP.get_token self w).1.1 = Raise e ↔
            (GCP.get_authorization_headers self w).1.1 = Raise e)
    ∧ (∀ headers, (GCP.get_authorization_headers self w).1.1 = Ok headers →
         ∃ tok,
           GCP.token_cache (GCP.get_authorization_headers self w).1.2 = Some tok
           ∧ (GCP.get_token self w).1.1 = Ok (Some tok)
           ∧ headers = <["Content-Type" := "application/json"]>
                         (<["Authorization" := "Bearer " +:+ tok]> ∅)
           ∧ headers !! "Authorization" = Some ("Bearer " +:+ tok)
           ∧ headers !! "Content-Type" = Some "application/json"
           ∧ size headers = 2).
Proof.
  intros self w. unfold GCP.get_authorization_headers.
  destruct (GCP.get_token self w) as [[[o|e] s] t] eqn:Hget; simpl.
  - split_and!; [done | done | by intros e; split | ].
    intros headers [= <-].
    apply gcp_get_token_returns_cache in Hget as (tok & -> & Hc).
    exists tok. split_and!; [done | done | done | | |].
    + by rewrite lookup_insert_ne, lookup_insert_eq.
    + by rewrite lookup_insert_eq.
    + rewrite map_size_insert_None, map_size_insert_None, map_size_empty; [done..|].
      by rewrite lookup_insert_ne.
  - split_and!; try done. intros e0; split; by intros [= <-].
Qed.

(** ** Constructors *)

(** X2. Both managers refuse to start without their settings: the
    constructor raises [ValueError] exactly when a required environment
    variable is unset or empty, and otherwise gives a manager with these
    settings, nothing cached, no handle and a refresh buffer of 300
    seconds; the AWS region falls back to [us-east-1] only when
    [AWS_REGION] is unset. *)
Theorem constructors_fail_fast :
  (∀ pool pid,
     match GCP.__init__ pool pid with
     | Ok self =>
         pool = Some (GCP.workload_identity_pool self)
         ∧ pid = Some (GCP.provider_id self)
         ∧ GCP.workload_identity_pool self ≠ "" ∧ GCP.provider_id self ≠ ""
         ∧ GCP.token_cache self = None ∧ GCP.token_expiry self = None
         ∧ GCP._credentials self = None ∧ GCP.refresh_buffer self = 300%Z
     | Raise e =>
         e = ValueError "Missing required GCP configuration"
         ∧ (pool = None ∨ pool = Some "" ∨ pid = None ∨ pid = Some "")
     end)
  ∧ (∀ role pool pid region_,
       match AWS.__init__ role pool pid region_ with
       | Ok self =>
           role = Some (AWS.aws_role_arn self)
           ∧ pool = Some (AWS.workload_identity_pool self)
           ∧ pid = Some (AWS.provider_id self)
           ∧ AWS.aws_role_arn self ≠ "" ∧ AWS.workload_identity_pool self ≠ ""
           ∧ AWS.provider_id self ≠ ""
           ∧ AWS.region self = match region_ with
                               | Some r => r
                               | None => "us-east-1"
                               end
           ∧ AWS._credentials_cache self = None
           ∧ AWS._credentials_expiry self = None
           ∧ AWS._google_credentials self = None
           ∧ AWS.session_duration self = 3600%Z
           ∧ AWS.refresh_buffer self = 300%Z
       | Raise e =>
           e = ValueError "Missing required AWS configuration"
           ∧ (role = None ∨ role = Some "" ∨ pool = None ∨ pool = Some ""
              ∨ pid = None ∨ pid = Some "")
       end).
Proof.
  assert (∀ s, str_truthy s = false → s = "") as Hempty.
  { intros s Hs. destruct (decide (s = "")) as [|Hne]; [done|].
    apply str_truthy_true in Hne. congruence. }
  split.
  - intros [p|] [i|]; unfold GCP.__init__; simpl;
      try (destruct (str_truthy p) eqn:Hp; simpl);
      try (destruct (str_truthy i) eqn:Hi; simpl);
      try apply Hempty in Hp as ->; try apply Hempty in Hi as ->;
      try (split; [done|]; tauto).
    apply str_truthy_true in Hp, Hi. by split_and!.
  - intros [r|] [p|] [i|] region_; unfold AWS.__init__; simpl;
      try (split; [done|]; tauto).
    destruct (str_truthy r) eqn:Hr; simpl;
      [|apply Hempty in Hr as ->; split; [done|]; tauto].
    destruct (str_truthy p) eqn:Hp; simpl;
      [|apply Hempty in Hp as ->; split; [done|]; tauto].
    destruct (str_truthy i) eqn:Hi; simpl;
      [|apply Hempty in Hi as ->; split; [done|]; tauto].
    apply str_truthy_true in Hr, Hp, Hi.
    by split_and!.
Qed.

Lemma authorization_headers_carry_cached_token_witness :
  (GCP.get_authorization_headers Scenario.token_manager0 Scenario.refresh_ok).1.1
  = Ok (<["Content-Type" := "application/json"]>
          (<["Authorization" := "Bearer ya29.a0"]> ∅))
  ∧ ∃ tok,
      GCP.token_cache
        (GCP.get_authorization_headers Scenario.token_manager0
           Scenario.refresh_ok).1.2 = Some tok
      ∧ (<["Content-Type" := "application/json"]>
           (<["Authorization" := "Bearer ya29.a0"]> ∅) : gmap string string)
        !! "Authorization" = Some ("Bearer " +:+ tok).
Proof.
  split; [reflexivity|].
  destruct (authorization_headers_carry_cached_token Scenario.token_manager0
              Scenario.refresh_ok) as (_ & _ & _ & H).
  destruct (H _ eq_refl) as (tok & Hc & _ & _ & Ha & _).
  exists tok. by split.
Defined.

(** ** The credential handle *)

Lemma gcp_get_token_keeps_inv (self0 self : GCP.state) (w : GCP.env) :
  Inv.gcp_handle_inv self0 self →
  Inv.gcp_handle_inv self0 (GCP.get_token self w).1.2
  ∧ ∀ ev, ev ∈ (GCP.get_token self w).2 →
          ev = EvIdentityRefresh (GCP.provider_id self0)
                                 (GCP.workload_identity_pool self0).
Proof.
  intros (Hp & Hi & Hb & Hh). unfold GCP.get_token.
  destruct (GCP._is_token_valid self (GCP.now_check w)); simpl.
  { split; [done|]. by intros ev ?%elem_of_nil. }
  unfold GCP.refresh_token, GCP.ensure_handle.
  destruct (GCP._credentials self) as [h|] eqn:Hc.
  - destruct Hh as (Ha & Hu & _ & _).
    destruct (GCP.refresh w) as [tok|e]; simpl.
    + split.
      * unfold Inv.gcp_handle_inv; simpl. by split_and!.
      * intros ev ->%list_elem_of_singleton. by rewrite Ha, Hu.
    + split.
      * unfold Inv.gcp_handle_inv; simpl. by split_and!.
      * intros ev ->%list_elem_of_singleton. by rewrite Ha, Hu.
  - destruct (GCP.construct w) as [e|]; simpl.
    { split; [|by intros ev ?%elem_of_nil].
      unfold Inv.gcp_handle_inv; simpl. by split_and!. }
    destruct (GCP.refresh w) as [tok|e]; simpl.
    + split.
      * unfold Inv.gcp_handle_inv; simpl. by split_and!.
      * intros ev ->%list_elem_of_singleton. by rewrite Hp, Hi.
    + split.
      * unfold Inv.gcp_handle_inv; simpl. by split_and!.
      * intros ev ->%list_elem_of_singleton. by rewrite Hp, Hi.
Qed.

Lemma gcp_step_keeps_inv (self0 self : GCP.state) (op : gcp_op) :
  Inv.gcp_handle_inv self0 self → Inv.gcp_handle_inv self0 (gcp_step self op).
Proof.
  intros Hinv. destruct op as [w|w|]; simpl.
  - by apply gcp_get_token_keeps_inv.
  - destruct (gcp_headers_as_get_token self w) as (-> & _).
    by apply gcp_get_token_keeps_inv.
  - destruct Hinv as (? & ? & ? & _). unfold Inv.gcp_handle_inv; simpl.
    by split_and!.
Qed.

Lemma gcp_run_keeps_inv (ops : list gcp_op) (self0 self : GCP.state) :
  Inv.gcp_handle_inv self0 self → Inv.gcp_handle_inv self0 (gcp_run self ops).
Proof.
  revert self. induction ops as [|op ops IH]; intros self Hinv; [done|].
  by apply IH, gcp_step_keeps_inv.
Qed.

Lemma aws_refresh_keeps_inv (self0 self : AWS.state) (w : AWS.env) :
  Inv.aws_handle_inv self0 self →
  Inv.aws_handle_inv self0 (AWS._refresh_credentials self w).1.2
  ∧ ∀ ev, ev ∈ (AWS._refresh_credentials self w).2 →
          ev = EvIdentityRefresh (AWS.provider_id self0)
                                 (AWS.workload_identity_pool self0)
          ∨ ∃ stamp tok, ev = EvAssumeRole (AWS.aws_role_arn self0) stamp
                                (Some tok) (AWS.session_duration self0).
Proof.
  intros (Hr & Hp & Hi & Hg & Hd & Hb & Hh).
  assert (∃ h, AWS.ensure_handle self w = Ok h
               ∧ GCP.audience h = AWS.provider_id self0
               ∧ GCP.token_url h = AWS.workload_identity_pool self0
          ∨ (∃ e, AWS.ensure_handle self w = Raise e)) as [h [(He & Ha & Hu)|[e He]]].
  { unfold AWS.ensure_handle.
    destruct (AWS._google_credentials self) as [h|].
    - exists h. left. by destruct Hh as (? & ? & _).
    - destruct (AWS.construct w) as [e|].
      + exists {| GCP.audience := ""; GCP.token_url := ""; GCP.token := None |}.
        right. eauto.
      + eexists. left. split_and!; [done | by simpl | by simpl]. }
  - unfold AWS._refresh_credentials. rewrite He, Ha, Hu.
    destruct (AWS.google_refresh w) as [tok|e]; simpl.
    + destruct (AWS.sts_client w) as [e|]; simpl.
      * split; [by unfold Inv.aws_handle_inv; simpl; split_and!|].
        intros ev ->%list_elem_of_singleton. by left.
      * destruct (AWS.assume_role w) as [c|e]; simpl.
        -- split; [by unfold Inv.aws_handle_inv; simpl; split_and!|].
           intros ev [->|[->|?%elem_of_nil]%elem_of_cons]%elem_of_cons;
             [by left | | done].
           right. exists (AWS.utcnow_session w), tok. by rewrite Hr, Hd.
        -- split; [by unfold Inv.aws_handle_inv; simpl; split_and!|].
           intros ev [->|[->|?%elem_of_nil]%elem_of_cons]%elem_of_cons;
             [by left | | done].
           right. exists (AWS.utcnow_session w), tok. by rewrite Hr, Hd.
    + split; [by unfold Inv.aws_handle_inv; simpl; split_and!|].
      intros ev ->%list_elem_of_singleton. by left.
  - unfold AWS._refresh_credentials. rewrite He. simpl.
    split; [by unfold Inv.aws_handle_inv; simpl; split_and!|].
    by intros ev ?%elem_of_nil.
Qed.

Lemma aws_clear_keeps_inv (self0 self : AWS.state) :
  Inv.aws_handle_inv self0 self → Inv.aws_handle_inv self0 (AWS.clear_cache self).
Proof.
  intros (? & ? & ? & ? & ? & ? & _). unfold Inv.aws_handle_inv; simpl.
  by split_and!.
Qed.

Lemma aws_get_credentials_keeps_inv (self0 self : AWS.state) (w : AWS.env) :
  Inv.aws_handle_inv self0 self →
  Inv.aws_handle_inv self0 (AWS.get_credentials self w).1.2
  ∧ ∀ ev, ev ∈ (AWS.get_credentials self w).2 →
          ev = EvIdentityRefresh (AWS.provider_id self0)
                                 (AWS.workload_identity_pool self0)
          ∨ ∃ stamp tok, ev = EvAssumeRole (AWS.aws_role_arn self0) stamp
                                (Some tok) (AWS.session_duration self0).
Proof.
  intros Hinv. unfold AWS.get_credentials.
  destruct (AWS._should_refresh_credentials self (AWS.utcnow_check w)); simpl.
  - destruct (aws_refresh_keeps_inv self0 self w Hinv) as (Hs & Ht).
    destruct (AWS._refresh_credentials self w) as [[[u|e] s] t]; simpl in *.
    + done.
    + split; [by apply aws_clear_keeps_inv | done].
  - split; [done|]. by intros ev ?%elem_of_nil.
Qed.

Lemma aws_step_keeps_inv (self0 self : AWS.state) (op : aws_op) :
  Inv.aws_handle_inv self0 self → Inv.aws_handle_inv self0 (aws_step self op).
Proof.
  intros Hinv. destruct op as [w|w|]; simpl.
  - by apply aws_get_credentials_keeps_inv.
  - by apply aws_refresh_keeps_inv.
  - by apply aws_clear_keeps_inv.
Qed.

Lemma aws_run_keeps_inv (ops : list aws_op) (self0 self : AWS.state) :
  Inv.aws_handle_inv self0 self → Inv.aws_handle_inv self0 (aws_run self ops).
Proof.
  revert self. induction ops as [|op ops IH]; intros self Hinv; [done|].
  by apply IH, aws_step_keeps_inv.
Qed.

(** X3. In every state a manager reaches from its constructor, the
    settings are those of the constructor and the lazily built credential
    handle exists exactly when something is cached: it was built from the
    manager's own provider id and pool URL, holds the token of its last
    refresh (for the token manager: the cached token), and every call a
    get then makes goes to that provider, with the configured role and
    session duration for STS. *)
Theorem handle_follows_cache :
  (∀ pool pid (self0 : GCP.state) (ops : list gcp_op) (w : GCP.env),
     GCP.__init__ pool pid = Ok self0 →
     Inv.gcp_handle_inv self0 (gcp_run self0 ops)
     ∧ (is_Some (GCP._credentials (gcp_run self0 ops))
        ↔ is_Some (GCP.token_cache (gcp_run self0 ops)))
     ∧ ∀ ev, ev ∈ (GCP.get_token (gcp_run self0 ops) w).2 →
             ev = EvIdentityRefresh (GCP.provider_id self0)
                                    (GCP.workload_identity_pool self0))
  ∧ (∀ role pool pid region_ (self0 : AWS.state) (ops : list aws_op)
       (w : AWS.env),
       AWS.__init__ role pool pid region_ = Ok self0 →
       Inv.aws_handle_inv self0 (aws_run self0 ops)
       ∧ (is_Some (AWS._google_credentials (aws_run self0 ops))
          ↔ is_Some (AWS._credentials_cache (aws_run self0 ops)))
       ∧ ∀ ev, ev ∈ (AWS.get_credentials (aws_run self0 ops) w).2 →
               ev = EvIdentityRefresh (AWS.provider_id self0)
                                      (AWS.workload_identity_pool self0)
               ∨ ∃ stamp tok,
                   ev = EvAssumeRole (AWS.aws_role_arn self0) stamp (Some tok)
                                     (AWS.session_duration self0)).
Proof.
  split.
  - intros pool pid self0 ops w (Hc & _ & Hh & _)%gcp_init_empty.
    assert (Inv.gcp_handle_inv self0 (gcp_run self0 ops)) as Hinv.
    { apply gcp_run_keeps_inv. unfold Inv.gcp_handle_inv. by rewrite Hh, Hc. }
    split_and!; [done | | by apply gcp_get_token_keeps_inv].
    destruct Hinv as (_ & _ & _ & Hinv).
    destruct (GCP._credentials (gcp_run self0 ops)) as [h|].
    + destruct Hinv as (_ & _ & Hs & <-). by split.
    + rewrite Hinv. by split; intros [? ?].
  - intros role pool pid region_ self0 ops w (Hc & _ & Hh & _)%aws_init_empty.
    assert (Inv.aws_handle_inv self0 (aws_run self0 ops)) as Hinv.
    { apply aws_run_keeps_inv. unfold Inv.aws_handle_inv. by rewrite Hh, Hc. }
    split_and!; [done | | by apply aws_get_credentials_keeps_inv].
    destruct Hinv as (_ & _ & _ & _ & _ & _ & Hinv).
    destruct (AWS._google_credentials (aws_run self0 ops)) as [h|].
    + destruct Hinv as (_ & _ & _ & Hs). by split.
    + rewrite Hinv. by split; intros [? ?].
Qed.

Lemma handle_follows_cache_witness :
  GCP.__init__ (Some "https://sts.googleapis.com/v1/token")
               (Some "//iam.googleapis.com/projects/1/providers/aws")
  = Ok Scenario.token_manager0
  ∧ (is_Some (GCP._credentials
                (gcp_run Scenario.token_manager0
                   [GetToken Scenario.refresh_ok;
                    GetToken (Scenario.failing_at (seconds 3301))]))
     ↔ is_Some (GCP.token_cache
                  (gcp_run Scenario.token_manager0
                     [GetToken Scenario.refresh_ok;
                      GetToken (Scenario.failing_at (seconds 3301))])))
  ∧ AWS.__init__ (Some "arn:aws:iam::123456789012:role/bedrock-proxy")
                 (Some "https://sts.googleapis.com/v1/token")
                 (Some "//iam.googleapis.com/projects/1/providers/aws") None
    = Ok Scenario.credentials_manager0
  ∧ (is_Some (AWS._google_credentials
                (aws_run Scenario.credentials_manager0
                   [GetCredentials Scenario.exchange_ok]))
     ↔ is_Some (AWS._credentials_cache
                  (aws_run Scenario.credentials_manager0
                     [GetCredentials Scenario.exchange_ok]))).
Proof.
  destruct handle_follows_cache as (Hgcp & Haws).
  split_and!.
  - reflexivity.
  - apply (Hgcp (Some "https://sts.googleapis.com/v1/token")
                (Some "//iam.googleapis.com/projects/1/providers/aws")
                Scenario.token_manager0 _ Scenario.refresh_ok eq_refl).
  - reflexivity.
  - apply (Haws (Some "arn:aws:iam::123456789012:role/bedrock-proxy")
                (Some "https://sts.googleapis.com/v1/token")
                (Some "//iam.googleapis.com/projects/1/providers/aws") None
                Scenario.credentials_manager0 _ Scenario.exchange_ok eq_refl).
Defined.

(** ** After a clear *)

Lemma gcp_get_token_raise_clears (self self' : GCP.state) (w : GCP.env) e tr :
  GCP.get_token self w = (Raise e, self', tr) → self' = GCP.clear_cache self.
Proof.
  unfold GCP.get_token.
  destruct (GCP._is_token_valid self (GCP.now_check w)); [done|].
  by intros (? & _ & _ & ->)%gcp_refresh_raise.
Qed.

Lemma aws_get_credentials_raise_clears
      (self self' : AWS.state) (w : AWS.env) e tr :
  AWS.get_credentials self w = (Raise e, self', tr) →
  self' = AWS.clear_cache self.
Proof.
  unfold AWS.get_credentials.
  destruct (AWS._should_refresh_credentials self (AWS.utcnow_check w)); [|done].
  destruct (AWS._refresh_credentials self w) as [[[u|e0] s] t] eqn:Hr; [done|].
  apply aws_refresh_raise in Hr as (? & _ & _ & ->). by intros [= _ <- _].
Qed.

(** X4. A get that fails leaves the manager exactly as [clear_cache] does,
    and on a cleared manager the next get never answers from memory,
    whatever the clock reads: it builds the handle anew from the settings
    and goes to the identity provider (when building the handle raises,
    it fails without any outside call), and what it returns is what the
    outside world has just answered. *)
Theorem cleared_manager_reauthenticates :
  (∀ (self self' : GCP.state) (w : GCP.env) e tr,
     GCP.get_token self w = (Raise e, self', tr) → self' = GCP.clear_cache self)
  ∧ (∀ (self : GCP.state) (w : GCP.env),
       match GCP.construct w, GCP.refresh w with
       | Some e, _ =>
           GCP.get_token (GCP.clear_cache self) w
           = (Raise (GCP.auth_error e), GCP.clear_cache self, [])
       | None, Raise e =>
           GCP.get_token (GCP.clear_cache self) w
           = (Raise (GCP.auth_error e), GCP.clear_cache self,
              [EvIdentityRefresh (GCP.provider_id self)
                                 (GCP.workload_identity_pool self)])
       | None, Ok tok =>
           ∃ self',
             GCP.get_token (GCP.clear_cache self) w
             = (Ok (Some tok), self',
                [EvIdentityRefresh (GCP.provider_id self)
                                   (GCP.workload_identity_pool self)])
             ∧ GCP.token_cache self' = Some tok
             ∧ GCP.token_expiry self' = Some (GCP.now_set w + seconds 3600)%Z
       end)
  ∧ (∀ (self self' : AWS.state) (w : AWS.env) e tr,
       AWS.get_credentials self w = (Raise e, self', tr) →
       self' = AWS.clear_cache self)
  ∧ (∀ (self : AWS.state) (w : AWS.env),
       match AWS.construct w with
       | Some e =>
           AWS.get_credentials (AWS.clear_cache self) w
           = (Raise (AWS.auth_error (AWS.refresh_error e)),
              AWS.clear_cache self, [])
       | None =>
           ∃ r self' tr,
             AWS.get_credentials (AWS.clear_cache self) w
             = (r, self',
                EvIdentityRefresh (AWS.provider_id self)
                                  (AWS.workload_identity_pool self) :: tr)
             ∧ ∀ o, r = Ok o →
                    ∃ c, AWS.assume_role w = Ok c
                         ∧ o = Some (AWS.credentials_dict c)
       end).
Proof.
  split_and!.
  - apply gcp_get_token_raise_clears.
  - intros self w. unfold GCP.get_token, GCP.refresh_token, GCP.ensure_handle.
    simpl. destruct (GCP.construct w) as [e|]; [done|].
    destruct (GCP.refresh w) as [tok|e]; [|done]. by eexists.
  - apply aws_get_credentials_raise_clears.
  - intros self w.
    unfold AWS.get_credentials, AWS._refresh_credentials, AWS.ensure_handle.
    simpl. destruct (AWS.construct w) as [e|]; [done|].
    destruct (AWS.google_refresh w) as [tok|e]; simpl.
    + destruct (AWS.sts_client w) as [e|]; simpl.
      * eexists _, _, _. split; [done|]. by intros o [=].
      * destruct (AWS.assume_role w) as [c|e]; simpl.
        -- eexists _, _, _. split; [done|]. intros o [= <-]. by exists c.
        -- eexists _, _, _. split; [done|]. by intros o [=].
    + eexists _, _, _. split; [done|]. by intros o [=].
Qed.

Lemma cleared_manager_reauthenticates_witness :
  (GCP.get_token Scenario.token_manager1 (Scenario.failing_at (seconds 3301))).1.1
  = Raise (GCP.auth_error (Exception_ (Text "invalid_grant")))
  ∧ (GCP.get_token Scenario.token_manager1
       (Scenario.failing_at (seconds 3301))).1.2
    = GCP.clear_cache Scenario.token_manager1.
Proof.
  destruct cleared_manager_reauthenticates as (H & _).
  split; [reflexivity|].
  apply (H Scenario.token_manager1 _ (Scenario.failing_at (seconds 3301))
           (GCP.auth_error (Exception_ (Text "invalid_grant")))
           [EvIdentityRefresh "//iam.googleapis.com/projects/1/providers/aws"
                              "https://sts.googleapis.com/v1/token"]).
  reflexivity.
Defined.

(** ** The margin of a valid entry *)

Lemma parse_expiration_bounds (t : Z) :
  (AWS.parse_expiration t ≤ t < AWS.parse_expiration t + seconds 1)%Z.
Proof.
  unfold AWS.parse_expiration, seconds.
  pose proof (Z.div_mod t 1000000 ltac:(lia)) as Hdm.
  pose proof (Z.mod_pos_bound t 1000000 ltac:(lia)) as Hmod.
  lia.
Qed.

Lemma parse_expiration_whole (t : Z) :
  AWS.parse_expiration t = seconds (t / 1000000).
Proof. reflexivity. Qed.

Lemma parse_expiration_idem (t : Z) :
  AWS.parse_expiration (AWS.parse_expiration t) = AWS.parse_expiration t.
Proof.
  unfold AWS.parse_expiration. by rewrite Z.div_mul by lia.
Qed.

(** X5. The expiry stored for a credential set is the STS expiration cut
    down to the whole second: never later than what STS said, less than
    one second earlier, and unchanged by a second parse. Hence a
    credential set that the manager judges valid at some instant still
    has more than the refresh buffer left before STS lets it expire. *)
Theorem valid_credentials_have_margin :
  (∀ t, (AWS.parse_expiration t ≤ t < AWS.parse_expiration t + seconds 1)%Z
        ∧ AWS.parse_expiration (AWS.parse_expiration t) = AWS.parse_expiration t
        ∧ AWS.parse_expiration t = seconds (t / 1000000))
  ∧ (∀ (self self' : AWS.state) (w : AWS.env) creds tr c now,
       AWS._should_refresh_credentials self (AWS.utcnow_check w) = true →
       AWS.get_credentials self w = (Ok creds, self', tr) →
       AWS.assume_role w = Ok c →
       credentials_valid self' now = true →
       (now + seconds (AWS.refresh_buffer self) < AWS.Expiration c)%Z).
Proof.
  split.
  - intros t. split; [|split].
    + apply parse_expiration_bounds.
    + apply parse_expiration_idem.
    + apply parse_expiration_whole.
  - intros self self' w creds tr c now Hstale Hget Hc Hvalid.
    unfold AWS.get_credentials in Hget. rewrite Hstale in Hget.
    destruct (AWS._refresh_credentials self w) as [[[u|e] s] t] eqn:Hr; [|done].
    injection Hget as <- <- <-.
    apply aws_refresh_ok in Hr
      as (h & tok & c' & _ & _ & _ & Hc' & _ & He & _ & Hb & _).
    assert (c' = c) as -> by congruence.
    apply aws_valid_iff in Hvalid as (d & e & _ & _ & He' & Hlt).
    rewrite He in He'. injection He' as <-. rewrite Hb in Hlt.
    pose proof (parse_expiration_bounds (AWS.Expiration c)). lia.
Qed.

Lemma valid_credentials_have_margin_witness :
  AWS._should_refresh_credentials Scenario.credentials_manager0
    (AWS.utcnow_check Scenario.exchange_ok) = true
  ∧ credentials_valid Scenario.credentials_manager1 (seconds 3300) = true
  ∧ (seconds 3300 + seconds (AWS.refresh_buffer Scenario.credentials_manager0)
     < AWS.Expiration Scenario.triple)%Z.
Proof.
  destruct valid_credentials_have_margin as (_ & H).
  split_and!; [reflexivity | reflexivity |].
  apply (H Scenario.credentials_manager0 Scenario.credentials_manager1
           Scenario.exchange_ok _ _ Scenario.triple (seconds 3300)
           eq_refl eq_refl eq_refl eq_refl).
Defined.

(** ** The order of the outside calls *)

(** X6. One [get_credentials] makes no outside call, or one identity
    refresh, or one identity refresh followed by one STS call, and nothing
    else. STS is called only after the identity refresh has succeeded and
    the STS client was built, and it is handed the token of that refresh,
    the configured role and the configured session duration. One
    [get_token] makes at most one call, an identity refresh. A get on a
    valid cache makes none. *)
Theorem exchange_follows_identity_refresh :
  (∀ (self : AWS.state) (w : AWS.env),
     ((AWS.get_credentials self w).2 = []
      ∨ (∃ a u, (AWS.get_credentials self w).2 = [EvIdentityRefresh a u])
      ∨ (∃ a u tok,
           (AWS.get_credentials self w).2
           = [EvIdentityRefresh a u;
              EvAssumeRole (AWS.aws_role_arn self) (AWS.utcnow_session w)
                           (Some tok) (AWS.session_duration self)]
           ∧ AWS.google_refresh w = Ok tok
           ∧ AWS.sts_client w = None))
     ∧ (credentials_valid self (AWS.utcnow_check w) = true →
        (AWS.get_credentials self w).2 = []))
  ∧ (∀ (self : GCP.state) (w : GCP.env),
       ((GCP.get_token self w).2 = []
        ∨ ∃ a u, (GCP.get_token self w).2 = [EvIdentityRefresh a u])
       ∧ (GCP._is_token_valid self (GCP.now_check w) = true →
          (GCP.get_token self w).2 = [])).
Proof.
  split.
  - intros self w. split.
    + unfold AWS.get_credentials.
      destruct (AWS._should_refresh_credentials self (AWS.utcnow_check w));
        [|by left].
      unfold AWS._refresh_credentials.
      destruct (AWS.ensure_handle self w) as [h|e]; simpl; [|by left].
      destruct (AWS.google_refresh w) as [tok|e]; simpl; [|right; left; eauto].
      destruct (AWS.sts_client w) as [e|]; simpl; [right; left; eauto|].
      destruct (AWS.assume_role w) as [c|e]; simpl; right; right; eauto 7.
    + intros Hv. apply negb_true_iff in Hv.
      by rewrite aws_get_credentials_valid.
  - intros self w. split.
    + apply gcp_get_token_trace.
    + intros Hv. by rewrite gcp_get_token_valid.
Qed.

Lemma exchange_follows_identity_refresh_witness :
  credentials_valid Scenario.credentials_manager1
    (AWS.utcnow_check (Scenario.exchange_at (seconds 2))) = true
  ∧ (AWS.get_credentials Scenario.credentials_manager1
       (Scenario.exchange_at (seconds 2))).2 = [].
Proof.
  destruct exchange_follows_identity_refresh as (H & _).
  split; [reflexivity|].
  apply (H Scenario.credentials_manager1 (Scenario.exchange_at (seconds 2))).
  reflexivity.
Defined.

(** ** The gateway validator *)

Lemma is_approved_true (o : option pyval) :
  is_approved o = true ↔ o = Some (PStr "approved").
Proof.
  destruct o as [[]|]; simpl; try (split; [done | by intros [=]]).
  rewrite String.eqb_eq. split; [by intros -> | by intros [= ->]].
Qed.

Lemma raise_for_status_ok (r : Gateway.response) :
  Gateway.raise_for_status r = Ok tt
  ↔ (200 ≤ Gateway.status_code r ≤ 299)%Z.
Proof.
  unfold Gateway.raise_for_status.
  destruct (_ && _) eqn:H.
  - apply andb_true_iff in H as [?%Z.leb_le ?%Z.leb_le]. by split.
  - split; [done|]. intros [?%Z.leb_le ?%Z.leb_le].
    apply andb_false_iff in H as [H|H]; congruence.
Qed.

Lemma raise_for_status_raise (r : Gateway.response) e :
  Gateway.raise_for_status r = Raise e → e = HTTPError (Text "HTTPStatusError").
Proof.
  unfold Gateway.raise_for_status. destruct (_ && _); [done|]. by intros [= <-].
Qed.

Lemma approved_iff (post : result Gateway.response) :
  Serve.approved post ↔
  ∃ resp d, post = Ok resp
            ∧ (200 ≤ Gateway.status_code resp ≤ 299)%Z
            ∧ Gateway.json resp = Ok (PDict d)
            ∧ d !! "status" = Some (PStr "approved").
Proof.
  unfold Serve.approved. split; intros (resp & d & ? & Hs & ? & ?);
    exists resp, d; split_and!; try done; by apply raise_for_status_ok.
Qed.

(** X7. [validate_request] returns a verdict exactly when the token
    manager gave headers and the gateway answered 2xx with a JSON object
    whose [status] is the string "approved"; it then returns that object
    unchanged, after exactly one POST, of the given payload with the
    manager's headers, to the configured URL, made after the calls of the
    token manager. *)
Theorem validate_request_returns_approved_verdict :
  ∀ (self self' : Gateway.state) (payload v : pyval) (w : Gateway.env) tr,
    Gateway.validate_request self payload w = (Ok v, self', tr) ↔
    ∃ headers tm tr0 d,
      GCP.get_authorization_headers (Gateway.token_manager self)
        (Gateway.token_env w) = (Ok headers, tm, tr0)
      ∧ Serve.approved (Gateway.post w)
      ∧ (∃ resp, Gateway.post w = Ok resp ∧ Gateway.json resp = Ok (PDict d))
      ∧ v = PDict d
      ∧ self' = Gateway.with_token_manager self tm
      ∧ tr = tr0 ++ [EvGatewayPost (Gateway.gateway_url self) payload headers].
Proof.
  intros self self' payload v w tr.
  unfold Gateway.validate_request, Gateway.validate_body, Serve.approved.
  destruct (GCP.get_authorization_headers _ _) as [[[headers|e] tm] tr0].
  - destruct (Gateway.post w) as [resp|e].
    + destruct (Gateway.raise_for_status resp) as [[]|e] eqn:Hs.
      * destruct (Gateway.json resp) as [[]|e] eqn:Hj; simpl;
          try (split; [done|];
               intros (? & ? & ? & ? & _ & (? & ? & [= <-] & _ & ? & _) & _);
               congruence).
        destruct (is_approved (d !! "status")) eqn:Ha; simpl.
        -- apply is_approved_true in Ha. split.
           ++ intros [= <- <- <-]. exists headers, tm, tr0, d.
              split_and!; eauto 8.
           ++ intros (? & ? & ? & d' & [= <- <- <-] & _ & (r & [= <-] & Hd)
                      & -> & -> & ->).
              rewrite Hj in Hd. by injection Hd as <-.
        -- split; [done|].
           intros (? & ? & ? & ? & _ & (r & d' & [= <-] & _ & Hd & Hst) & _).
           rewrite Hj in Hd. injection Hd as <-.
           apply is_approved_true in Hst. congruence.
      * simpl. split; [done|].
        intros (? & ? & ? & ? & _ & (r & d' & [= <-] & ? & _) & _). congruence.
    + simpl. split; [done|].
      by intros (? & ? & ? & ? & _ & (r & d' & ? & _) & _).
  - simpl. split; [done|]. by intros (? & ? & ? & ? & ? & _).
Qed.

Lemma validate_request_returns_approved_verdict_witness :
  Gateway.validate_request Scenario.gateway0
    (request_dict (Scenario.request "InvokeModel"))
    (Scenario.gateway_world "approved")
  = (Ok (PDict {["status" := PStr "approved"]}),
     Gateway.with_token_manager Scenario.gateway0 Scenario.token_manager1,
     [EvIdentityRefresh "//iam.googleapis.com/projects/1/providers/aws"
                        "https://sts.googleapis.com/v1/token";
      EvGatewayPost "https://gateway.example/validate"
        (request_dict (Scenario.request "InvokeModel"))
        (<["Content-Type" := "application/json"]>
           (<["Authorization" := "Bearer ya29.a0"]> ∅))]).
Proof.
  apply validate_request_returns_approved_verdict.
  eexists _, _, _, _. split_and!.
  - reflexivity.
  - eexists _, _. split_and!; reflexivity.
  - eexists. split; reflexivity.
  - reflexivity.
  - reflexivity.
  - reflexivity.
Defined.

(** X8. How [validate_request] fails. Every failure is an
    [HTTPException] with status 500: "GCP Gateway request failed" when the
    cause is an [httpx.HTTPError] (transport errors, and every status
    outside 2xx), "Validation error" for every other cause (a failed token
    refresh, a body that is not JSON, a JSON value that is not an object,
    a verdict other than "approved"). When the token manager fails,
    nothing is posted to the gateway; otherwise exactly one POST is made. *)
Theorem validate_request_failures :
  ∀ (self : Gateway.state) (payload : pyval) (w : Gateway.env),
    (∀ self' e tr,
       Gateway.validate_request self payload w = (Raise e, self', tr) →
       ∃ cause,
         Gateway.validate_body self payload w = (Raise cause, self', tr)
         ∧ ((∃ why, cause = HTTPError why)
            ∧ e = HTTPException 500 (Fmt "GCP Gateway request failed: " cause)
            ∨ (∀ why, cause ≠ HTTPError why)
              ∧ e = HTTPException 500 (Fmt "Validation error: " cause)))
    ∧ (∀ e tm tr0,
         GCP.get_authorization_headers (Gateway.token_manager self)
           (Gateway.token_env w) = (Raise e, tm, tr0) →
         (Gateway.validate_body self payload w).1.1 = Raise e
         ∧ (Gateway.validate_request self payload w).2 = tr0
         ∧ filter is_gateway_post (Gateway.validate_request self payload w).2 = [])
    ∧ (∀ headers tm tr0,
         GCP.get_authorization_headers (Gateway.token_manager self)
           (Gateway.token_env w) = (Ok headers, tm, tr0) →
         (Gateway.validate_request self payload w).2
         = tr0 ++ [EvGatewayPost (Gateway.gateway_url self) payload headers]
         ∧ (∀ resp, Gateway.post w = Ok resp →
              ¬ (200 ≤ Gateway.status_code resp ≤ 299)%Z →
              (Gateway.validate_request self payload w).1.1
              = Raise (HTTPException 500
                         (Fmt "GCP Gateway request failed: "
                            (HTTPError (Text "HTTPStatusError")))))
         ∧ (∀ e, Gateway.post w = Raise e →
              (Gateway.validate_body self payload w).1.1 = Raise e)
         ∧ (∀ resp v, Gateway.post w = Ok resp →
              (200 ≤ Gateway.status_code resp ≤ 299)%Z →
              Gateway.json resp = Ok v →
              (∀ d, v ≠ PDict d) →
              (Gateway.validate_request self payload w).1.1
              = Raise (HTTPException 500
                         (Fmt "Validation error: " (AttributeError "get"))))).
Proof.
  intros self payload w. split_and!.
  - intros self' e tr. unfold Gateway.validate_request.
    destruct (Gateway.validate_body self payload w) as [[[v|cause] s] t]; [done|].
    intros [= <- <- <-]. exists cause. split; [done|].
    destruct cause; simpl; try (right; split; [done|]; reflexivity).
    left. eauto.
  - intros e tm tr0 Hh.
    unfold Gateway.validate_request, Gateway.validate_body. rewrite Hh. simpl.
    split_and!; [done | done |].
    pose proof (gcp_headers_as_get_token
                  (Gateway.token_manager self) (Gateway.token_env w))
      as (_ & Htr).
    rewrite Hh in Htr. simpl in Htr. rewrite Htr.
    by destruct (gcp_get_token_trace (Gateway.token_manager self)
                   (Gateway.token_env w)) as [-> | (a & u & ->)].
  - intros headers tm tr0 Hh.
    unfold Gateway.validate_request, Gateway.validate_body. rewrite Hh.
    split_and!.
    + destruct (Gateway.post w) as [resp|e]; [|done].
      destruct (Gateway.raise_for_status resp) as [[]|e]; [|done].
      destruct (Gateway.json resp) as [v|e]; [|done].
      destruct (py_get v "status") as [o|e]; [|done].
      by destruct (is_approved o).
    + intros resp -> Hs.
      destruct (Gateway.raise_for_status resp) as [[]|e] eqn:Hr.
      * by apply raise_for_status_ok in Hr.
      * by apply raise_for_status_raise in Hr as ->.
    + by intros e ->.
    + intros resp v -> Hs Hj Hnd.
      apply raise_for_status_ok in Hs. rewrite Hs, Hj.
      destruct v; try done. by destruct (Hnd d).
Qed.

Lemma validate_request_failures_witness :
  GCP.get_authorization_headers (Gateway.token_manager Scenario.gateway0)
    (Gateway.token_env (Examples.gateway_down (seconds 0)))
  = (Raise (GCP.auth_error (Exception_ (Text "invalid_grant"))),
     GCP.clear_cache Scenario.token_manager0, 
     [EvIdentityRefresh "//iam.googleapis.com/projects/1/providers/aws"
                        "https://sts.googleapis.com/v1/token"])
  ∧ filter is_gateway_post
      (Gateway.validate_request Scenario.gateway0 PNone
         (Examples.gateway_down (seconds 0))).2 = [].
Proof.
  split; [reflexivity|].
  destruct (validate_request_failures Scenario.gateway0 PNone
              (Examples.gateway_down (seconds 0))) as (_ & H & _).
  apply (H _ _ _ eq_refl).
Defined.

(** ** Forwarding to the gateway in proxyapp.py *)

Lemma forward_to_gcp_ok (self : ProxyApp.state) payload w v tr :
  ProxyApp.forward_to_gcp self payload w = (Ok v, tr) ↔
  ProxyApp.enter_client w = None
  ∧ ∃ resp, ProxyApp.post w = Ok resp
            ∧ Gateway.raise_for_status resp = Ok tt
            ∧ Gateway.json resp = Ok v
            ∧ tr = [EvGatewayPost (ProxyApp.GCP_GATEWAY_URL self) payload
                      (<["Content-Type" := "application/json"]> ∅)].
Proof.
  unfold ProxyApp.forward_to_gcp, ProxyApp.forward_body.
  destruct (ProxyApp.enter_client w) as [e|].
  { split; [by destruct e | by intros [? _]]. }
  destruct (ProxyApp.post w) as [resp|e].
  - destruct (Gateway.raise_for_status resp) as [[]|e] eqn:Hs.
    + destruct (Gateway.json resp) as [v'|e] eqn:Hj.
      * split.
        -- intros [= <- <-]. split; [done|]. by exists resp.
        -- by intros (_ & r & [= <-] & _ & Hv & ->); rewrite Hj in Hv;
             injection Hv as <-.
      * split; [by destruct e|].
        intros (_ & r & [= <-] & _ & Hv & _). congruence.
    + split; [by destruct e|].
      intros (_ & r & [= <-] & ? & _). congruence.
  - split; [by destruct e|]. by intros (_ & r & ? & _).
Qed.

Lemma forward_to_gcp_trace (self : ProxyApp.state) payload w :
  (ProxyApp.forward_to_gcp self payload w).2 = []
  ∧ is_Some (ProxyApp.enter_client w)
  ∨ (ProxyApp.forward_to_gcp self payload w).2
    = [EvGatewayPost (ProxyApp.GCP_GATEWAY_URL self) payload
         (<["Content-Type" := "application/json"]> ∅)]
    ∧ ProxyApp.enter_client w = None.
Proof.
  unfold ProxyApp.forward_to_gcp, ProxyApp.forward_body.
  destruct (ProxyApp.enter_client w) as [e|].
  { left. by destruct e. }
  right. split; [|done].
  destruct (ProxyApp.post w) as [resp|e]; [|by destruct e].
  destruct (Gateway.raise_for_status resp) as [[]|e]; [|by destruct e].
  by destruct (Gateway.json resp) as [v|[]].
Qed.

Lemma forward_to_gcp_raise (self : ProxyApp.state) payload w e tr :
  ProxyApp.forward_to_gcp self payload w = (Raise e, tr) →
  (∃ why, ProxyApp.forward_body self payload w = (Raise (HTTPError why), tr)
          ∧ e = HTTPException 502
                  (Fmt "Error communicating with GCP Gateway: " (HTTPError why)))
  ∨ (ProxyApp.forward_body self payload w = (Raise e, tr)
     ∧ ∀ why, e ≠ HTTPError why).
Proof.
  unfold ProxyApp.forward_to_gcp.
  destruct (ProxyApp.forward_body self payload w) as [[v|e0] t]; [done|].
  destruct e0; intros [= <- <-]; try (by right); left; eauto.
Qed.

(** X9. [forward_to_gcp] of proxyapp.py returns what the gateway sent as
    JSON exactly when the shared client could be entered and the gateway
    answered 2xx with a JSON body (it does not look at the verdict). An
    [httpx.HTTPError], a status outside 2xx included, leaves as an
    [HTTPException] 502, and every other exception leaves unchanged. At
    most one POST is made, none when the client cannot be entered, and
    its only header is [Content-Type]: no [Authorization] is sent. *)
Theorem forward_to_gcp_outcomes :
  ∀ (self : ProxyApp.state) (payload : pyval) (w : ProxyApp.env),
    (∀ v tr,
       ProxyApp.forward_to_gcp self payload w = (Ok v, tr) ↔
       ProxyApp.enter_client w = None
       ∧ ∃ resp, ProxyApp.post w = Ok resp
                 ∧ (200 ≤ Gateway.status_code resp ≤ 299)%Z
                 ∧ Gateway.json resp = Ok v
                 ∧ tr = [EvGatewayPost (ProxyApp.GCP_GATEWAY_URL self) payload
                           (<["Content-Type" := "application/json"]> ∅)])
    ∧ (∀ e tr,
         ProxyApp.forward_to_gcp self payload w = (Raise e, tr) →
         (∃ why,
            ProxyApp.forward_body self payload w = (Raise (HTTPError why), tr)
            ∧ e = HTTPException 502
                    (Fmt "Error communicating with GCP Gateway: "
                       (HTTPError why)))
         ∨ (ProxyApp.forward_body self payload w = (Raise e, tr)
            ∧ ∀ why, e ≠ HTTPError why))
    ∧ (∀ resp,
         ProxyApp.enter_client w = None → ProxyApp.post w = Ok resp →
         ¬ (200 ≤ Gateway.status_code resp ≤ 299)%Z →
         (ProxyApp.forward_to_gcp self payload w).1
         = Raise (HTTPException 502
                    (Fmt "Error communicating with GCP Gateway: "
                       (HTTPError (Text "HTTPStatusError")))))
    ∧ ((ProxyApp.forward_to_gcp self payload w).2 = []
       ∧ is_Some (ProxyApp.enter_client w)
       ∨ (ProxyApp.forward_to_gcp self payload w).2
         = [EvGatewayPost (ProxyApp.GCP_GATEWAY_URL self) payload
              (<["Content-Type" := "application/json"]> ∅)]
         ∧ ProxyApp.enter_client w = None)
    ∧ (<["Content-Type" := "application/json"]> ∅ : gmap string string)
      !! "Authorization" = None.
Proof.
  intros self payload w. split_and!.
  - intros v tr. rewrite forward_to_gcp_ok.
    split; intros (He & resp & Hp & Hs & Hj & Ht); (split; [done|]);
      exists resp; split_and!; try done; by apply raise_for_status_ok.
  - apply forward_to_gcp_raise.
  - intros resp He Hp Hs.
    unfold ProxyApp.forward_to_gcp, ProxyApp.forward_body. rewrite He, Hp.
    destruct (Gateway.raise_for_status resp) as [[]|e] eqn:Hr.
    + by apply raise_for_status_ok in Hr.
    + by apply raise_for_status_raise in Hr as ->.
  - apply forward_to_gcp_trace.
  - done.
Qed.

Lemma forward_to_gcp_outcomes_witness :
  ProxyApp.enter_client (Examples.bad_gateway) = None
  ∧ ProxyApp.post (Examples.bad_gateway)
    = Ok {| Gateway.status_code := 503; Gateway.json := Ok PNone |}
  ∧ ¬ (200 ≤ 503 ≤ 299)%Z
  ∧ (ProxyApp.forward_to_gcp Scenario.app0 PNone Examples.bad_gateway).1
    = Raise (HTTPException 502
               (Fmt "Error communicating with GCP Gateway: "
                  (HTTPError (Text "HTTPStatusError")))).
Proof.
  destruct (forward_to_gcp_outcomes Scenario.app0 PNone Examples.bad_gateway)
    as (_ & _ & H & _).
  split_and!; [reflexivity | reflexivity | lia |].
  apply (H {| Gateway.status_code := 503; Gateway.json := Ok PNone |});
    [reflexivity | reflexivity | simpl; lia].
Defined.

(** ** The request path of proxyapp.py *)

Lemma proxyapp_get_client_cases (self : ProxyApp.state) op w :
  let key := ProxyApp._determine_service op in
  (∃ c, ProxyApp._instances self !! key = Some c
        ∧ ProxyApp.get_client self op w = (Ok c, self, []))
  ∨ (∃ e, ProxyApp._instances self !! key = None
          ∧ ProxyApp.boto3_client w = Some e
          ∧ ProxyApp.get_client self op w = (Raise e, self, []))
  ∨ (ProxyApp._instances self !! key = None
     ∧ ProxyApp.boto3_client w = None
     ∧ ProxyApp.get_client self op w
       = (Ok {| service := key; client_region := ProxyApp.AWS_REGION self;
                client_credentials := None |},
          ProxyApp.with_instance self key
            {| service := key; client_region := ProxyApp.AWS_REGION self;
               client_credentials := None |},
          [EvClientConstruct key (ProxyApp.AWS_REGION self) None])).
Proof.
  intros key. unfold ProxyApp.get_client. fold key.
  destruct (ProxyApp._instances self !! key) as [c|]; [left; eauto|].
  destruct (ProxyApp.boto3_client w) as [e|]; [right; left; eauto|].
  by right; right.
Qed.

(** What [call_bedrock_service] adds to the trace and the state of
    [get_client]: at most one backend call, of the method named by the
    snake_case form, with the request payload as keyword arguments. *)
Lemma call_bedrock_service_trace (self : ProxyApp.state) api w :
  ∃ r,
    ProxyApp.call_bedrock_service self api w
    = (r, (ProxyApp.get_client self (operation api) w).1.2,
       (ProxyApp.get_client self (operation api) w).2
       ++ match (ProxyApp.get_client self (operation api) w).1.1 with
          | Ok c =>
              match ProxyApp.getattr_client w c
                      (ProxyApp.snake_case (operation api)) with
              | Method => [EvBackendCall (service c)
                             (ProxyApp.snake_case (operation api))
                             (request_payload api)]
              | _ => []
              end
          | Raise _ => []
          end).
Proof.
  unfold ProxyApp.call_bedrock_service, ProxyApp.call_body.
  destruct (ProxyApp.get_client self (operation api) w) as [[[c|e] s] t]; simpl.
  - destruct (ProxyApp.getattr_client w c _); simpl;
      rewrite ?app_nil_r; eauto.
    destruct (ProxyApp.call w) as [r|e]; simpl.
    + destruct (ProxyApp.clean_response r) as [v|e]; simpl; [eauto|].
      destruct e; eauto.
    + destruct e; eauto.
  - rewrite app_nil_r. destruct e; eauto.
Qed.

Lemma proxyapp_predict_body_open (self : ProxyApp.state) req w :
  Gate.open w →
  ProxyApp.predict_body self req w
  = ((ProxyApp.call_bedrock_service self (bedrock_api req) w).1.1,
     (ProxyApp.call_bedrock_service self (bedrock_api req) w).1.2,
     Gate.post_event self req
     :: (ProxyApp.call_bedrock_service self (bedrock_api req) w).2).
Proof.
  intros (He & resp & d & Hp & Hs & Hj & Ha).
  unfold ProxyApp.predict_body.
  rewrite (proj2 (forward_to_gcp_ok self _ w (PDict d) [Gate.post_event self req]))
    by (split; [done|]; by exists resp).
  simpl. rewrite (proj2 (is_approved_true _) Ha).
  by destruct (ProxyApp.call_bedrock_service _ _ _) as [[r s] t].
Qed.

Lemma proxyapp_predict_body_closed (self : ProxyApp.state) req w :
  ¬ Gate.open w →
  ∃ e tr,
    ProxyApp.predict_body self req w = (Raise e, self, tr)
    ∧ (tr = [] ∨ tr = [Gate.post_event self req]).
Proof.
  intros Hclosed. unfold ProxyApp.predict_body.
  pose proof (forward_to_gcp_trace self (ProxyApp.prepare_gcp_request req) w)
    as Htr.
  destruct (ProxyApp.forward_to_gcp self _ w) as [[v|e] t] eqn:Hf; simpl in *.
  - apply forward_to_gcp_ok in Hf as (He & resp & Hp & Hs & Hj & ->).
    destruct v; simpl; try (eexists _, _; split; [done|]; by right).
    destruct (is_approved (d !! "status")) eqn:Ha.
    + destruct Hclosed. split; [done|]. exists resp, d.
      by apply is_approved_true in Ha.
    + eexists _, _; split; [done|]; by right.
  - eexists _, _. split; [done|].
    destruct Htr as [[-> _] | [-> _]]; [by left | by right].
Qed.

Lemma proxyapp_predict_trace (self : ProxyApp.state) req w :
  (ProxyApp.predict self req w).2 = (ProxyApp.predict_body self req w).2
  ∧ (ProxyApp.predict self req w).1.2 = (ProxyApp.predict_body self req w).1.2.
Proof.
  unfold ProxyApp.predict.
  by destruct (ProxyApp.predict_body self req w) as [[[r|e] s] t].
Qed.

Lemma approved_dec (post : result Gateway.response) :
  Serve.approved post ∨ ¬ Serve.approved post.
Proof.
  unfold Serve.approved.
  destruct post as [resp|e]; [|right; by intros (? & ? & ? & _)].
  destruct (Gateway.raise_for_status resp) as [[]|e] eqn:Hs;
    [|right; intros (? & ? & [= <-] & ? & _); congruence].
  destruct (Gateway.json resp) as [v|e] eqn:Hj;
    [|right; intros (? & ? & [= <-] & _ & ? & _); congruence].
  destruct v; try (right; intros (? & ? & [= <-] & _ & ? & _); congruence).
  destruct (is_approved (d !! "status")) eqn:Ha.
  - left. exists resp, d. by apply is_approved_true in Ha.
  - right. intros (? & d' & [= <-] & _ & Hd & Ha').
    rewrite Hj in Hd. injection Hd as <-.
    apply is_approved_true in Ha'. congruence.
Qed.

Lemma gate_open_dec (w : ProxyApp.env) : Gate.open w ∨ ¬ Gate.open w.
Proof.
  unfold Gate.open.
  destruct (ProxyApp.enter_client w) as [e|]; [right; by intros [? _]|].
  destruct (approved_dec (ProxyApp.post w)) as [|Hno]; [by left|].
  right. by intros [_ ?].
Qed.

(** X10. proxyapp.py touches Bedrock only for an approved request: when
    the trace of one [predict] holds a client construction or a backend
    call, the shared HTTP client was entered and the gateway answered 2xx
    with a JSON object whose [status] is "approved". For every other
    request [predict] raises, leaves the client cache as it was and makes
    no outside call but the POST to the gateway. *)
Theorem proxyapp_backend_needs_approval :
  ∀ (self : ProxyApp.state) (req : ProxyRequest) (w : ProxyApp.env),
    (∀ ev, ev ∈ (ProxyApp.predict self req w).2 →
           is_backend_call ev || is_client_construct ev = true →
           Gate.open w)
    ∧ (¬ Gate.open w →
       (∃ e, (ProxyApp.predict self req w).1.1 = Raise e)
       ∧ (ProxyApp.predict self req w).1.2 = self
       ∧ ((ProxyApp.predict self req w).2 = []
          ∨ (ProxyApp.predict self req w).2 = [Gate.post_event self req])).
Proof.
  intros self req w.
  assert (¬ Gate.open w →
          (∃ e, (ProxyApp.predict self req w).1.1 = Raise e)
          ∧ (ProxyApp.predict self req w).1.2 = self
          ∧ ((ProxyApp.predict self req w).2 = []
             ∨ (ProxyApp.predict self req w).2 = [Gate.post_event self req]))
    as Hclosed.
  { intros (e & tr & Hb & Htr)%(proxyapp_predict_body_closed self req).
    unfold ProxyApp.predict. rewrite Hb. simpl. eauto. }
  split; [|done].
  intros ev Hev Hkind.
  destruct (gate_open_dec w) as [|Hno]; [done|].
  destruct (Hclosed Hno) as (_ & _ & [Ht | Ht]); rewrite Ht in Hev.
  - by apply elem_of_nil in Hev.
  - apply list_elem_of_singleton in Hev as ->. done.
Qed.

Lemma proxyapp_backend_needs_approval_witness :
  ¬ Gate.open (Scenario.world "denied")
  ∧ (ProxyApp.predict Scenario.app0 (Scenario.request "InvokeModel")
       (Scenario.world "denied")).1.2 = Scenario.app0.
Proof.
  assert (¬ Gate.open (Scenario.world "denied")) as Hno.
  { intros (_ & resp & d & [= <-] & _ & [= <-] & Hd). by vm_compute in Hd. }
  split; [exact Hno|].
  destruct (proxyapp_backend_needs_approval Scenario.app0
              (Scenario.request "InvokeModel") (Scenario.world "denied"))
    as (_ & H).
  by destruct (H Hno) as (_ & ? & _).
Defined.

Lemma clean_response_raise (r : pyval) e :
  ProxyApp.clean_response r = Raise e → e = UnicodeDecodeError.
Proof.
  assert (∀ b e, decode_utf8 b = Raise e → e = UnicodeDecodeError) as Hdec.
  { intros b e'. unfold decode_utf8. destruct (utf8_valid b); [done|].
    by intros [= <-]. }
  destruct r; simpl; try done.
  - destruct (decode_utf8 b) eqn:Hb; [done|]. intros [= <-]. eauto.
  - destruct (decode_utf8 b) eqn:Hb; [done|]. intros [= <-]. eauto.
  - assert (match map_fold ProxyApp.clean_entry (Ok ∅) d with
            | Ok _ => True
            | Raise e' => e' = UnicodeDecodeError
            end) as Hfold.
    { apply (map_fold_weak_ind (λ r (_ : gmap string pyval),
        match r with Ok _ => True | Raise e' => e' = UnicodeDecodeError end));
        [done|].
      intros i x m [acc|e'] _ IH; simpl; [|done].
      destruct x; simpl; try done;
        destruct (decode_utf8 b) eqn:Hb; simpl; eauto. }
    destruct (map_fold _ _ d); [done|]. by intros [= <-].
Qed.

Lemma call_bedrock_service_ok (self self' : ProxyApp.state) api w r tr :
  ProxyApp.call_bedrock_service self api w = (Ok r, self', tr) ↔
  ∃ c tr_c resp cleaned,
    ProxyApp.get_client self (operation api) w = (Ok c, self', tr_c)
    ∧ ProxyApp.getattr_client w c (ProxyApp.snake_case (operation api)) = Method
    ∧ ProxyApp.call w = Ok resp
    ∧ ProxyApp.clean_response resp = Ok cleaned
    ∧ r = PDict (<["response" := cleaned]>
                   (<["operation" := PStr (operation api)]>
                      (<["status" := PStr "success"]> ∅)))
    ∧ tr = tr_c ++ [EvBackendCall (service c)
                      (ProxyApp.snake_case (operation api))
                      (request_payload api)].
Proof.
  unfold ProxyApp.call_bedrock_service, ProxyApp.call_body.
  destruct (ProxyApp.get_client self (operation api) w) as [[[c|e] s] t].
  - destruct (ProxyApp.getattr_client w c _) eqn:Ha.
    + split; [done|]. intros (? & ? & ? & ? & [= <- <- <-] & ? & _). congruence.
    + destruct (ProxyApp.call w) as [resp|e] eqn:Hc.
      * destruct (ProxyApp.clean_response resp) as [v|e] eqn:Hv.
        -- split.
           ++ intros [= <- <- <-]. by exists c, t, resp, v.
           ++ intros (? & ? & ? & ? & [= <- <- <-] & _ & [= <-] & Hv' & -> & ->).
              rewrite Hv in Hv'. by injection Hv' as <-.
        -- split; [by destruct e|].
           intros (? & ? & ? & ? & _ & _ & [= <-] & ? & _). congruence.
      * split; [by destruct e|]. by intros (? & ? & ? & ? & _ & _ & ? & _).
    + split; [done|]. intros (? & ? & ? & ? & [= <- <- <-] & ? & _). congruence.
  - split; [by destruct e|]. by intros (? & ? & ? & ? & ? & _).
Qed.

(** X11. [predict] of proxyapp.py answers a request exactly when the
    gateway let it through, a client for the operation's service is at
    hand or could be built, that client has a method under the snake_case
    form of the operation name, the call returned and the response could
    be cleaned. The answer is then
    [{status: "success", operation: <name as sent>, response: <cleaned>}]
    and the outside calls are, in this order: the POST to the gateway,
    the client construction if one was needed, and one backend call with
    the request payload as keyword arguments. *)
Theorem proxyapp_predict_success :
  ∀ (self self' : ProxyApp.state) (req : ProxyRequest) (w : ProxyApp.env) r tr,
    ProxyApp.predict self req w = (Ok r, self', tr) ↔
    Gate.open w
    ∧ ∃ c tr_c resp cleaned,
        ProxyApp.get_client self (operation (bedrock_api req)) w
        = (Ok c, self', tr_c)
        ∧ ProxyApp.getattr_client w c
            (ProxyApp.snake_case (operation (bedrock_api req))) = Method
        ∧ ProxyApp.call w = Ok resp
        ∧ ProxyApp.clean_response resp = Ok cleaned
        ∧ r = PDict (<["response" := cleaned]>
                       (<["operation" := PStr (operation (bedrock_api req))]>
                          (<["status" := PStr "success"]> ∅)))
        ∧ tr = Gate.post_event self req
               :: tr_c ++ [EvBackendCall (service c)
                             (ProxyApp.snake_case (operation (bedrock_api req)))
                             (request_payload (bedrock_api req))].
Proof.
  intros self self' req w r tr. split.
  - intros Hp. destruct (gate_open_dec w) as [Hopen|Hno].
    + split; [done|]. unfold ProxyApp.predict in Hp.
      rewrite (proxyapp_predict_body_open self req w Hopen) in Hp.
      destruct (ProxyApp.call_bedrock_service self (bedrock_api req) w)
        as [[[r0|e] s] t] eqn:Hc; simpl in Hp; [|done].
      injection Hp as <- <- <-.
      apply call_bedrock_service_ok in Hc
        as (c & tr_c & resp & cleaned & ? & ? & ? & ? & -> & ->).
      by exists c, tr_c, resp, cleaned.
    + apply (proxyapp_predict_body_closed self req) in Hno as (e & t & Hb & _).
      unfold ProxyApp.predict in Hp. by rewrite Hb in Hp.
  - intros (Hopen & c & tr_c & resp & cleaned & Hg & Ha & Hc & Hv & -> & ->).
    unfold ProxyApp.predict.
    rewrite (proxyapp_predict_body_open self req w Hopen).
    by rewrite (proj2 (call_bedrock_service_ok self self' (bedrock_api req) w _ _))
      by (by exists c, tr_c, resp, cleaned).
Qed.

Lemma proxyapp_predict_success_witness :
  ProxyApp.predict Scenario.app0 (Scenario.request "InvokeModel")
    (Scenario.world "approved")
  = (Ok (PDict (<["response" := PDict {["body" := PStr "ok"]}]>
                  (<["operation" := PStr "InvokeModel"]>
                     (<["status" := PStr "success"]> ∅)))),
     ProxyApp.with_instance Scenario.app0 "bedrock-runtime"
       {| service := "bedrock-runtime"; client_region := "us-east-1";
          client_credentials := None |},
     [Gate.post_event Scenario.app0 (Scenario.request "InvokeModel");
      EvClientConstruct "bedrock-runtime" "us-east-1" None;
      EvBackendCall "bedrock-runtime" "invoke_model"
        {["modelId" := PStr "titan"]}]).
Proof.
  apply proxyapp_predict_success. split.
  - split; [reflexivity|]. eexists _, _. split_and!; reflexivity.
  - eexists _, _, _, _. split_and!; reflexivity.
Defined.

(** X12. How [call_bedrock_service] fails. It raises nothing but a 400
    "Invalid Bedrock operation" or a 500 "Error calling Bedrock service".
    The 400 is raised for every [AttributeError] of its body, not only
    for a missing method: a backend method that itself raises
    [AttributeError] is reported as an invalid operation although it
    exists and was called. An attribute that is not callable, a failing
    backend call, a response whose bytes are not UTF-8 and a client that
    cannot be built give the 500; in the last case nothing is cached. *)
Theorem call_bedrock_service_failures :
  ∀ (self : ProxyApp.state) (api : BedrockAPI) (w : ProxyApp.env),
    (∀ e self' tr,
       ProxyApp.call_bedrock_service self api w = (Raise e, self', tr) →
       e = HTTPException 400
             (Text ("Invalid Bedrock operation: " +:+ operation api))
       ∨ ∃ cause,
           e = HTTPException 500 (Fmt "Error calling Bedrock service: " cause)
           ∧ ∀ n, cause ≠ AttributeError n)
    ∧ (∀ c self' tr,
         ProxyApp.get_client self (operation api) w = (Ok c, self', tr) →
         let name := ProxyApp.snake_case (operation api) in
         let called := tr ++ [EvBackendCall (service c) name (request_payload api)] in
         (ProxyApp.getattr_client w c name = NotCallable →
          ProxyApp.call_bedrock_service self api w
          = (Raise (HTTPException 500
                      (Fmt "Error calling Bedrock service: "
                         (TypeError "object is not callable"))), self', tr))
         ∧ (∀ n, ProxyApp.getattr_client w c name = Method →
                 ProxyApp.call w = Raise (AttributeError n) →
                 ProxyApp.call_bedrock_service self api w
                 = (Raise (HTTPException 400
                             (Text ("Invalid Bedrock operation: "
                                    +:+ operation api))), self', called))
         ∧ (∀ resp, ProxyApp.getattr_client w c name = Method →
                    ProxyApp.call w = Ok resp →
                    (∃ e, ProxyApp.clean_response resp = Raise e) →
                    ProxyApp.call_bedrock_service self api w
                    = (Raise (HTTPException 500
                                (Fmt "Error calling Bedrock service: "
                                   UnicodeDecodeError)), self', called)))
    ∧ (∀ e, ProxyApp._instances self
              !! ProxyApp._determine_service (operation api) = None →
            ProxyApp.boto3_client w = Some e →
            (∀ n, e ≠ AttributeError n) →
            ProxyApp.call_bedrock_service self api w
            = (Raise (HTTPException 500
                        (Fmt "Error calling Bedrock service: " e)), self, [])).
Proof.
  intros self api w. split_and!.
  - intros e self' tr. unfold ProxyApp.call_bedrock_service.
    destruct (ProxyApp.call_body self api w) as [[[r|cause] s] t]; [done|].
    destruct cause; intros [= <- _ _]; try (by left); right; eauto.
  - intros c self' tr Hg name called. split_and!.
    + intros Ha. unfold ProxyApp.call_bedrock_service, ProxyApp.call_body.
      fold name. by rewrite Hg, Ha.
    + intros n Ha Hc. unfold ProxyApp.call_bedrock_service, ProxyApp.call_body.
      fold name. by rewrite Hg, Ha, Hc.
    + intros resp Ha Hc [e He].
      pose proof (clean_response_raise resp e He) as ->.
      unfold ProxyApp.call_bedrock_service, ProxyApp.call_body.
      fold name. by rewrite Hg, Ha, Hc, He.
  - intros e Hk Hb Hne.
    unfold ProxyApp.call_bedrock_service, ProxyApp.call_body, ProxyApp.get_client.
    rewrite Hk, Hb. destruct e; try done. by destruct (Hne name).
Qed.

Lemma call_bedrock_service_failures_witness :
  ProxyApp.get_client Scenario.app0 "InvokeModel" Examples.backend_breaks
  = (Ok {| service := "bedrock-runtime"; client_region := "us-east-1";
           client_credentials := None |},
     ProxyApp.with_instance Scenario.app0 "bedrock-runtime"
       {| service := "bedrock-runtime"; client_region := "us-east-1";
          client_credentials := None |},
     [EvClientConstruct "bedrock-runtime" "us-east-1" None])
  ∧ ProxyApp.call_bedrock_service Scenario.app0
      (bedrock_api (Scenario.request "InvokeModel")) Examples.backend_breaks
    = (Raise (HTTPException 400 (Text "Invalid Bedrock operation: InvokeModel")),
       ProxyApp.with_instance Scenario.app0 "bedrock-runtime"
         {| service := "bedrock-runtime"; client_region := "us-east-1";
            client_credentials := None |},
       [EvClientConstruct "bedrock-runtime" "us-east-1" None;
        EvBackendCall "bedrock-runtime" "invoke_model"
          {["modelId" := PStr "titan"]}]).
Proof.
  split; [reflexivity|].
  destruct (call_bedrock_service_failures Scenario.app0
              (bedrock_api (Scenario.request "InvokeModel"))
              Examples.backend_breaks) as (_ & H & _).
  destruct (H _ _ _ eq_refl) as (_ & Hattr & _).
  apply (Hattr "read"); reflexivity.
Defined.

(** ** The client cache of proxyapp.py over many requests *)

Lemma determine_service_names (op : string) :
  ProxyApp._determine_service op ∈ Gate.service_names.
Proof.
  unfold ProxyApp._determine_service, Gate.service_names.
  repeat case_match; simpl; set_solver.
Qed.

Lemma proxyapp_get_client_keeps (self : ProxyApp.state) op w :
  let self' := (ProxyApp.get_client self op w).1.2 in
  ProxyApp.GCP_GATEWAY_URL self' = ProxyApp.GCP_GATEWAY_URL self
  ∧ ProxyApp.AWS_REGION self' = ProxyApp.AWS_REGION self
  ∧ (Gate.cache_wf self → Gate.cache_wf self')
  ∧ (∀ key c, ProxyApp._instances self !! key = Some c →
              ProxyApp._instances self' !! key = Some c)
  ∧ List.length (filter is_client_construct (ProxyApp.get_client self op w).2)
    + size (ProxyApp._instances self)
    = size (ProxyApp._instances self')
  ∧ filter is_backend_call (ProxyApp.get_client self op w).2 = [].
Proof.
  destruct (proxyapp_get_client_cases self op w)
    as [(c & Hk & ->)|[(e & Hk & _ & ->)|(Hk & _ & ->)]]; simpl;
    try by split_and!.
  split_and!; try done.
  - intros Hwf key c. unfold ProxyApp.with_instance; simpl.
    rewrite lookup_insert. case_decide as Hkey.
    + intros [= <-]. subst key. split; [apply determine_service_names | done].
    + apply Hwf.
  - intros key c Hc. rewrite lookup_insert_ne; [done|]. congruence.
  - by rewrite map_size_insert_None.
Qed.

Lemma proxyapp_predict_keeps (self : ProxyApp.state) req w :
  let self' := (ProxyApp.predict self req w).1.2 in
  ProxyApp.GCP_GATEWAY_URL self' = ProxyApp.GCP_GATEWAY_URL self
  ∧ ProxyApp.AWS_REGION self' = ProxyApp.AWS_REGION self
  ∧ (Gate.cache_wf self → Gate.cache_wf self')
  ∧ (∀ key c, ProxyApp._instances self !! key = Some c →
              ProxyApp._instances self' !! key = Some c)
  ∧ List.length (filter is_client_construct (ProxyApp.predict self req w).2)
    + size (ProxyApp._instances self)
    = size (ProxyApp._instances self')
  ∧ List.length (filter is_backend_call (ProxyApp.predict self req w).2) ≤ 1.
Proof.
  destruct (proxyapp_predict_trace self req w) as (-> & ->).
  destruct (gate_open_dec w) as [Hopen|Hno].
  - rewrite (proxyapp_predict_body_open self req w Hopen). simpl.
    destruct (call_bedrock_service_trace self (bedrock_api req) w) as (r & ->).
    simpl.
    destruct (proxyapp_get_client_keeps self (operation (bedrock_api req)) w)
      as (? & ? & ? & ? & Hsize & Hback).
    split_and!; try done.
    + rewrite filter_cons_False by (unfold Gate.post_event; simpl; tauto).
      rewrite filter_app, length_app.
      replace (filter is_client_construct
                 match (ProxyApp.get_client self (operation (bedrock_api req)) w).1.1
                 with
                 | Ok c =>
                     match ProxyApp.getattr_client w c
                             (ProxyApp.snake_case (operation (bedrock_api req)))
                     with
                     | Method => [EvBackendCall (service c)
                                    (ProxyApp.snake_case (operation (bedrock_api req)))
                                    (request_payload (bedrock_api req))]
                     | _ => []
                     end
                 | Raise _ => []
                 end) with (@nil event); [simpl in *; lia|].
      by repeat case_match.
    + rewrite filter_cons_False by (unfold Gate.post_event; simpl; tauto).
      rewrite filter_app, Hback. simpl. repeat case_match; simpl; lia.
  - apply (proxyapp_predict_body_closed self req) in Hno
      as (e & tr & -> & [-> | ->]); simpl; by split_and!; try lia.
Qed.

Lemma proxyapp_serve_keeps (rs : list (ProxyRequest * ProxyApp.env))
      (self : ProxyApp.state) :
  let self' := (Serve.proxyapp self rs).1.2 in
  ProxyApp.GCP_GATEWAY_URL self' = ProxyApp.GCP_GATEWAY_URL self
  ∧ ProxyApp.AWS_REGION self' = ProxyApp.AWS_REGION self
  ∧ (Gate.cache_wf self → Gate.cache_wf self')
  ∧ (∀ key c, ProxyApp._instances self !! key = Some c →
              ProxyApp._instances self' !! key = Some c)
  ∧ List.length (filter is_client_construct (Serve.proxyapp self rs).2)
    + size (ProxyApp._instances self)
    = size (ProxyApp._instances self')
  ∧ List.length (filter is_backend_call (Serve.proxyapp self rs).2) ≤ List.length rs.
Proof.
  revert self. induction rs as [|[req w] rs IH]; intros self; simpl.
  { by split_and!. }
  pose proof (proxyapp_predict_keeps self req w) as (Hu & Hr & Hwf & Hmono & Hsz & Hb).
  destruct (ProxyApp.predict self req w) as [[r s] t]; simpl in *.
  specialize (IH s). destruct IH as (Hu' & Hr' & Hwf' & Hmono' & Hsz' & Hb').
  destruct (Serve.proxyapp s rs) as [[out s'] t']; simpl in *.
  split_and!.
  - congruence.
  - congruence.
  - auto.
  - auto.
  - rewrite filter_app, length_app. lia.
  - rewrite filter_app, length_app. lia.
Qed.

Lemma cache_wf_size (self : ProxyApp.state) :
  Gate.cache_wf self → size (ProxyApp._instances self) ≤ 3.
Proof.
  intros Hwf.
  assert (dom (ProxyApp._instances self) ⊆ Gate.service_names) as Hsub.
  { intros key [c Hc]%elem_of_dom. by apply Hwf in Hc as [? _]. }
  rewrite <- size_dom. apply subseteq_size in Hsub.
  etrans; [exact Hsub|]. by vm_compute.
Qed.

(** X13. Over any number of requests served by proxyapp.py, starting
    with an empty client cache: the settings never change; a cached
    client is never replaced or dropped; every cached client sits under
    one of the three service names and is the client of that service for
    the configured region, without credentials; each client construction
    adds one entry, so at most three clients are ever built; and at most
    one backend call is made per request. *)
Theorem proxyapp_client_cache_invariant :
  ∀ (self : ProxyApp.state) (rs : list (ProxyRequest * ProxyApp.env)),
    ProxyApp._instances self = ∅ →
    let self' := (Serve.proxyapp self rs).1.2 in
    let tr := (Serve.proxyapp self rs).2 in
    ProxyApp.GCP_GATEWAY_URL self' = ProxyApp.GCP_GATEWAY_URL self
    ∧ ProxyApp.AWS_REGION self' = ProxyApp.AWS_REGION self
    ∧ (∀ key c, ProxyApp._instances self' !! key = Some c →
         key ∈ Gate.service_names
         ∧ c = {| service := key; client_region := ProxyApp.AWS_REGION self;
                  client_credentials := None |})
    ∧ (∀ rs' key c,
         ProxyApp._instances self' !! key = Some c →
         ProxyApp._instances (Serve.proxyapp self' rs').1.2 !! key = Some c)
    ∧ List.length (filter is_client_construct tr) = size (ProxyApp._instances self')
    ∧ List.length (filter is_client_construct tr) ≤ 3
    ∧ List.length (filter is_backend_call tr) ≤ List.length rs.
Proof.
  intros self rs Hempty self' tr.
  assert (Gate.cache_wf self) as Hwf0.
  { intros key c. by rewrite Hempty, lookup_empty. }
  destruct (proxyapp_serve_keeps rs self) as (Hu & Hr & Hwf & _ & Hsz & Hb).
  fold self' tr in Hu, Hr, Hwf, Hsz, Hb.
  rewrite Hempty, map_size_empty, Nat.add_0_r in Hsz.
  specialize (Hwf Hwf0).
  split_and!; try done.
  - intros key c Hc. destruct (Hwf key c Hc) as [? ->]. by rewrite Hr.
  - intros rs' key c. by apply proxyapp_serve_keeps.
  - rewrite Hsz. by apply cache_wf_size.
Qed.

Lemma proxyapp_client_cache_invariant_witness :
  ProxyApp._instances Scenario.app0 = ∅
  ∧ List.length (filter is_client_construct
       (Serve.proxyapp Scenario.app0
          [(Scenario.request "InvokeModel", Scenario.world "approved");
           (Scenario.request "InvokeModel", Scenario.world "approved");
           (Scenario.request "InvalidOp", Scenario.world "denied")]).2)
    = size (ProxyApp._instances
              (Serve.proxyapp Scenario.app0
                 [(Scenario.request "InvokeModel", Scenario.world "approved");
                  (Scenario.request "InvokeModel", Scenario.world "approved");
                  (Scenario.request "InvalidOp", Scenario.world "denied")]).1.2).
Proof.
  split; [reflexivity|].
  apply (proxyapp_client_cache_invariant Scenario.app0
           [(Scenario.request "InvokeModel", Scenario.world "approved");
            (Scenario.request "InvokeModel", Scenario.world "approved");
            (Scenario.request "InvalidOp", Scenario.world "denied")] eq_refl).
Defined.

(** ** What is called is what the gateway saw *)

Lemma prepare_gcp_request_entries (req : ProxyRequest) :
  py_get (ProxyApp.prepare_gcp_request req) "operation"
  = Ok (Some (PStr (operation (bedrock_api req))))
  ∧ py_get (ProxyApp.prepare_gcp_request req) "payload"
    = Ok (Some (PDict (request_payload (bedrock_api req)))).
Proof.
  unfold ProxyApp.prepare_gcp_request, py_get. split; f_equal.
Qed.

Lemma proxyapp_get_client_service (self self' : ProxyApp.state) op w c tr :
  Gate.cache_wf self →
  ProxyApp.get_client self op w = (Ok c, self', tr) →
  service c = ProxyApp._determine_service op.
Proof.
  intros Hwf.
  destruct (proxyapp_get_client_cases self op w)
    as [(c' & Hk & ->)|[(e & _ & _ & ->)|(_ & _ & ->)]]; intros [= <- _ _];
    [|done].
  by destruct (Hwf _ _ Hk) as [_ ->].
Qed.

Lemma proxyapp_predict_success_trace_example :
  (ProxyApp.predict Scenario.app0 (Scenario.request "InvokeModel")
     (Scenario.world "approved")).2
  = [Gate.post_event Scenario.app0 (Scenario.request "InvokeModel");
     EvClientConstruct "bedrock-runtime" "us-east-1" None;
     EvBackendCall "bedrock-runtime" "invoke_model"
       {["modelId" := PStr "titan"]}].
Proof. reflexivity. Qed.

(** X14. What proxyapp.py calls at Bedrock is what it showed to the
    gateway: whenever one [predict] makes a backend call, the first
    outside call of that request was the POST of the request's descriptor
    to the gateway, the method called is the snake_case form of the
    descriptor's [operation], on the client of the service that this
    operation resolves to, and the keyword arguments are the descriptor's
    [payload]. *)
Theorem proxyapp_calls_what_gateway_saw :
  ∀ (self : ProxyApp.state) (req : ProxyRequest) (w : ProxyApp.env) s m k,
    Gate.cache_wf self →
    EvBackendCall s m k ∈ (ProxyApp.predict self req w).2 →
    ∃ op rest,
      (ProxyApp.predict self req w).2
      = EvGatewayPost (ProxyApp.GCP_GATEWAY_URL self)
          (ProxyApp.prepare_gcp_request req)
          (<["Content-Type" := "application/json"]> ∅) :: rest
      ∧ py_get (ProxyApp.prepare_gcp_request req) "operation"
        = Ok (Some (PStr op))
      ∧ py_get (ProxyApp.prepare_gcp_request req) "payload"
        = Ok (Some (PDict k))
      ∧ m = ProxyApp.snake_case op
      ∧ s = ProxyApp._determine_service op.
Proof.
  intros self req w s m k Hwf Hev.
  destruct (proxyapp_predict_trace self req w) as (Htr & _).
  rewrite Htr in *. clear Htr.
  destruct (gate_open_dec w) as [Hopen|Hno].
  - rewrite (proxyapp_predict_body_open self req w Hopen) in *. simpl in *.
    destruct (call_bedrock_service_trace self (bedrock_api req) w) as (r & Hc).
    rewrite Hc in *. simpl in *.
    apply elem_of_cons in Hev as [Hev|Hev]; [done|].
    apply elem_of_app in Hev as [Hev|Hev].
    + destruct (proxyapp_get_client_cases self (operation (bedrock_api req)) w)
        as [(c' & _ & Hg)|[(e & _ & _ & Hg)|(_ & _ & Hg)]];
        rewrite Hg in Hev; simpl in Hev.
      * by apply elem_of_nil in Hev.
      * by apply elem_of_nil in Hev.
      * by apply list_elem_of_singleton in Hev.
    + destruct (ProxyApp.get_client self (operation (bedrock_api req)) w)
        as [[[c|e] s'] t] eqn:Hg; simpl in Hev; [|by apply elem_of_nil in Hev].
      destruct (ProxyApp.getattr_client w c _); simpl in Hev;
        try by apply elem_of_nil in Hev.
      apply list_elem_of_singleton in Hev. injection Hev as -> -> ->.
      exists (operation (bedrock_api req)). eexists.
      destruct (prepare_gcp_request_entries req) as (Ho & Hp).
      split_and!; [done | done | done | done |].
      by eapply proxyapp_get_client_service.
  - apply (proxyapp_predict_body_closed self req) in Hno
      as (e & tr & Hb & [-> | ->]); rewrite Hb in Hev; simpl in Hev.
    + by apply elem_of_nil in Hev.
    + by apply list_elem_of_singleton in Hev.
Qed.

Lemma proxyapp_calls_what_gateway_saw_witness :
  Gate.cache_wf Scenario.app0
  ∧ EvBackendCall "bedrock-runtime" "invoke_model" {["modelId" := PStr "titan"]}
    ∈ (ProxyApp.predict Scenario.app0 (Scenario.request "InvokeModel")
         (Scenario.world "approved")).2
  ∧ ∃ op, "invoke_model" = ProxyApp.snake_case op
          ∧ "bedrock-runtime" = ProxyApp._determine_service op.
Proof.
  assert (Gate.cache_wf Scenario.app0) as Hwf.
  { intros key c H. unfold Scenario.app0 in H. simpl in H.
    by rewrite lookup_empty in H. }
  assert (EvBackendCall "bedrock-runtime" "invoke_model"
            {["modelId" := PStr "titan"]}
          ∈ (ProxyApp.predict Scenario.app0 (Scenario.request "InvokeModel")
               (Scenario.world "approved")).2) as Hin.
  { rewrite proxyapp_predict_success_trace_example.
    apply list_elem_of_further, list_elem_of_further, list_elem_of_here. }
  split_and!; [exact Hwf | exact Hin |].
  destruct (proxyapp_calls_what_gateway_saw Scenario.app0
              (Scenario.request "InvokeModel") (Scenario.world "approved")
              _ _ _ Hwf Hin) as (op & rest & _ & _ & _ & ? & ?).
  by exists op.
Defined.

(** ** When response normalization fails *)

Lemma clean_value_raise_iff (v : pyval) :
  (∃ e, ProxyApp.clean_value v = Raise e) ↔
  ∃ b, (v = PBytes b ∨ v = PByteArray b) ∧ utf8_valid b = false.
Proof.
  unfold ProxyApp.clean_value, decode_utf8. split.
  - intros [e He]. destruct v; try done; exists b;
      (destruct (utf8_valid b); [done|]; split; [auto | done]).
  - intros (b & [-> | ->] & ->); eauto.
Qed.

Lemma clean_dict_raise_iff (d : gmap string pyval) :
  (∃ e, map_fold ProxyApp.clean_entry (Ok ∅) d = Raise e) ↔
  ∃ k b, (d !! k = Some (PBytes b) ∨ d !! k = Some (PByteArray b))
         ∧ utf8_valid b = false.
Proof.
  apply (map_fold_weak_ind (λ r (m : gmap string pyval),
    (∃ e, r = Raise e) ↔
    ∃ k b, (m !! k = Some (PBytes b) ∨ m !! k = Some (PByteArray b))
           ∧ utf8_valid b = false)).
  - split; [by intros [e ?]|]. intros (k & b & [H|H] & _);
      by rewrite lookup_empty in H.
  - intros i x m r Hi IH. split.
    + intros [e He]. destruct r as [acc|e0]; simpl in He.
      * destruct (ProxyApp.clean_value x) as [x'|e1] eqn:Hx; [done|].
        destruct (proj1 (clean_value_raise_iff x)) as (b & Hb & Hbad); [eauto|].
        exists i, b. rewrite lookup_insert_eq.
        split; [|done]. destruct Hb as [-> | ->]; auto.
      * destruct (proj1 IH) as (k & b & Hk & Hbad); [eauto|].
        exists k, b. split; [|done].
        rewrite lookup_insert_ne; [done|]. intros ->.
        destruct Hk as [Hk|Hk]; congruence.
    + intros (k & b & Hk & Hbad). destruct r as [acc|e0]; simpl; [|eauto].
      destruct (decide (i = k)) as [->|Hne].
      * rewrite lookup_insert_eq in Hk.
        destruct (proj2 (clean_value_raise_iff x)) as [e ->]; [|eauto].
        exists b. split; [|done]. destruct Hk as [[= ->]|[= ->]]; auto.
      * rewrite lookup_insert_ne in Hk by done.
        destruct (proj2 IH) as [e He]; [by exists k, b|]. done.
Qed.

Lemma clean_dict_dom (d d' : gmap string pyval) :
  map_fold ProxyApp.clean_entry (Ok ∅) d = Ok d' → dom d' = dom d.
Proof.
  revert d'.
  apply (map_fold_weak_ind (λ r (m : gmap string pyval),
    ∀ d', r = Ok d' → dom d' = dom m)).
  - by intros d' [= <-].
  - intros i x m [acc|e] Hi IH d'; simpl; [|done].
    destruct (ProxyApp.clean_value x) as [x'|e]; [|done].
    intros [= <-]. rewrite !dom_insert_L. by rewrite (IH acc).
Qed.

(** X15. Cleaning a response fails only with [UnicodeDecodeError], and
    exactly when binary content at the top (the response itself, or a
    value of the response mapping) is not well-formed UTF-8: one such
    value makes the whole response fail. When it succeeds on a mapping
    the result has the same keys. *)
Theorem clean_response_failures :
  (∀ r e, ProxyApp.clean_response r = Raise e → e = UnicodeDecodeError)
  ∧ (∀ b, (∃ e, ProxyApp.clean_response (PBytes b) = Raise e)
          ↔ utf8_valid b = false)
  ∧ (∀ b, (∃ e, ProxyApp.clean_response (PByteArray b) = Raise e)
          ↔ utf8_valid b = false)
  ∧ (∀ d, (∃ e, ProxyApp.clean_response (PDict d) = Raise e) ↔
          ∃ k b, (d !! k = Some (PBytes b) ∨ d !! k = Some (PByteArray b))
                 ∧ utf8_valid b = false)
  ∧ (∀ d r, ProxyApp.clean_response (PDict d) = Ok r →
            ∃ d', r = PDict d' ∧ dom d' = dom d).
Proof.
  split_and!.
  - apply clean_response_raise.
  - intros b. simpl. unfold decode_utf8.
    destruct (utf8_valid b); split; try done; [by intros [? ?] | eauto].
  - intros b. simpl. unfold decode_utf8.
    destruct (utf8_valid b); split; try done; [by intros [? ?] | eauto].
  - intros d. rewrite <- clean_dict_raise_iff. simpl.
    destruct (map_fold ProxyApp.clean_entry (Ok ∅) d) as [d'|e];
      split; try done; [by intros [? ?] | by intros [? ?] | eauto | eauto].
  - intros d r. simpl.
    destruct (map_fold ProxyApp.clean_entry (Ok ∅) d) as [d'|e] eqn:Hd; [|done].
    intros [= <-]. exists d'. split; [done|]. by apply clean_dict_dom.
Qed.

Lemma clean_response_failures_witness :
  ProxyApp.clean_response
    (PDict {["a" := PStr "x"; "b" := PBytes [Byte.xff]]})
  = Raise UnicodeDecodeError.
Proof.
  destruct clean_response_failures as (Honly & _ & _ & Hdict & _).
  destruct (proj2 (Hdict {["a" := PStr "x"; "b" := PBytes [Byte.xff]]}))
    as [e He].
  { exists "b", [Byte.xff]. split; [by left | reflexivity]. }
  rewrite He. f_equal. by apply Honly in He.
Defined.

(** ** main.py never reaches Bedrock *)

Lemma aws_get_credentials_returns_cache
      (self self' : AWS.state) (w : AWS.env) o tr :
  AWS.get_credentials self w = (Ok o, self', tr) →
  ∃ d, o = Some d ∧ AWS._credentials_cache self' = Some d.
Proof.
  unfold AWS.get_credentials.
  destruct (AWS._should_refresh_credentials self (AWS.utcnow_check w)) eqn:Hs.
  - destruct (AWS._refresh_credentials self w) as [[[u|e] s] t] eqn:Hr; [|done].
    intros [= <- <- _].
    apply aws_refresh_ok in Hr as (_ & _ & c & _ & _ & _ & _ & Hc & _). eauto.
  - intros [= <- <- _].
    assert (credentials_valid self (AWS.utcnow_check w) = true) as Hv
      by (unfold credentials_valid; by rewrite Hs).
    apply aws_valid_iff in Hv as (d & _ & Hd & _). eauto.
Qed.

Lemma aws_get_credentials_raise_500 (self self' : AWS.state) (w : AWS.env) e tr :
  AWS.get_credentials self w = (Raise e, self', tr) →
  ∃ detail, e = HTTPException 500 detail.
Proof.
  unfold AWS.get_credentials.
  destruct (AWS._should_refresh_credentials self (AWS.utcnow_check w)); [|done].
  destruct (AWS._refresh_credentials self w) as [[[u|e0] s] t]; [done|].
  intros [= <- _ _]. unfold AWS.auth_error. eauto.
Qed.

Lemma aws_get_credentials_keeps_refresh_form (self : AWS.state) (w : AWS.env) :
  Serve.cache_from_refresh self →
  Serve.cache_from_refresh (AWS.get_credentials self w).1.2.
Proof.
  intros Hinv d.
  destruct (aws_step_cases self (GetCredentials w))
    as [Heq|[Heq|(w' & c & _ & _ & Hc & _)]]; simpl in *.
  - rewrite Heq. apply Hinv.
  - by rewrite Heq.
  - rewrite Hc. intros [= <-]. eauto.
Qed.

(** With a credentials manager whose cache was written by
    [_refresh_credentials], [get_client] of services/bedrock_client.py
    never returns a client and never builds one. *)
Lemma bedrock_get_client_never (self : Bedrock.state) op w :
  Serve.cache_from_refresh (Bedrock.credentials_manager self) →
  (∃ e, (Bedrock.get_client self op w).1.1 = Raise e
        ∧ (e = KeyError "AccessKeyId" ∨ ∃ detail, e = HTTPException 500 detail))
  ∧ Bedrock._instances (Bedrock.get_client self op w).1.2
    = Bedrock._instances self
  ∧ Serve.cache_from_refresh
      (Bedrock.credentials_manager (Bedrock.get_client self op w).1.2)
  ∧ (Bedrock.get_client self op w).2
    = (AWS.get_credentials (Bedrock.credentials_manager self)
         (Bedrock.credentials_env w)).2.
Proof.
  intros Hinv.
  pose proof (aws_get_credentials_keeps_refresh_form _
                (Bedrock.credentials_env w) Hinv) as Hinv'.
  unfold Bedrock.get_client.
  destruct (AWS.get_credentials _ _) as [[[o|e] cm] tr] eqn:Hg; simpl in *.
  - apply aws_get_credentials_returns_cache in Hg as (d & -> & Hd).
    destruct (Hinv' d Hd) as [c ->].
    rewrite config_credentials_key_error. simpl. split_and!; eauto.
  - apply aws_get_credentials_raise_500 in Hg as [detail ->].
    split_and!; eauto.
Qed.

Lemma aws_get_credentials_quiet (self : AWS.state) (w : AWS.env) :
  filter is_backend_call (AWS.get_credentials self w).2 = []
  ∧ filter is_client_construct (AWS.get_credentials self w).2 = [].
Proof.
  unfold AWS.get_credentials.
  destruct (AWS._should_refresh_credentials self (AWS.utcnow_check w)); [|done].
  unfold AWS._refresh_credentials.
  destruct (AWS.ensure_handle self w) as [h|e]; simpl; [|done].
  destruct (AWS.google_refresh w) as [tok|e]; simpl; [|done].
  destruct (AWS.sts_client w) as [e|]; simpl; [done|].
  by destruct (AWS.assume_role w) as [c|e].
Qed.

Lemma validate_request_quiet (self : Gateway.state) payload (w : Gateway.env) :
  filter is_backend_call (Gateway.validate_request self payload w).2 = []
  ∧ filter is_client_construct (Gateway.validate_request self payload w).2 = [].
Proof.
  assert (∃ t0 rest,
            (Gateway.validate_request self payload w).2 = t0 ++ rest
            ∧ (t0 = [] ∨ ∃ a u, t0 = [EvIdentityRefresh a u])
            ∧ (rest = [] ∨ ∃ u p h, rest = [EvGatewayPost u p h]))
    as (t0 & rest & -> & Ht0 & Hrest).
  { unfold Gateway.validate_request, Gateway.validate_body.
    pose proof (gcp_headers_as_get_token (Gateway.token_manager self)
                  (Gateway.token_env w)) as (_ & Htr).
    pose proof (gcp_get_token_trace (Gateway.token_manager self)
                  (Gateway.token_env w)) as Hshape.
    rewrite <- Htr in Hshape.
    destruct (GCP.get_authorization_headers _ _) as [[[h|e] tm] t0];
      simpl in *.
    - exists t0, [EvGatewayPost (Gateway.gateway_url self) payload h].
      split_and!; [|done|right; eauto].
      destruct (Gateway.post w) as [resp|e]; [|done].
      destruct (Gateway.raise_for_status resp) as [[]|e]; [|done].
      destruct (Gateway.json resp) as [v|e]; [|done].
      destruct (py_get v "status") as [o|e]; [|done].
      by destruct (is_approved o).
    - exists t0, []. rewrite app_nil_r. split_and!; [done | done | by left]. }
  rewrite !filter_app.
  destruct Ht0 as [-> | (a & u & ->)];
    destruct Hrest as [-> | (u' & p & h & ->)]; done.
Qed.

Lemma main_predict_never (self : Main.state) req w :
  Serve.cache_from_refresh
    (Bedrock.credentials_manager (Main.bedrock_client_manager self)) →
  (∃ cause,
     (Main.predict self req w).1.1
     = Raise (HTTPException 500 (Fmt "Error processing request: " cause)))
  ∧ Bedrock._instances (Main.bedrock_client_manager (Main.predict self req w).1.2)
    = Bedrock._instances (Main.bedrock_client_manager self)
  ∧ Serve.cache_from_refresh
      (Bedrock.credentials_manager
         (Main.bedrock_client_manager (Main.predict self req w).1.2))
  ∧ filter is_backend_call (Main.predict self req w).2 = []
  ∧ filter is_client_construct (Main.predict self req w).2 = [].
Proof.
  intros Hinv. unfold Main.predict, Main.predict_body.
  pose proof (validate_request_quiet (Main.gcp_gateway self)
                (request_dict req) (Main.gateway_env w)) as (Hq1 & Hq2).
  destruct (Gateway.validate_request _ _ _) as [[[v|e] g] t]; simpl in *;
    [|split_and!; eauto].
  destruct (py_get v "status") as [o|e]; simpl; [|split_and!; eauto].
  destruct (is_approved o); simpl; [|split_and!; eauto].
  pose proof (bedrock_get_client_never (Main.bedrock_client_manager self)
                (operation (bedrock_api req)) (Main.client_env w) Hinv)
    as ((e & He & _) & Hi & Hinv' & Htr).
  pose proof (aws_get_credentials_quiet
                (Bedrock.credentials_manager (Main.bedrock_client_manager self))
                (Bedrock.credentials_env (Main.client_env w))) as (Ha1 & Ha2).
  rewrite <- Htr in Ha1, Ha2.
  destruct (Bedrock.get_client _ _ _) as [[[c|e'] m] t2]; simpl in *; [done|].
  rewrite !filter_app, Hq1, Hq2, Ha1, Ha2. split_and!; eauto.
Qed.

(** X16. [predict] of main.py never reaches Bedrock. Run on
    module-level objects whose credentials manager has an empty cache
    (as its constructor leaves it) or one written by
    [_refresh_credentials], and whatever the gateway, the identity
    provider, STS and boto3 answer, every request is answered with an
    [HTTPException] 500, no Bedrock client is ever built or cached and
    no backend call is ever made: [get_client] reads [AccessKeyId] from
    a dict that is keyed [aws_access_key_id]. The STS clients that
    [_refresh_credentials] builds are not Bedrock clients and are not
    counted. *)
Theorem main_never_reaches_bedrock :
  ∀ (self : Main.state) (rs : list (ProxyRequest * Main.env)),
    Serve.cache_from_refresh
      (Bedrock.credentials_manager (Main.bedrock_client_manager self)) →
    Forall (λ r, ∃ cause,
              r = Raise (HTTPException 500
                           (Fmt "Error processing request: " cause)))
           (Serve.main self rs).1.1
    ∧ Bedrock._instances (Main.bedrock_client_manager (Serve.main self rs).1.2)
      = Bedrock._instances (Main.bedrock_client_manager self)
    ∧ filter is_backend_call (Serve.main self rs).2 = []
    ∧ filter is_client_construct (Serve.main self rs).2 = [].
Proof.
  intros self rs. revert self.
  induction rs as [|[req w] rs IH]; intros self Hinv; simpl.
  { by split_and!. }
  pose proof (main_predict_never self req w Hinv) as (Hr & Hi & Hinv' & Hb & Hc).
  destruct (Main.predict self req w) as [[r s] t]; simpl in *.
  specialize (IH s Hinv'). destruct IH as (Hall & Hi' & Hb' & Hc').
  destruct (Serve.main s rs) as [[out s'] t']; simpl in *.
  split_and!.
  - by constructor.
  - congruence.
  - by rewrite filter_app, Hb, Hb'.
  - by rewrite filter_app, Hc, Hc'.
Qed.

Lemma main_never_reaches_bedrock_witness :
  Serve.cache_from_refresh
    (Bedrock.credentials_manager (Main.bedrock_client_manager Scenario.main0))
  ∧ filter is_backend_call
      (Serve.main Scenario.main0
         [(Scenario.request "InvokeModel", Scenario.main_world "approved")]).2
    = [].
Proof.
  assert (Serve.cache_from_refresh
            (Bedrock.credentials_manager
               (Main.bedrock_client_manager Scenario.main0))) as Hinv.
  { intros d H. discriminate H. }
  split; [exact Hinv|].
  apply (main_never_reaches_bedrock Scenario.main0
           [(Scenario.request "InvokeModel", Scenario.main_world "approved")]
           Hinv).
Defined.

(** ** Method names *)

Lemma isupper_lower_char (c : ascii) : isupper (lower_char c) = false.
Proof. destruct c as [[] [] [] [] [] [] [] []]; reflexivity. Qed.

Lemma lower_char_fixed (c : ascii) : isupper c = false → lower_char c = c.
Proof. unfold lower_char. by intros ->. Qed.

Lemma lower_char_upper_char_word (c : ascii) :
  islower c = true → isupper (upper_char c) = true ∧ lower_char (upper_char c) = c.
Proof. destruct c as [[] [] [] [] [] [] [] []]; simpl; intros [=]; by split. Qed.

Lemma islower_not_underscore (c : ascii) r :
  islower c = true → Names.no_leading_underscore (String c r) = true.
Proof. destruct c as [[] [] [] [] [] [] [] []]; simpl; intros [=]; reflexivity. Qed.

Lemma islower_not_upper (c : ascii) : islower c = true → isupper c = false.
Proof. destruct c as [[] [] [] [] [] [] [] []]; simpl; intros [=]; reflexivity. Qed.

Lemma snake_pieces_no_upper (s : string) :
  Names.no_upper (ProxyApp.snake_pieces s) = true.
Proof.
  induction s as [|c s IH]; simpl; [done|].
  destruct (isupper c); simpl; by rewrite isupper_lower_char, IH.
Qed.

Lemma lstrip_no_upper (s : string) :
  Names.no_upper s = true → Names.no_upper (lstrip_underscore s) = true.
Proof.
  induction s as [|c s IH]; [done|].
  intros H. pose proof H as [Hc Hs]%andb_true_iff.
  destruct (Ascii.eqb_spec c "_") as [->|Hne].
  - by apply IH.
  - assert (lstrip_underscore (String c s) = String c s) as ->; [|done].
    destruct c as [[] [] [] [] [] [] [] []]; try reflexivity. by destruct Hne.
Qed.

Lemma lstrip_no_leading (s : string) :
  Names.no_leading_underscore (lstrip_underscore s) = true.
Proof.
  induction s as [|c s IH]; [done|].
  destruct (Ascii.eqb_spec c "_") as [->|Hne]; [exact IH|].
  destruct c as [[] [] [] [] [] [] [] []]; try reflexivity. by destruct Hne.
Qed.

Lemma lstrip_fixed (s : string) :
  Names.no_leading_underscore s = true → lstrip_underscore s = s.
Proof.
  destruct s as [|c s]; [done|].
  destruct c as [[] [] [] [] [] [] [] []]; simpl; try reflexivity. by intros [=].
Qed.

Lemma snake_pieces_fixed (s : string) :
  Names.no_upper s = true → ProxyApp.snake_pieces s = s.
Proof.
  induction s as [|c s IH]; simpl; [done|].
  intros [Hc Hs]%andb_true_iff. apply negb_true_iff in Hc.
  by rewrite Hc, (lower_char_fixed c Hc), IH.
Qed.

Lemma lower_char_ascii (c : ascii) :
  Names.is_ascii_char c = true → Names.is_ascii_char (lower_char c) = true.
Proof. destruct c as [[] [] [] [] [] [] [] []]; simpl; intros [=]; reflexivity. Qed.

Lemma snake_pieces_ascii (s : string) :
  Names.is_ascii s = true → Names.is_ascii (ProxyApp.snake_pieces s) = true.
Proof.
  induction s as [|c s IH]; [done|].
  intros H. pose proof H as [Hc Hs]%andb_true_iff.
  change (ProxyApp.snake_pieces (String c s))
    with (if isupper c
          then String "_" (String (lower_char c) (ProxyApp.snake_pieces s))
          else String (lower_char c) (ProxyApp.snake_pieces s)).
  destruct (isupper c).
  - change (Names.is_ascii_char (lower_char c)
            && Names.is_ascii (ProxyApp.snake_pieces s) = true).
    apply andb_true_iff. split; [by apply lower_char_ascii | exact (IH Hs)].
  - change (Names.is_ascii_char (lower_char c)
            && Names.is_ascii (ProxyApp.snake_pieces s) = true).
    apply andb_true_iff. split; [by apply lower_char_ascii | exact (IH Hs)].
Qed.

Lemma lstrip_ascii (s : string) :
  Names.is_ascii s = true → Names.is_ascii (lstrip_underscore s) = true.
Proof.
  induction s as [|c s IH]; [done|].
  intros H. pose proof H as [Hc Hs]%andb_true_iff.
  destruct (Ascii.eqb_spec c "_") as [->|Hne].
  - by apply IH.
  - assert (lstrip_underscore (String c s) = String c s) as ->; [|done].
    destruct c as [[] [] [] [] [] [] [] []]; try reflexivity. by destruct Hne.
Qed.

(** X17. For an operation name of ASCII characters, the method name that
    [call_bedrock_service] derives from it is again ASCII, holds no
    upper-case letter and does not start with an underscore; an ASCII
    name that already has this form is left as it is, so deriving a name
    from a derived name changes nothing. *)
Theorem snake_case_shape :
  (∀ op, Names.is_ascii op = true →
         Names.is_ascii (ProxyApp.snake_case op) = true
         ∧ Names.no_upper (ProxyApp.snake_case op) = true
         ∧ Names.no_leading_underscore (ProxyApp.snake_case op) = true)
  ∧ (∀ name, Names.is_ascii name = true →
             Names.no_upper name = true →
             Names.no_leading_underscore name = true →
             ProxyApp.snake_case name = name)
  ∧ (∀ op, Names.is_ascii op = true →
           ProxyApp.snake_case (ProxyApp.snake_case op) = ProxyApp.snake_case op).
Proof.
  assert (∀ op, Names.is_ascii op = true →
                Names.is_ascii (ProxyApp.snake_case op) = true
                ∧ Names.no_upper (ProxyApp.snake_case op) = true
                ∧ Names.no_leading_underscore (ProxyApp.snake_case op) = true)
    as Hshape.
  { intros op Ha. unfold ProxyApp.snake_case. split_and!.
    - by apply lstrip_ascii, snake_pieces_ascii.
    - apply lstrip_no_upper, snake_pieces_no_upper.
    - apply lstrip_no_leading. }
  assert (∀ name, Names.is_ascii name = true →
                  Names.no_upper name = true →
                  Names.no_leading_underscore name = true →
                  ProxyApp.snake_case name = name) as Hfixed.
  { intros name _ Hu Hl. unfold ProxyApp.snake_case.
    by rewrite snake_pieces_fixed, lstrip_fixed. }
  split_and!; [done | done |].
  intros op Ha. destruct (Hshape op Ha) as (? & ? & ?). by apply Hfixed.
Qed.

Lemma snake_case_shape_witness :
  Names.is_ascii "InvokeModel" = true
  ∧ Names.no_upper (ProxyApp.snake_case "InvokeModel") = true
  ∧ Names.is_ascii "invoke_model" = true
  ∧ Names.no_upper "invoke_model" = true
  ∧ Names.no_leading_underscore "invoke_model" = true
  ∧ ProxyApp.snake_case "invoke_model" = "invoke_model"
  ∧ ProxyApp.snake_case (ProxyApp.snake_case "InvokeModel")
    = ProxyApp.snake_case "InvokeModel".
Proof.
  destruct snake_case_shape as (H1 & H2 & H3).
  split_and!.
  - reflexivity.
  - apply (H1 "InvokeModel"). reflexivity.
  - reflexivity.
  - reflexivity.
  - reflexivity.
  - apply (H2 "invoke_model"); reflexivity.
  - apply (H3 "InvokeModel"). reflexivity.
Defined.

Lemma append_empty_r (s : string) : s +:+ EmptyString = s.
Proof.
  induction s as [|c s IH]; [done|].
  change (String c s +:+ EmptyString) with (String c (s +:+ EmptyString)).
  by f_equal.
Qed.

Lemma snake_pieces_app (a b : string) :
  ProxyApp.snake_pieces (a +:+ b)
  = ProxyApp.snake_pieces a +:+ ProxyApp.snake_pieces b.
Proof.
  induction a as [|c a IH]; simpl; [done|].
  destruct (isupper c); simpl; by rewrite IH.
Qed.

Lemma snake_pieces_capitalize (w : string) :
  Names.is_word w = true →
  ProxyApp.snake_pieces (Names.capitalize w) = String "_" w.
Proof.
  destruct w as [|c r]; [done|]. simpl.
  intros [Hc Hr]%andb_true_iff.
  destruct (lower_char_upper_char_word c Hc) as (-> & ->).
  by rewrite (snake_pieces_fixed r Hr).
Qed.

Lemma snake_pieces_pascal (ws : list string) :
  Forall (λ w, Names.is_word w = true) ws →
  ProxyApp.snake_pieces (Names.pascal ws) = Names.prefixed ws.
Proof.
  induction 1 as [|w ws Hw _ IH]; simpl; [done|].
  by rewrite snake_pieces_app, (snake_pieces_capitalize w Hw), IH.
Qed.

Lemma snake_as_prefixed (w : string) (ws : list string) :
  Names.snake (w :: ws) = w +:+ Names.prefixed ws.
Proof.
  revert w. induction ws as [|w' ws IH]; intros w.
  - simpl. by rewrite append_empty_r.
  - change (Names.snake (w :: w' :: ws))
      with (w +:+ String "_" (Names.snake (w' :: ws))).
    by rewrite IH.
Qed.

Lemma snake_case_pascal_prefixed (w : string) (ws : list string) :
  Forall (λ w, Names.is_word w = true) (w :: ws) →
  ProxyApp.snake_case (Names.pascal (w :: ws)) = w +:+ Names.prefixed ws.
Proof.
  intros Hall. unfold ProxyApp.snake_case.
  rewrite (snake_pieces_pascal _ Hall).
  change (Names.prefixed (w :: ws)) with (String "_" (w +:+ Names.prefixed ws)).
  change (lstrip_underscore (String "_" (w +:+ Names.prefixed ws)))
    with (lstrip_underscore (w +:+ Names.prefixed ws)).
  apply lstrip_fixed.
  apply Forall_cons in Hall as [Hw _].
  destruct w as [|c r]; [done|].
  apply andb_true_iff in Hw as [Hc _].
  by apply (islower_not_underscore c).
Qed.

Lemma is_ascii_app (a b : string) :
  Names.is_ascii a = true → Names.is_ascii b = true →
  Names.is_ascii (a +:+ b) = true.
Proof.
  intros Ha Hb. induction a as [|c a IH]; [done|].
  change (String c a +:+ b) with (String c (a +:+ b)).
  apply andb_true_iff in Ha as [Hc Ha].
  change (Names.is_ascii_char c && Names.is_ascii (a +:+ b) = true).
  apply andb_true_iff. split; [exact Hc | exact (IH Ha)].
Qed.

Lemma upper_char_ascii (c : ascii) :
  Names.is_ascii_char c = true → Names.is_ascii_char (upper_char c) = true.
Proof. destruct c as [[] [] [] [] [] [] [] []]; simpl; intros [=]; reflexivity. Qed.

Lemma capitalize_ascii (w : string) :
  Names.is_ascii w = true → Names.is_ascii (Names.capitalize w) = true.
Proof.
  destruct w as [|c r]; [done|].
  intros [Hc Hr]%andb_true_iff.
  change (Names.is_ascii_char (upper_char c) && Names.is_ascii r = true).
  apply andb_true_iff. split; [by apply upper_char_ascii | exact Hr].
Qed.

(** X18. A round trip between the two naming conventions: for a method
    name made of ASCII words (each starting with a lower-case letter and
    holding no upper-case one), the PascalCase operation name, which
    capitalizes each word and joins them, is translated back by
    [call_bedrock_service] to the words joined by single underscores.
    So [InvokeModel] finds [invoke_model]. *)
Theorem snake_case_of_pascal :
  ∀ (w : string) (ws : list string),
    Forall (λ w, Names.is_ascii_word w = true) (w :: ws) →
    Names.is_ascii (Names.pascal (w :: ws)) = true
    ∧ ProxyApp.snake_case (Names.pascal (w :: ws)) = Names.snake (w :: ws).
Proof.
  intros w ws Hall.
  assert (Forall (λ w, Names.is_word w = true) (w :: ws)) as Hwords.
  { eapply Forall_impl; [exact Hall|].
    by intros x [? _]%andb_true_iff. }
  split.
  - clear Hwords. induction Hall as [|x xs Hx _ IH]; [done|].
    change (Names.pascal (x :: xs))
      with (Names.capitalize x +:+ Names.pascal xs).
    apply is_ascii_app; [|exact IH].
    apply andb_true_iff in Hx as [Hx Ha].
    by apply capitalize_ascii.
  - by rewrite (snake_case_pascal_prefixed w ws Hwords), snake_as_prefixed.
Qed.

Lemma snake_case_of_pascal_witness :
  Forall (λ w, Names.is_ascii_word w = true) ["invoke"; "model"]
  ∧ Names.pascal ["invoke"; "model"] = "InvokeModel"
  ∧ ProxyApp.snake_case (Names.pascal ["invoke"; "model"]) = "invoke_model".
Proof.
  assert (Forall (λ w, Names.is_ascii_word w = true) ["invoke"; "model"]) as Hw
    by (by repeat constructor).
  split_and!; [exact Hw | reflexivity |].
  exact (proj2 (snake_case_of_pascal "invoke" ["model"] Hw)).
Defined.
